(** * Integrity updater of a private Bazel registry

    A shallow embedding of [tools/update_integrity.py]: the SRI digest
    function [integrity], the JSON writer [json_dump] and the registry client
    [PrivateRegistryClient] with its [update_integrity] operation and the
    command [main], followed by the properties the specification states
    about them and by further properties of the code.

    Conventions.
    - Python [bytes] and [str] values are both byte strings ([string]); text is
      its UTF-8 encoding.
    - The file system is a tree of directories and regular files; symbolic
      links and directory permissions are outside the model.  A path is the
      list of its components, resolved from the root of the tree, with [..]
      denoting the parent directory.
    - The Python libraries the program calls are parameters of the model where
      their own code is not the program's: [hashlib] (the digest functions),
      [json.load] and [json.dumps].  [base64.b64encode] and the few [pathlib]
      operations are written out.  The modules [Sha2] and [Json] give one
      instance of each parameter, on which the program runs: the SHA-2
      functions, and a JSON reader and writer for documents without
      fractional numbers. *)

From Stdlib Require Import String Ascii List ZArith NArith Bool Lia.
From Stdlib Require Import DecimalString DecimalZ.
Import ListNotations.
Local Open Scope string_scope.
Local Open Scope list_scope.

Set Warnings "-register-all".

Infix "+++" := String.append (right associativity, at level 60).

(** ** Bytes, text and exceptions *)

Definition bytes := string.

Inductive oserror :=
| FileNotFoundError
| IsADirectoryError
| NotADirectoryError
| PermissionError.

(** The exceptions the program can raise, by their Python class. *)
Inductive exn :=
| AssertionError (msg : string)
| RuntimeError (msg : string)
| OSError (e : oserror)
| ValueError (msg : string)      (* json.JSONDecodeError, UnicodeDecodeError *)
| URLError (reason : string)
| TypeError
| AttributeError
| KeyError (key : string).

Definition result (A : Type) : Type := exn + A.

(** ** base64.b64encode *)

Definition b64_alphabet : string :=
  "ABCDEFGHIJKLMNOPQRSTUVWXYZabcdefghijklmnopqrstuvwxyz0123456789+/".

Definition b64_char (n : N) : ascii :=
  match String.get (N.to_nat n) b64_alphabet with
  | Some c => c
  | None => "="%char
  end.

(** The 6-bit group of the 24-bit word [w] that starts at bit [shift]. *)
Definition sextet (w shift : N) : ascii :=
  b64_char (N.land (N.shiftr w shift) 63).

Definition group24 (a b c : ascii) : N :=
  N.lor (N.shiftl (N_of_ascii a) 16)
        (N.lor (N.shiftl (N_of_ascii b) 8) (N_of_ascii c)).

Fixpoint b64encode (s : bytes) : string :=
  match s with
  | EmptyString => ""
  | String a EmptyString =>
      let w := group24 a zero zero in
      String (sextet w 18) (String (sextet w 12) "==")
  | String a (String b EmptyString) =>
      let w := group24 a b zero in
      String (sextet w 18) (String (sextet w 12) (String (sextet w 6) "="))
  | String a (String b (String c rest)) =>
      let w := group24 a b c in
      String (sextet w 18) (String (sextet w 12)
        (String (sextet w 6) (String (sextet w 0) (b64encode rest))))
  end.

(** ** The pattern of an SRI string

    [^(sha224|sha256|sha384|sha512)-[A-Za-z0-9+/]+=*$] as a scanner. *)

Definition sri_algorithms : list string :=
  ["sha224"; "sha256"; "sha384"; "sha512"].

Definition is_b64 (c : ascii) : bool :=
  let n := N_of_ascii c in
  ((65 <=? n) && (n <=? 90) || (97 <=? n) && (n <=? 122)
   || (48 <=? n) && (n <=? 57) || (n =? 43) || (n =? 47))%N.

Fixpoint all_pad (s : string) : bool :=
  match s with
  | EmptyString => true
  | String c r => Ascii.eqb c "="%char && all_pad r
  end.

(** [[A-Za-z0-9+/]*=*$] *)
Fixpoint b64_tail (s : string) : bool :=
  match s with
  | EmptyString => true
  | String c r => if is_b64 c then b64_tail r else all_pad s
  end.

(** [[A-Za-z0-9+/]+=*$] *)
Definition b64_text (s : string) : bool :=
  match s with
  | EmptyString => false
  | String c r => is_b64 c && b64_tail r
  end.

Fixpoint remove_prefix (p s : string) : option string :=
  match p, s with
  | EmptyString, _ => Some s
  | String a p', String b s' => if Ascii.eqb a b then remove_prefix p' s' else None
  | String _ _, EmptyString => None
  end.

Definition sri_pattern (s : string) : bool :=
  existsb (fun a => match remove_prefix (a +++ "-") s with
                    | Some r => b64_text r
                    | None => false
                    end) sri_algorithms.

(** ** JSON values and the Python operations the program applies to them

    [json.load] returns [None], [bool], [int], [float], [str], [list] or
    [dict] values.  A [float] is kept as the text [repr] prints for it; a
    [dict] is the list of its items in insertion order. *)

Inductive json :=
| JNull
| JBool (b : bool)
| JInt (z : Z)
| JFloat (repr : string)
| JStr (s : string)
| JArr (items : list json)
| JObj (fields : list (string * json)).

Definition dict := list (string * json).

Fixpoint dict_get (k : string) (d : dict) : option json :=
  match d with
  | [] => None
  | (k', v) :: r => if String.eqb k k' then Some v else dict_get k r
  end.

Definition dict_has (k : string) (d : dict) : bool :=
  match dict_get k d with Some _ => true | None => false end.

(** [d[k] = v]: an existing key keeps its position, a new key goes last. *)
Fixpoint dict_set (k : string) (v : json) (d : dict) : dict :=
  match d with
  | [] => [(k, v)]
  | (k', v') :: r =>
      if String.eqb k k' then (k, v) :: r else (k', v') :: dict_set k v r
  end.

(** [d.pop(k, None)], keeping the dictionary. *)
Definition dict_pop (k : string) (d : dict) : dict :=
  filter (fun kv => negb (String.eqb k (fst kv))) d.

Definition dict_keys (d : dict) : list string := map fst d.

Fixpoint str_contains (k s : string) : bool :=
  String.prefix k s ||
  match s with
  | EmptyString => false
  | String _ r => str_contains k r
  end.

Definition is_str (k : string) (v : json) : bool :=
  match v with JStr s => String.eqb k s | _ => false end.

(** [k in v] for a [str] [k]. *)
Definition py_contains (k : string) (v : json) : result bool :=
  match v with
  | JObj d => inr (dict_has k d)
  | JArr l => inr (existsb (is_str k) l)
  | JStr s => inr (str_contains k s)
  | _ => inl TypeError
  end.

(** [v[k]] for a [str] [k]. *)
Definition py_getitem (v : json) (k : string) : result json :=
  match v with
  | JObj d => match dict_get k d with
              | Some x => inr x
              | None => inl (KeyError k)
              end
  | _ => inl TypeError
  end.

(** [v.get(k, default)]. *)
Definition py_get (v : json) (k : string) (default : json) : result json :=
  match v with
  | JObj d => match dict_get k d with
              | Some x => inr x
              | None => inr default
              end
  | _ => inl AttributeError
  end.

(** [v[k] = x]. *)
Definition py_setitem (v : json) (k : string) (x : json) : result json :=
  match v with
  | JObj d => inr (JObj (dict_set k x d))
  | _ => inl TypeError
  end.

(** [v.pop(k, None)]; a [list] has [pop], but with one argument at most. *)
Definition py_pop (v : json) (k : string) : result json :=
  match v with
  | JObj d => inr (JObj (dict_pop k d))
  | JArr _ => inl TypeError
  | _ => inl AttributeError
  end.

(** ** Paths and the file system *)

Definition Path := list string.

Inductive node :=
| File (readable writable : bool) (data : bytes)
| Dir (entries : list (string * node)).

Definition is_file (n : node) : bool :=
  match n with File _ _ _ => true | Dir _ => false end.

Definition is_dir (n : node) : bool :=
  match n with File _ _ _ => false | Dir _ => true end.

Fixpoint assoc {A : Type} (k : string) (l : list (string * A)) : option A :=
  match l with
  | [] => None
  | (k', v) :: r => if String.eqb k k' then Some v else assoc k r
  end.

(** The node at a path without [..] components. *)
Fixpoint fs_get (n : node) (p : Path) : option node :=
  match p with
  | [] => Some n
  | c :: p' =>
      match n with
      | Dir es => match assoc c es with
                  | Some m => fs_get m p'
                  | None => None
                  end
      | File _ _ _ => None
      end
  end.

(** One step of path resolution: from the directory at [cur] to its entry
    [c], or to its parent when [c] is [..]. *)
Definition enter (root : node) (cur : option Path) (c : string) : option Path :=
  match cur with
  | None => None
  | Some q =>
      match fs_get root q with
      | Some (Dir es) =>
          if String.eqb c ".." then Some (removelast q)
          else match assoc c es with
               | Some _ => Some (q ++ [c])
               | None => None
               end
      | _ => None
      end
  end.

(** The [..]-free path of an existing node, [None] when there is none. *)
Definition realpath (root : node) (p : Path) : option Path :=
  fold_left (enter root) p (Some []).

Definition stat (root : node) (p : Path) : option node :=
  match realpath root p with
  | Some q => fs_get root q
  | None => None
  end.

Fixpoint put_entry (k : string) (n : node) (es : list (string * node))
  : list (string * node) :=
  match es with
  | [] => [(k, n)]
  | (k', n') :: r =>
      if String.eqb k k' then (k, n) :: r else (k', n') :: put_entry k n r
  end.

(** The tree with the node at the [..]-free path [p] replaced by [new]; the
    entry is added when its directory has none of that name. *)
Fixpoint fs_put (p : Path) (new : node) (n : node) : node :=
  match p with
  | [] => new
  | c :: p' =>
      match n with
      | Dir es =>
          match p', assoc c es with
          | _, Some m => Dir (put_entry c (fs_put p' new m) es)
          | [], None => Dir (put_entry c new es)
          | _ :: _, None => n
          end
      | File _ _ _ => n
      end
  end.

(** [s.split("/")]. *)
Fixpoint split_slash (s : string) : list string :=
  match s with
  | EmptyString => [""]
  | String c r =>
      let l := split_slash r in
      if Ascii.eqb c "/"%char then "" :: l
      else match l with
           | h :: t => String c h :: t
           | [] => [String c ""]
           end
  end.

(** The components [pathlib] keeps of a path string: empty ones and [.] are
    dropped, [..] stays. *)
Definition path_parts (s : string) : Path :=
  filter (fun c => negb (String.eqb c "") && negb (String.eqb c "."))
         (split_slash s).

(** [p / s]: an absolute [s] replaces [p]. *)
Definition joinpath (p : Path) (s : string) : Path :=
  if String.prefix "/" s then path_parts s else p ++ path_parts s.

(** [p.resolve()] for an absolute path: without symbolic links, [..] goes
    with the component before it. *)
Definition resolve (p : Path) : Path :=
  fold_left (fun q c => if String.eqb c ".." then removelast q else q ++ [c]) p [].

(** [str(p)] for an absolute path, and for a relative one. *)
Definition path_str (p : Path) : string := "/" +++ String.concat "/" p.
Definition rel_str (p : Path) : string := String.concat "/" p.

(** [p.rglob("*")] from the directory [n], as pairs of the path relative to
    [n] and the node: the entries of a directory first, then those of its
    subdirectories, in directory order. *)
Fixpoint rglob (n : node) (prefix : Path) : list (Path * node) :=
  match n with
  | File _ _ _ => []
  | Dir es =>
      map (fun e => (prefix ++ [fst e], snd e)) es ++
      (fix subdirs (l : list (string * node)) : list (Path * node) :=
         match l with
         | [] => []
         | (name, m) :: l' => rglob m (prefix ++ [name]) ++ subdirs l'
         end) es
  end.

(** ** The world: file system, working directory, network *)

Record world := World {
  fs : node;
  cwd : Path;
  net : string -> result bytes   (* [urlopen(url).read()] *)
}.

(** Operations that only read the world. *)
Definition R (A : Type) : Type := world -> result A.

Definition retR {A} (x : A) : R A := fun _ => inr x.
Definition raiseR {A} (e : exn) : R A := fun _ => inl e.
Definition lift {A} (r : result A) : R A := fun _ => r.
Definition bindR {A B} (c : R A) (k : A -> R B) : R B :=
  fun w => match c w with
           | inl e => inl e
           | inr x => k x w
           end.

Declare Scope reader_scope.
Delimit Scope reader_scope with reader.
Notation "x <- c ;; k" := (bindR c (fun x => k))
  (at level 100, c at next level, right associativity) : reader_scope.
Notation "' pat <- c ;; k" := (bindR c (fun x => match x with pat => k end))
  (at level 100, pat pattern, c at next level, right associativity) : reader_scope.
Local Open Scope reader_scope.

(** [p.exists()]. *)
Definition path_exists (p : Path) : R bool :=
  fun w => inr (match stat (fs w) p with Some _ => true | None => false end).

(** Reading an open file: needs read permission. *)
Definition read_node (n : node) : result bytes :=
  match n with
  | File true _ data => inr data
  | File false _ _ => inl (OSError PermissionError)
  | Dir _ => inl (OSError IsADirectoryError)
  end.

(** [open(p).read()], in text or binary mode. *)
Definition open_read (p : Path) : R bytes :=
  fun w => match stat (fs w) p with
           | Some n => read_node n
           | None => inl (OSError FileNotFoundError)
           end.

(** [list(p.iterdir())], as directory entries (name and node). *)
Definition iterdir (p : Path) : R (list (string * node)) :=
  fun w => match stat (fs w) p with
           | Some (Dir es) => inr es
           | Some (File _ _ _) => inl (OSError NotADirectoryError)
           | None => inl (OSError FileNotFoundError)
           end.

(** [list(p.rglob("*"))]; nothing when [p] is not a directory. *)
Definition rglob_all (p : Path) : R (list (Path * node)) :=
  fun w => match stat (fs w) p with
           | Some n => inr (rglob n [])
           | None => inr []
           end.

(** [with open(p, "w") as f: f.write(text)]: the file is replaced, or
    created in an existing directory. *)
Definition open_write (p : Path) (text : bytes) (w : world) : result unit * world :=
  match realpath (fs w) p with
  | Some q =>
      match fs_get (fs w) q with
      | Some (File r true _) =>
          (inr tt, World (fs_put q (File r true text) (fs w)) (cwd w) (net w))
      | Some (File _ false _) => (inl (OSError PermissionError), w)
      | _ => (inl (OSError IsADirectoryError), w)
      end
  | None =>
      match realpath (fs w) (removelast p) with
      | Some q =>
          match fs_get (fs w) q with
          | Some (Dir _) =>
              (inr tt, World (fs_put (q ++ [last p ""]) (File true true text) (fs w))
                             (cwd w) (net w))
          | _ => (inl (OSError NotADirectoryError), w)
          end
      | None => (inl (OSError FileNotFoundError), w)
      end
  end.

(** ** The program *)

Definition excluded_lock : string := "MODULE.bazel.lock".

(** [class PrivateRegistryClient]: [self.root], resolved and absolute. *)
Record client := Client { root : Path }.

Section Program.

(** [hashlib alg data] is [getattr(hashlib, alg)(data).digest()]. *)
Variable hashlib : string -> bytes -> bytes.

(** [json_loads text] is [json.load] on a file whose content is [text]. *)
Variable json_loads : bytes -> result json.

(** [json_dumps data sort_keys] is
    [json.dumps(data, indent=4, sort_keys=sort_keys)]. *)
Variable json_dumps : json -> bool -> string.

(** [download(url)], lines 19-31. *)
Definition download (url : json) : R bytes :=
  match url with
  | JStr u =>
      if String.prefix "file://" u then
        let file_path := String.substring 7 (String.length u - 7) u in
        fun w => open_read (joinpath (cwd w) file_path) w
      else
        fun w => match net w u with
                 | inl (URLError e) =>
                     inl (RuntimeError ("Failed to download " +++ u +++ ": " +++ e))
                 | r => r
                 end
  | _ => raiseR AttributeError
  end.

(** [read_file(path)], lines 34-37, on a directory entry. *)
Definition read_file (n : node) : R bytes := lift (read_node n).

(** [integrity(data, algorithm="sha256")], lines 40-51. *)
Definition integrity (data : bytes) (algorithm : string) : result string :=
  if existsb (String.eqb algorithm) sri_algorithms then
    let encoded := b64encode (hashlib algorithm data) in
    inr (algorithm +++ "-" +++ encoded)
  else inl (AssertionError "Unsupported SRI algorithm").

(** [json_dump(file_path, data, sort_keys=False)], lines 54-58. *)
Definition json_dump (file_path : Path) (data : json) (sort_keys : bool)
  : world -> result unit * world :=
  open_write file_path (json_dumps data sort_keys +++ String "010"%char "").

(** [__init__(self, registry_root)], lines 64-74. *)
Definition new_client (registry_root : string) : R client :=
  fun w =>
    let root := resolve (joinpath (cwd w) registry_root) in
    match stat (fs w) root with
    | None => inl (RuntimeError ("Registry root does not exist: " +++ path_str root))
    | Some _ =>
        match stat (fs w) (joinpath root "bazel_registry.json") with
        | None =>
            inl (RuntimeError ("Not a valid registry: missing bazel_registry.json in "
                               +++ path_str root))
        | Some _ => inr (Client root)
        end
    end.

(** [get_registry_config], lines 82-86. *)
Definition get_registry_config (self : client) : R json :=
  text <- open_read (joinpath (root self) "bazel_registry.json") ;;
  lift (json_loads text).

(** [self.root / v]: only a [str] joins. *)
Definition truediv (p : Path) (v : json) : result Path :=
  match v with
  | JStr s => inr (joinpath p s)
  | _ => inl TypeError
  end.

(** [get_modules_dir], lines 76-80. *)
Definition get_modules_dir (self : client) : R Path :=
  config <- get_registry_config self ;;
  module_base_path <- lift (py_get config "module_base_path" (JStr "modules")) ;;
  lift (truediv (root self) module_base_path).

Definition dir_names (es : list (string * node)) : list string :=
  map fst (filter (fun e => is_dir (snd e)) es).

(** [get_all_modules], lines 88-93. *)
Definition get_all_modules (self : client) : R (list string) :=
  modules_dir <- get_modules_dir self ;;
  e <- path_exists modules_dir ;;
  if negb e then retR []
  else es <- iterdir modules_dir ;; retR (dir_names es).

(** [get_module_versions], lines 95-100. *)
Definition get_module_versions (self : client) (module_name : string)
  : R (list string) :=
  modules_dir <- get_modules_dir self ;;
  let module_dir := joinpath modules_dir module_name in
  e <- path_exists module_dir ;;
  if negb e then retR []
  else es <- iterdir module_dir ;; retR (dir_names es).

Definition version_dir (modules_dir : Path) (module_name version : string) : Path :=
  joinpath (joinpath modules_dir module_name) version.

(** [get_source_json_path], lines 102-104. *)
Definition get_source_json_path (self : client) (module_name version : string)
  : R Path :=
  modules_dir <- get_modules_dir self ;;
  retR (joinpath (version_dir modules_dir module_name version) "source.json").

(** [get_source], lines 106-113. *)
Definition get_source (self : client) (module_name version : string) : R json :=
  source_path <- get_source_json_path self module_name version ;;
  e <- path_exists source_path ;;
  if negb e then
    raiseR (RuntimeError ("source.json not found: " +++ path_str source_path))
  else
    text <- open_read source_path ;;
    lift (json_loads text).

(** [get_overlay_dir], lines 115-117. *)
Definition get_overlay_dir (self : client) (module_name version : string)
  : R Path :=
  modules_dir <- get_modules_dir self ;;
  retR (joinpath (version_dir modules_dir module_name version) "overlay").

(** [get_patches_dir], lines 119-121. *)
Definition get_patches_dir (self : client) (module_name version : string)
  : R Path :=
  modules_dir <- get_modules_dir self ;;
  retR (joinpath (version_dir modules_dir module_name version) "patches").

(** [module_exists(module_name, version=None)], lines 123-135. *)
Definition module_exists (self : client) (module_name : string)
           (version : option string) : R bool :=
  modules_dir <- get_modules_dir self ;;
  let module_dir := joinpath modules_dir module_name in
  e <- path_exists module_dir ;;
  if negb e then retR false
  else match version with
       | None => retR true
       | Some v => path_exists (joinpath module_dir v)
       end.

(** The comparison with the current entry that decides which notice a
    digested file gets, lines 166-170 and 197-201: only its failures are
    kept, the notices themselves are not. *)
Definition notice (current : json) (name : string) : result unit :=
  match py_contains name current with
  | inl e => inl e
  | inr true => match py_getitem current name with
                | inl e => inl e
                | inr _ => inr tt
                end
  | inr false => inr tt
  end.

(** The digesting loops, lines 160-170 and 190-201: [files] are the keys
    and the entries to digest, [current] the record's current mapping as the
    loop body evaluates it, [acc] the mapping built so far. *)
Fixpoint digest_files (current : result json) (files : list (string * node))
         (acc : dict) : R dict :=
  match files with
  | [] => retR acc
  | (name, n) :: rest =>
      data <- read_file n ;;
      file_integrity <- lift (integrity data "sha256") ;;
      let acc' := dict_set name (JStr file_integrity) acc in
      cur <- lift current ;;
      _ <- lift (notice cur name) ;;
      digest_files current rest acc'
  end.

(** Lines 146-150. *)
Definition update_archive (source : json) : R json :=
  has_url <- lift (py_contains "url" source) ;;
  if has_url : bool then
    url <- lift (py_getitem source "url") ;;
    archive_data <- download url ;;
    digest <- lift (integrity archive_data "sha256") ;;
    lift (py_setitem source "integrity" (JStr digest))
  else retR source.

(** Lines 152-178. *)
Definition update_patches (patches_dir : Path) (source : json) : R json :=
  e <- path_exists patches_dir ;;
  if e : bool then
    current_patches <- lift (py_get source "patches" (JObj [])) ;;
    entries <- iterdir patches_dir ;;
    let available_patches := filter (fun e => is_file (snd e)) entries in
    match available_patches with
    | _ :: _ =>
        patches <- digest_files (inr current_patches) available_patches [] ;;
        lift (py_setitem source "patches" (JObj patches))
    | [] => lift (py_pop source "patches")
    end
  else lift (py_pop source "patches").

Definition overlay_file (e : Path * node) : bool :=
  is_file (snd e) && negb (String.eqb (last (fst e) "") excluded_lock).

(** Lines 180-209. *)
Definition update_overlay (overlay_dir : Path) (source : json) : R json :=
  e <- path_exists overlay_dir ;;
  if e : bool then
    found <- rglob_all overlay_dir ;;
    let overlay_files :=
      map (fun e => (rel_str (fst e), snd e)) (filter overlay_file found) in
    match overlay_files with
    | _ :: _ =>
        overlay <- digest_files (py_get source "overlay" (JObj [])) overlay_files [] ;;
        lift (py_setitem source "overlay" (JObj overlay))
    | [] => lift (py_pop source "overlay")
    end
  else lift (py_pop source "overlay").

(** [update_integrity] up to the write, lines 139-209: the path of the
    record and the record to write. *)
Definition updated_source (self : client) (module_name version : string)
  : R (Path * json) :=
  found <- module_exists self module_name (Some version) ;;
  if negb found then
    raiseR (RuntimeError ("Module " +++ module_name +++ "@" +++ version
                          +++ " not found"))
  else
    source <- get_source self module_name version ;;
    source_path <- get_source_json_path self module_name version ;;
    source <- update_archive source ;;
    patches_dir <- get_patches_dir self module_name version ;;
    source <- update_patches patches_dir source ;;
    overlay_dir <- get_overlay_dir self module_name version ;;
    source <- update_overlay overlay_dir source ;;
    retR (source_path, source).

(** [update_integrity(module_name, version)], lines 137-213. *)
Definition update_integrity (self : client) (module_name version : string)
  : world -> result unit * world :=
  fun w =>
    match updated_source self module_name version w with
    | inl e => (inl e, w)
    | inr (source_path, source) => json_dump source_path source false w
    end.

End Program.

(** ** The command line *)

(** The arguments [argparse] hands to [main], lines 223-227: [module],
    [--version] ([None] when left out) and [--registry] ([.] when left
    out). *)
Record arguments := Args {
  arg_module : string;
  arg_version : option string;
  arg_registry : string
}.

(** How [main] ends: by returning after the update, or at one of its
    [sys.exit(1)] with the values its message shows.  The printed text itself
    is not kept. *)
Inductive outcome :=
| Done (version : string)                                      (* line 259 *)
| ModuleNotFound (available : list string)                     (* lines 234-239 *)
| NoVersions                                                   (* lines 243-244 *)
| VersionNotFound (version : string) (available : list string) (* lines 253-255 *)
| Failed (e : exn).                                            (* lines 261-263 *)

(** The exit status of the process. *)
Definition exit_status (o : outcome) : Z :=
  match o with
  | Done _ => 0
  | _ => 1
  end.

(** [sorted(l)] for [str] items: Python orders [str] by code point, which is
    the order of the UTF-8 bytes. *)
Fixpoint insort (x : string) (l : list string) : list string :=
  match l with
  | [] => [x]
  | y :: r => if String.leb y x then y :: insort x r else x :: l
  end.

Definition sorted (l : list string) : list string :=
  fold_left (fun acc x => insort x acc) l [].

Section Command.

Variable hashlib : string -> bytes -> bytes.
Variable json_loads : bytes -> result json.
Variable json_dumps : json -> bool -> string.

(** [main] up to the update, lines 230-255: the client and the version to
    update, or the exit taken before. *)
Definition select_version (args : arguments) : R (outcome + client * string) :=
  client <- new_client (arg_registry args) ;;
  found <- module_exists json_loads client (arg_module args) None ;;
  if negb found then
    available <- get_all_modules json_loads client ;;
    retR (inl (ModuleNotFound available))
  else
    versions <- get_module_versions json_loads client (arg_module args) ;;
    match versions with
    | [] => retR (inl NoVersions)
    | _ :: _ =>
        let version := match arg_version args with
                       | Some v => v
                       | None => last (sorted versions) ""
                       end in
        found <- module_exists json_loads client (arg_module args) (Some version) ;;
        if negb found then retR (inl (VersionNotFound version (sorted versions)))
        else retR (inr (client, version))
    end.

(** [main()], lines 216-263, from the parsed arguments. *)
Definition main (args : arguments) (w : world) : outcome * world :=
  match select_version args w with
  | inl e => (Failed e, w)
  | inr (inl exit) => (exit, w)
  | inr (inr (client, version)) =>
      match update_integrity hashlib json_loads json_dumps client
                             (arg_module args) version w with
      | (inl e, w') => (Failed e, w')
      | (inr _, w') => (Done version, w')
      end
  end.

End Command.

(** ** An instance of [hashlib]: the SHA-2 family (FIPS 180-4) *)

Module Sha2.

(** The constants are fractional parts of roots of the first primes, as the
    standard defines them. *)

Definition is_prime (n : nat) : bool :=
  forallb (fun d => negb (n mod d =? 0)%nat) (seq 2 (n - 2)).

Definition primes : list N :=
  map N.of_nat (filter is_prime (seq 2 408)).

(** The integer cube root of [n], for roots below [2^bits]. *)
Fixpoint cube_root (bits : nat) (n r : N) : N :=
  match bits with
  | O => r
  | S b =>
      let c := N.lor r (N.shiftl 1 (N.of_nat b)) in
      cube_root b n (if (c * c * c <=? n)%N then c else r)
  end.

(** The first [bits] bits of the fractional part of the root of [p]. *)
Definition frac_cbrt (bits : N) (p : N) : N :=
  N.land (cube_root (N.to_nat bits + 4) (N.shiftl p (3 * bits)) 0) (N.ones bits).
Definition frac_sqrt (bits : N) (p : N) : N :=
  N.land (N.sqrt (N.shiftl p (2 * bits))) (N.ones bits).

Definition K256 : list N := Eval vm_compute in map (frac_cbrt 32) (firstn 64 primes).
Definition K512 : list N := Eval vm_compute in map (frac_cbrt 64) (firstn 80 primes).
Definition IV256 : list N := Eval vm_compute in map (frac_sqrt 32) (firstn 8 primes).
Definition IV512 : list N := Eval vm_compute in map (frac_sqrt 64) (firstn 8 primes).
Definition IV384 : list N :=
  Eval vm_compute in map (frac_sqrt 64) (firstn 8 (skipn 8 primes)).
Definition IV224 : list N :=
  Eval vm_compute in map (fun p => N.land (frac_sqrt 64 p) (N.ones 32))
                         (firstn 8 (skipn 8 primes)).

(** What distinguishes the 32-bit functions from the 64-bit ones. *)
Record params := Params {
  wbits : N;                      (* bits in a word *)
  wbytes : nat;                   (* bytes in a word *)
  Kc : list N;                    (* one round constant per round *)
  Sigma0 : N * N * N;             (* three rotations *)
  Sigma1 : N * N * N;
  sigma0 : N * N * N;             (* two rotations and a shift *)
  sigma1 : N * N * N
}.

Definition p32 : params :=
  Params 32 4 K256 (2, 13, 22)%N (6, 11, 25)%N (7, 18, 3)%N (17, 19, 10)%N.

Definition p64 : params :=
  Params 64 8 K512 (28, 34, 39)%N (14, 18, 41)%N (1, 8, 7)%N (19, 61, 6)%N.

Section Words.

Variable P : params.

Definition trunc (x : N) : N := N.land x (N.ones (wbits P)).
Definition add (x y : N) : N := trunc (x + y).
Definition rotr (x n : N) : N :=
  trunc (N.lor (N.shiftr x n) (N.shiftl x (wbits P - n))).

Definition big_sigma (r : N * N * N) (x : N) : N :=
  let '(a, b, c) := r in N.lxor (rotr x a) (N.lxor (rotr x b) (rotr x c)).
Definition small_sigma (r : N * N * N) (x : N) : N :=
  let '(a, b, c) := r in N.lxor (rotr x a) (N.lxor (rotr x b) (N.shiftr x c)).

Definition Ch (x y z : N) : N :=
  N.lxor (N.land x y) (N.land (N.lxor x (N.ones (wbits P))) z).
Definition Maj (x y z : N) : N :=
  N.lxor (N.land x y) (N.lxor (N.land x z) (N.land y z)).

(** The eight working variables. *)
Record state := State { va : N; vb : N; vc : N; vd : N;
                        ve : N; vf : N; vg : N; vh : N }.

Definition round (k w : N) (s : state) : state :=
  let t1 := add (add (add (vh s) (big_sigma (Sigma1 P) (ve s)))
                     (add (Ch (ve s) (vf s) (vg s)) k)) w in
  let t2 := add (big_sigma (Sigma0 P) (va s)) (Maj (va s) (vb s) (vc s)) in
  State (add t1 t2) (va s) (vb s) (vc s) (add (vd s) t1) (ve s) (vf s) (vg s).

(** The rounds over a window of the sixteen latest schedule words. *)
Fixpoint rounds (ks : list N) (win : list N) (s : state) : state :=
  match ks with
  | [] => s
  | k :: ks' =>
      let w := nth 0 win 0%N in
      let next :=
        add (add (small_sigma (sigma1 P) (nth 14 win 0%N)) (nth 9 win 0%N))
            (add (small_sigma (sigma0 P) (nth 1 win 0%N)) w) in
      rounds ks' (tl win ++ [next]) (round k w s)
  end.

Definition compress (s : state) (block : list N) : state :=
  let t := rounds (Kc P) block s in
  State (add (va s) (va t)) (add (vb s) (vb t)) (add (vc s) (vc t))
        (add (vd s) (vd t)) (add (ve s) (ve t)) (add (vf s) (vf t))
        (add (vg s) (vg t)) (add (vh s) (vh t)).

(** Big-endian bytes of a number, and back. *)
Fixpoint be_bytes (n : nat) (x : N) : list N :=
  match n with
  | O => []
  | S m => be_bytes m (N.shiftr x 8) ++ [N.land x 255]
  end.

Definition be_value (l : list N) : N :=
  fold_left (fun acc b => N.lor (N.shiftl acc 8) b) l 0%N.

(** The message, a one bit, zeros and the bit length, to a whole number
    of sixteen-word blocks. *)
Definition padded (msg : list N) : list N :=
  let block := (16 * wbytes P)%nat in
  let used := (length msg + 1 + 2 * wbytes P)%nat in
  let zeros := ((block - used mod block) mod block)%nat in
  msg ++ [128%N] ++ repeat 0%N zeros
      ++ be_bytes (2 * wbytes P) (8 * N.of_nat (length msg)).

(** The list cut into pieces of [n] elements; [fuel] bounds the pieces. *)
Fixpoint chunks {A : Type} (fuel n : nat) (l : list A) : list (list A) :=
  match fuel, l with
  | O, _ => []
  | _, [] => []
  | S f, _ => firstn n l :: chunks f n (skipn n l)
  end.

Definition block_words (bs : list N) : list N :=
  map be_value (chunks 16 (wbytes P) bs).

Definition state_bytes (s : state) : list N :=
  flat_map (be_bytes (wbytes P))
           [va s; vb s; vc s; vd s; ve s; vf s; vg s; vh s].

Definition initial (iv : list N) : state :=
  State (nth 0 iv 0%N) (nth 1 iv 0%N) (nth 2 iv 0%N) (nth 3 iv 0%N)
        (nth 4 iv 0%N) (nth 5 iv 0%N) (nth 6 iv 0%N) (nth 7 iv 0%N).

Definition hash (iv : list N) (size : nat) (msg : list N) : list N :=
  let p := padded msg in
  let blocks := chunks (length p) (16 * wbytes P) p in
  firstn size
    (state_bytes (fold_left (fun s b => compress s (block_words b))
                            blocks (initial iv))).

End Words.

Definition to_bytes (s : string) : list N :=
  map N_of_ascii (list_ascii_of_string s).
Definition of_bytes (l : list N) : string :=
  string_of_list_ascii (map ascii_of_N l).

Definition sha224 (data : bytes) : bytes := of_bytes (hash p32 IV224 28 (to_bytes data)).
Definition sha256 (data : bytes) : bytes := of_bytes (hash p32 IV256 32 (to_bytes data)).
Definition sha384 (data : bytes) : bytes := of_bytes (hash p64 IV384 48 (to_bytes data)).
Definition sha512 (data : bytes) : bytes := of_bytes (hash p64 IV512 64 (to_bytes data)).

(** [getattr(hashlib, algorithm)(data).digest()] for the four names the
    program accepts; it asks for no other. *)
Definition digest (algorithm : string) (data : bytes) : bytes :=
  if String.eqb algorithm "sha224" then sha224 data
  else if String.eqb algorithm "sha256" then sha256 data
  else if String.eqb algorithm "sha384" then sha384 data
  else if String.eqb algorithm "sha512" then sha512 data
  else "".

End Sha2.

(** ** An instance of the JSON library

    [Json.dumps] prints as [json.dumps(v, indent=4, sort_keys=b)] does and
    [Json.loads] reads JSON text as [json.load] does, on documents whose
    characters are ASCII and whose numbers are integers; a character of a
    string is one byte (a code point below 256), and number literals with a
    fraction or an exponent are refused. *)

Module Json.

Definition quote : ascii := "034"%char.
Definition backslash : ascii := "\"%char.
Definition newline : ascii := "010"%char.

Definition hex_digit (n : N) : ascii :=
  match String.get (N.to_nat n) "0123456789abcdef" with
  | Some c => c
  | None => "0"%char
  end.

(** [ESCAPE_ASCII] of [json.encoder]: what is not in [ -~], the quote and
    the backslash are escaped. *)
Definition escape_char (c : ascii) : string :=
  let n := N_of_ascii c in
  if Ascii.eqb c quote then String backslash (String quote "")
  else if Ascii.eqb c backslash then String backslash (String backslash "")
  else if (n =? 10)%N then String backslash "n"
  else if (n =? 13)%N then String backslash "r"
  else if (n =? 9)%N then String backslash "t"
  else if (n =? 8)%N then String backslash "b"
  else if (n =? 12)%N then String backslash "f"
  else if ((32 <=? n) && (n <=? 126))%N then String c ""
  else String backslash
         (String "u" (String "0" (String "0"
            (String (hex_digit (N.shiftr n 4))
               (String (hex_digit (N.land n 15)) ""))))).

Fixpoint escape (s : string) : string :=
  match s with
  | EmptyString => ""
  | String c r => escape_char c +++ escape r
  end.

Definition quoted (s : string) : string :=
  String quote (escape s +++ String quote "").

Definition decimal (z : Z) : string := NilZero.string_of_int (Z.to_int z).

Fixpoint indent (level : nat) : string :=
  match level with
  | O => ""
  | S l => "    " +++ indent l
  end.

Definition line (level : nat) : string := String newline (indent level).

(** The items of a list or a dictionary after the first, each after a comma
    on a line of its own. *)
Fixpoint join_items {A : Type} (item : A -> string) (level : nat) (l : list A)
  : string :=
  match l with
  | [] => ""
  | y :: l' => "," +++ line level +++ item y +++ join_items item level l'
  end.

(** The text of [v] at nesting depth [level]. *)
Fixpoint dumps_at (level : nat) (v : json) {struct v} : string :=
  match v with
  | JNull => "null"
  | JBool true => "true"
  | JBool false => "false"
  | JInt z => decimal z
  | JFloat r => r
  | JStr s => quoted s
  | JArr [] => "[]"
  | JArr (x :: xs) =>
      "[" +++ line (S level) +++ dumps_at (S level) x +++
      join_items (dumps_at (S level)) (S level) xs +++
      line level +++ "]"
  | JObj [] => "{}"
  | JObj ((k, x) :: fs) =>
      "{" +++ line (S level) +++ quoted k +++ ": " +++ dumps_at (S level) x +++
      join_items (fun kv => let '(k', y) := kv in
                            quoted k' +++ ": " +++ dumps_at (S level) y)
                 (S level) fs +++
      line level +++ "}"
  end.

Fixpoint insert_item (kv : string * json) (l : list (string * json))
  : list (string * json) :=
  match l with
  | [] => [kv]
  | kv' :: r =>
      if String.leb (fst kv) (fst kv') then kv :: l else kv' :: insert_item kv r
  end.

(** [v] with the items of every [dict] sorted by key. *)
Fixpoint sorted (v : json) : json :=
  match v with
  | JArr l => JArr (map sorted l)
  | JObj fs =>
      JObj ((fix items (l : list (string * json)) : list (string * json) :=
               match l with
               | [] => []
               | (k, x) :: l' => insert_item (k, sorted x) (items l')
               end) fs)
  | _ => v
  end.

Definition dumps (v : json) (sort_keys : bool) : string :=
  dumps_at 0 (if sort_keys then sorted v else v).

(** *** Reading: a scanner, then a parser of its tokens *)

Inductive token :=
| TLBrace | TRBrace | TLBrack | TRBrack | TComma | TColon
| TLit (v : json)
| TString (s : string).

Inductive mode :=
| Idle
| InWord (acc : string)              (* a number or a keyword *)
| InStr (acc : string)               (* inside a string *)
| InEsc (acc : string)               (* after a backslash *)
| InUni (acc : string) (hex : list N)  (* after a backslash and u *).

Definition is_space (c : ascii) : bool :=
  let n := N_of_ascii c in ((n =? 32) || (n =? 10) || (n =? 13) || (n =? 9))%N.

Definition is_word (c : ascii) : bool :=
  let n := N_of_ascii c in
  ((48 <=? n) && (n <=? 57) || (65 <=? n) && (n <=? 90)
   || (97 <=? n) && (n <=? 122) || (n =? 45) || (n =? 43) || (n =? 46))%N.

Definition hex_value (c : ascii) : option N :=
  let n := N_of_ascii c in
  if ((48 <=? n) && (n <=? 57))%N then Some (n - 48)%N
  else if ((97 <=? n) && (n <=? 102))%N then Some (n - 87)%N
  else if ((65 <=? n) && (n <=? 70))%N then Some (n - 55)%N
  else None.

(** The token a number or keyword stands for. *)
Definition word_token (w : string) : option token :=
  match NilZero.int_of_string w with
  | Some d =>
      let z := Z.of_int d in
      if String.eqb (decimal z) w || String.eqb w "-0" then Some (TLit (JInt z))
      else None
  | None =>
      if String.eqb w "null" then Some (TLit JNull)
      else if String.eqb w "true" then Some (TLit (JBool true))
      else if String.eqb w "false" then Some (TLit (JBool false))
      else None
  end.

Definition snoc (s : string) (c : ascii) : string := s +++ String c "".

Definition scan_idle (toks : list token) (c : ascii) : option (list token * mode) :=
  if is_space c then Some (toks, Idle)
  else if Ascii.eqb c "{" then Some (TLBrace :: toks, Idle)
  else if Ascii.eqb c "}" then Some (TRBrace :: toks, Idle)
  else if Ascii.eqb c "[" then Some (TLBrack :: toks, Idle)
  else if Ascii.eqb c "]" then Some (TRBrack :: toks, Idle)
  else if Ascii.eqb c "," then Some (TComma :: toks, Idle)
  else if Ascii.eqb c ":" then Some (TColon :: toks, Idle)
  else if Ascii.eqb c quote then Some (toks, InStr "")
  else if is_word c then Some (toks, InWord (String c ""))
  else None.

Definition unescape (c : ascii) : option ascii :=
  if Ascii.eqb c quote then Some quote
  else if Ascii.eqb c backslash then Some backslash
  else if Ascii.eqb c "/" then Some "/"%char
  else if Ascii.eqb c "n" then Some "010"%char
  else if Ascii.eqb c "r" then Some "013"%char
  else if Ascii.eqb c "t" then Some "009"%char
  else if Ascii.eqb c "b" then Some "008"%char
  else if Ascii.eqb c "f" then Some "012"%char
  else None.

(** One character of input; the tokens are kept last first. *)
Definition scan_step (st : option (list token * mode)) (c : ascii)
  : option (list token * mode) :=
  match st with
  | None => None
  | Some (toks, Idle) => scan_idle toks c
  | Some (toks, InWord acc) =>
      if is_word c then Some (toks, InWord (snoc acc c))
      else match word_token acc with
           | Some t => scan_idle (t :: toks) c
           | None => None
           end
  | Some (toks, InStr acc) =>
      let n := N_of_ascii c in
      if Ascii.eqb c quote then Some (TString acc :: toks, Idle)
      else if Ascii.eqb c backslash then Some (toks, InEsc acc)
      else if ((32 <=? n) && (n <=? 126))%N then Some (toks, InStr (snoc acc c))
      else None
  | Some (toks, InEsc acc) =>
      if Ascii.eqb c "u" then Some (toks, InUni acc [])
      else match unescape c with
           | Some x => Some (toks, InStr (snoc acc x))
           | None => None
           end
  | Some (toks, InUni acc hex) =>
      match hex_value c, hex with
      | Some d, [a; b; e] =>
          if ((a =? 0) && (b =? 0))%N
          then Some (toks, InStr (snoc acc (ascii_of_N (16 * e + d))))
          else None
      | Some d, _ => Some (toks, InUni acc (hex ++ [d]))
      | None, _ => None
      end
  end.

Fixpoint scan (s : string) (st : option (list token * mode))
  : option (list token * mode) :=
  match s with
  | EmptyString => st
  | String c r => scan r (scan_step st c)
  end.

Definition tokens (s : string) : option (list token) :=
  match scan s (Some ([], Idle)) with
  | Some (toks, Idle) => Some (rev toks)
  | Some (toks, InWord acc) =>
      match word_token acc with
      | Some t => Some (rev (t :: toks))
      | None => None
      end
  | _ => None
  end.

(** [dict(pairs)]: a repeated key keeps its first place and its last
    value. *)
Definition dict_of (pairs : list (string * json)) : dict :=
  fold_left (fun d kv => dict_set (fst kv) (snd kv) d) pairs [].

Fixpoint parse_value (fuel : nat) (ts : list token) : option (json * list token) :=
  match fuel with
  | O => None
  | S f =>
      match ts with
      | TLit v :: r => Some (v, r)
      | TString s :: r => Some (JStr s, r)
      | TLBrack :: TRBrack :: r => Some (JArr [], r)
      | TLBrack :: r => parse_items f r []
      | TLBrace :: TRBrace :: r => Some (JObj [], r)
      | TLBrace :: r => parse_fields f r []
      | _ => None
      end
  end
with parse_items (fuel : nat) (ts : list token) (acc : list json)
  : option (json * list token) :=
  match fuel with
  | O => None
  | S f =>
      match parse_value f ts with
      | Some (v, TComma :: r) => parse_items f r (v :: acc)
      | Some (v, TRBrack :: r) => Some (JArr (rev (v :: acc)), r)
      | _ => None
      end
  end
with parse_fields (fuel : nat) (ts : list token) (acc : list (string * json))
  : option (json * list token) :=
  match fuel with
  | O => None
  | S f =>
      match ts with
      | TString k :: TColon :: r =>
          match parse_value f r with
          | Some (v, TComma :: r') => parse_fields f r' ((k, v) :: acc)
          | Some (v, TRBrace :: r') => Some (JObj (dict_of (rev ((k, v) :: acc))), r')
          | _ => None
          end
      | _ => None
      end
  end.

Definition loads (text : bytes) : result json :=
  match tokens text with
  | Some ts =>
      match parse_value (S (length ts)) ts with
      | Some (v, []) => inr v
      | _ => inl (ValueError "Expecting value")
      end
  | None => inl (ValueError "Expecting value")
  end.

End Json.

(** ** The program on the instances, and the registry of the test suite *)

Definition py_integrity := integrity Sha2.digest.
Definition py_module_exists := module_exists Json.loads.
Definition py_get_all_modules := get_all_modules Json.loads.
Definition py_get_source := get_source Json.loads.
Definition py_updated_source := updated_source Sha2.digest Json.loads.
Definition py_update_integrity := update_integrity Sha2.digest Json.loads Json.dumps.

Definition regular (data : bytes) : node := File true true data.

Definition json_text (v : json) : bytes :=
  Json.dumps v false +++ String Json.newline "".

(** [create_test_registry] of [test_update_integrity.py], with the version
    directory's entries left open; the modules directory and the module
    directory also hold a regular file each. *)
Definition test_tree (version_entries : list (string * node)) : node :=
  Dir [("dev", Dir [("null", regular "")]);
       ("tmp", Dir [("test_registry", Dir [
          ("bazel_registry.json",
           regular (json_text (JObj [("module_base_path", JStr "modules")])));
          ("modules", Dir [
             ("testmod", Dir [("1.0.0", Dir version_entries);
                              ("metadata.json", regular "{}")]);
             ("README.md", regular "notes")])])])].

Definition offline : string -> result bytes :=
  fun _ => inl (URLError "<urlopen error offline>").

Definition test_world (version_entries : list (string * node)) : world :=
  World (test_tree version_entries) [] offline.

Definition test_client : client := Client ["tmp"; "test_registry"].

Definition test_source : json :=
  JObj [("url", JStr "file:///dev/null");
        ("integrity", JStr "old-invalid-hash");
        ("strip_prefix", JStr "testmod-1.0.0")].

Definition test_overlay : node :=
  Dir [("BUILD.bazel", regular ("# Test BUILD file" +++ String Json.newline ""));
       ("MODULE.bazel", regular "module(name = 'testmod', version = '1.0.0')")].

Definition test_patches : node :=
  Dir [("test.patch", regular "--- a/test.txt")].

Definition test_entries : list (string * node) :=
  [("source.json", regular (json_text test_source));
   ("overlay", test_overlay);
   ("patches", test_patches)].

(** ** Vocabulary of the specification *)

Fixpoint distinct (l : list string) : bool :=
  match l with
  | [] => true
  | x :: r => negb (existsb (String.eqb x) r) && distinct r
  end.

(** The records the JSON instance reads back as they are: no [float], and
    distinct keys in every dictionary. *)
Fixpoint json_ok (v : json) : bool :=
  match v with
  | JFloat _ => false
  | JArr l => forallb json_ok l
  | JObj fs =>
      distinct (map fst fs) && forallb (fun kv => let '(_, y) := kv in json_ok y) fs
  | _ => true
  end.

(** The tokens of the text of a value. *)
Fixpoint toks (v : json) : list Json.token :=
  match v with
  | JStr s => [Json.TString s]
  | JArr [] => [Json.TLBrack; Json.TRBrack]
  | JArr (x :: xs) =>
      Json.TLBrack :: toks x ++
      flat_map (fun y => Json.TComma :: toks y) xs ++ [Json.TRBrack]
  | JObj [] => [Json.TLBrace; Json.TRBrace]
  | JObj ((k, x) :: fs) =>
      Json.TLBrace :: Json.TString k :: Json.TColon :: toks x ++
      flat_map (fun kv => let '(k', y) := kv in
                          Json.TComma :: Json.TString k' :: Json.TColon :: toks y) fs ++
      [Json.TRBrace]
  | _ => [Json.TLit v]
  end.

(** A token that stands for a value stands for one of those. *)
Definition tok_good (t : Json.token) : Prop :=
  match t with
  | Json.TLit v => json_ok v = true
  | _ => True
  end.

Definition values_ok (l : list (string * json)) : Prop :=
  Forall (fun kv => json_ok (snd kv) = true) l.

(** The character is none that continues a number or a keyword. *)
Definition ends_word (rest : string) : Prop :=
  exists c r, rest = String c r /\ Json.is_word c = false.

Fixpoint all_word (s : string) : bool :=
  match s with
  | EmptyString => true
  | String c r => Json.is_word c && all_word r
  end.

(** The fields [update_integrity] reconciles. *)
Definition reconciled (k : string) : bool :=
  String.eqb k "integrity" || String.eqb k "patches" || String.eqb k "overlay".

(** The other fields of a record, in order. *)
Definition other_fields (d : dict) : dict :=
  filter (fun kv => negb (reconciled (fst kv))) d.

(** The digest string [update_integrity] records for [data]. *)
Definition sri (hashlib : string -> bytes -> bytes) (data : bytes) : string :=
  "sha256-" +++ b64encode (hashlib "sha256" data).

Definition node_data (n : node) : bytes :=
  match n with File _ _ data => data | Dir _ => "" end.

(** The Patch Set: the regular files that are entries of the directory. *)
Definition patch_entries (w : world) (patches_dir : Path) : list (string * node) :=
  match stat (fs w) patches_dir with
  | Some (Dir es) => filter (fun e => is_file (snd e)) es
  | _ => []
  end.

(** The Overlay Set: the regular files below the directory, by relative
    path, without those named as the lock file. *)
Definition overlay_entries (w : world) (overlay_dir : Path) : list (string * node) :=
  match stat (fs w) overlay_dir with
  | Some n => map (fun e => (rel_str (fst e), snd e)) (filter overlay_file (rglob n []))
  | None => []
  end.

(** The mapping from each file to its digest, built as the loops build it. *)
Definition digests (hashlib : string -> bytes -> bytes)
           (files : list (string * node)) (acc : dict) : dict :=
  fold_left (fun a e => dict_set (fst e) (JStr (sri hashlib (node_data (snd e)))) a)
            files acc.

(** A field replaced by the digests of [files], or removed when there are
    none. *)
Definition reconcile_field (hashlib : string -> bytes -> bytes) (k : string)
           (files : list (string * node)) (d : dict) : dict :=
  match files with
  | [] => dict_pop k d
  | _ :: _ => dict_set k (JObj (digests hashlib files [])) d
  end.

(** [walk n p m]: the path [p] leads from [n] to [m]. *)
Inductive walk : node -> Path -> node -> Prop :=
| walk_here n : walk n [] n
| walk_down es c k p m : In (c, k) es -> walk k p m -> walk (Dir es) (c :: p) m.

(** A regular file with content [data] is an entry [name] of the Patch Set
    directory. *)
Definition patch_present (w : world) (patches_dir : Path)
           (name : string) (data : bytes) : Prop :=
  exists es r wr, stat (fs w) patches_dir = Some (Dir es) /\
                  In (name, File r wr data) es.

(** A regular file with content [data] lies at the relative path [rel] of the
    Overlay Set directory and is not named as the lock file. *)
Definition overlay_present (w : world) (overlay_dir : Path)
           (rel : Path) (data : bytes) : Prop :=
  exists n r wr, stat (fs w) overlay_dir = Some n /\ rel <> [] /\
                 walk n rel (File r wr data) /\ last rel "" <> excluded_lock.

Definition valid_name (s : string) : bool :=
  negb (String.eqb s "") && negb (str_contains "/" s).

(** Names in a directory are distinct, non-empty and hold no separator. *)
Fixpoint wf_node (n : node) : bool :=
  match n with
  | File _ _ _ => true
  | Dir es =>
      distinct (map fst es) && forallb (fun e => valid_name (fst e)) es &&
      (fix all (l : list (string * node)) : bool :=
         match l with
         | [] => true
         | (_, m) :: l' => wf_node m && all l'
         end) es
  end.

(** The tree without the content and the permissions of its files. *)
Fixpoint shape (n : node) : node :=
  match n with
  | File _ _ _ => File false false ""
  | Dir es =>
      Dir ((fix each (l : list (string * node)) : list (string * node) :=
              match l with
              | [] => []
              | (c, m) :: l' => (c, shape m) :: each l'
              end) es)
  end.

Definition shape_entries (es : list (string * node)) : list (string * node) :=
  map (fun e => (fst e, shape (snd e))) es.

(** The text [json_dump] writes for a record. *)
Definition record_text (json_dumps : json -> bool -> string) (s : json) : bytes :=
  json_dumps s false +++ String "010"%char "".

(** A record with an [integrity] field and no [url], beside the overlay and
    the patches of the test registry. *)
Definition no_url_source : json :=
  JObj [("integrity", JStr "old-invalid-hash");
        ("strip_prefix", JStr "testmod-1.0.0")].

Definition no_url_entries : list (string * node) :=
  [("source.json", regular (json_text no_url_source));
   ("overlay", test_overlay);
   ("patches", test_patches)].

(** The test registry with a patch the process may not read. *)
Definition unreadable_entries : list (string * node) :=
  [("source.json", regular (json_text test_source));
   ("overlay", test_overlay);
   ("patches", Dir [("test.patch", regular "--- a/test.txt");
                    ("secret.patch", File false true "--- a/secret.txt")])].

(** The bytes at the start of [r] are a separator, or [r] is empty. *)
Definition at_separator (r : string) : Prop :=
  r = "" \/ exists r', r = String "/" r'.

Fixpoint no_slash (s : string) : Prop :=
  match s with
  | EmptyString => True
  | String c r => c <> "/"%char /\ no_slash r
  end.

(** [field] is the reconciliation of the files that [present] describes, by
    key and content: every file has its digest under its key, the mapping
    has no other key and is not empty, and there is no field when there is no
    file. *)
Definition reconciles (hashlib : string -> bytes -> bytes)
           (present : string -> bytes -> Prop) (field : option json) : Prop :=
  (forall key data, present key data ->
     exists pm, field = Some (JObj pm) /\
                dict_get key pm = Some (JStr (sri hashlib data))) /\
  (forall x, field = Some x ->
     exists pm, x = JObj pm /\ pm <> [] /\
                forall key, In key (dict_keys pm) -> exists data, present key data) /\
  ((forall key data, ~ present key data) -> field = None).

(** The key under which the program records an overlay file. *)
Definition overlay_key_present (w : world) (overlay_dir : Path)
           (key : string) (data : bytes) : Prop :=
  exists rel, key = rel_str rel /\ overlay_present w overlay_dir rel data.

(** The test registry with a nested overlay that holds lock files, and a
    Patch Set with a subdirectory whose file the process may not read. *)
Definition nested_entries : list (string * node) :=
  [("source.json", regular (json_text test_source));
   ("overlay", Dir [("BUILD.bazel", regular "# Test BUILD file");
                    ("MODULE.bazel.lock", regular "{}");
                    ("src", Dir [("lib.bzl", regular "def lib(): pass");
                                 ("MODULE.bazel.lock", regular "{}")])]);
   ("patches", Dir [("test.patch", regular "--- a/test.txt");
                    ("old", Dir [("secret.patch", File false true "--- a/s.txt")])])].

(** The test registry with nothing but lock files in the overlay and nothing
    but a subdirectory in the Patch Set, and a record that has both fields. *)
Definition lock_only_overlay : node :=
  Dir [("MODULE.bazel.lock", regular "{}");
       ("src", Dir [("MODULE.bazel.lock", regular "{}")])].

Definition lock_only_entries : list (string * node) :=
  [("source.json",
    regular (json_text (JObj [("url", JStr "file:///dev/null");
                              ("overlay", JObj [("BUILD.bazel", JStr "sha256-old")]);
                              ("patches", JObj [("gone.patch", JStr "sha256-old")])])));
   ("overlay", lock_only_overlay);
   ("patches", Dir [("old", Dir [("gone.patch", regular "--- a/gone.txt")])])].

Definition test_modules : Path := ["tmp"; "test_registry"; "modules"].

(** The field of a record is a mapping, or the record has no such field. *)
Definition mapping_or_absent (field : option json) : Prop :=
  field = None \/ exists pm, field = Some (JObj pm).

Definition readable (e : string * node) : Prop :=
  read_node (snd e) = inr (node_data (snd e)).

(** The bytes in a digest of each accepted function. *)
Definition digest_size (algorithm : string) : nat :=
  if String.eqb algorithm "sha224" then 28
  else if String.eqb algorithm "sha256" then 32
  else if String.eqb algorithm "sha384" then 48
  else 64.

(** Every item of the list is at most its last one, in the order of
    [str]. *)
Definition last_is_greatest (l : list string) : Prop :=
  forall y, In y l -> String.leb y (last l "") = true.

(** The components of a path that its string gives back: names without
    separator, none of them [.]. *)
Definition plain_path (p : Path) : bool :=
  forallb (fun c => valid_name c && negb (String.eqb c ".")) p.

(** Every directory of [t] is a directory of [t'] that has its entries. *)
Definition grows (t t' : node) : Prop :=
  forall q es, fs_get t q = Some (Dir es) ->
    exists es', fs_get t' q = Some (Dir es') /\
                forall c m, assoc c es = Some m -> exists m', assoc c es' = Some m'.

(** The two records have the same ones of the fields a run reconciles. *)
Definition same_fields (d d0 : dict) : bool :=
  forallb (fun k => Bool.eqb (dict_has k d) (dict_has k d0))
          ["integrity"; "patches"; "overlay"].

(** The result is a raised [URLError]. *)
Definition is_url_error {A : Type} (r : result A) : bool :=
  match r with
  | inl (URLError _) => true
  | _ => false
  end.

(** [main] ended at "version not found". *)
Definition is_version_not_found (o : outcome) : bool :=
  match o with
  | VersionNotFound _ _ => true
  | _ => false
  end.

(** The place of a character in the base64 alphabet. *)
Definition b64_index (c : ascii) : option N :=
  let n := N_of_ascii c in
  (if (65 <=? n) && (n <=? 90) then Some (n - 65)
   else if (97 <=? n) && (n <=? 122) then Some (n - 71)
   else if (48 <=? n) && (n <=? 57) then Some (n + 4)
   else if n =? 43 then Some 62
   else if n =? 47 then Some 63
   else None)%N.

(** [base64.b64decode] on padded text: four characters give three bytes,
    fewer where the last group ends in [=]. *)
Fixpoint b64decode (s : string) : option bytes :=
  match s with
  | EmptyString => Some ""
  | String c3 (String c2 (String c1 (String c0 rest))) =>
      match b64_index c3, b64_index c2 with
      | Some s3, Some s2 =>
          let b1 := ascii_of_N (s3 * 4 + s2 / 16) in
          if Ascii.eqb c1 "=" then
            match Ascii.eqb c0 "=", rest with
            | true, EmptyString => Some (String b1 "")
            | _, _ => None
            end
          else
            match b64_index c1 with
            | Some s1 =>
                let b2 := ascii_of_N ((s2 mod 16) * 16 + s1 / 4) in
                if Ascii.eqb c0 "=" then
                  match rest with
                  | EmptyString => Some (String b1 (String b2 ""))
                  | _ => None
                  end
                else
                  match b64_index c0, b64decode rest with
                  | Some s0, Some r =>
                      let b3 := ascii_of_N ((s1 mod 4) * 64 + s0) in
                      Some (String b1 (String b2 (String b3 r)))
                  | _, _ => None
                  end
            | None => None
            end
      | _, _ => None
      end
  | _ => None
  end.

(** The algorithm and the digest an SRI string stands for. *)
Definition sri_decode (s : string) : option (string * bytes) :=
  (fix decode_with (algorithms : list string) : option (string * bytes) :=
     match algorithms with
     | [] => None
     | a :: r =>
         match remove_prefix (a +++ "-") s with
         | Some body => option_map (pair a) (b64decode body)
         | None => decode_with r
         end
     end) sri_algorithms.

(** [main] on the instances, and the command line of the test registry. *)
Definition py_main := main Sha2.digest Json.loads Json.dumps.

Definition test_args : arguments := Args "testmod" None "/tmp/test_registry".

(** The test registry after a first run. *)
Definition updated_world : world :=
  snd (py_update_integrity test_client "testmod" "1.0.0" (test_world test_entries)).

(** The test registry with a record that has the three fields of a run, out
    of date and in an order of their own. *)
Definition stale_source : dict :=
  [("patches", JObj [("gone.patch", JStr "sha256-old")]);
   ("url", JStr "file:///dev/null");
   ("overlay", JObj [("BUILD.bazel", JStr "sha256-old")]);
   ("strip_prefix", JStr "testmod-1.0.0");
   ("integrity", JStr "old-invalid-hash")].

Definition stale_entries : list (string * node) :=
  [("source.json", regular (json_text (JObj stale_source)));
   ("overlay", test_overlay);
   ("patches", test_patches)].

Definition record_of (r : result (Path * json)) : dict :=
  match r with
  | inr (_, JObj d) => d
  | _ => []
  end.

(** A registry whose configuration names no modules directory, with a
    module of three versions. *)
Definition plain_world : world :=
  World (Dir [("reg", Dir [
           ("bazel_registry.json", regular "{}");
           ("modules", Dir [
              ("lib", Dir [("1.10.0", Dir [("source.json", regular "{}")]);
                           ("1.9.0", Dir [("source.json", regular "{}")]);
                           ("1.2.0", Dir [("source.json", regular "{}")])])])])])
        [] offline.

Definition plain_args : arguments := Args "lib" None "/reg".

(** * Properties *)

(** ** The digest engine *)

Lemma b64_char_ok (n : N) : (n < 64)%N -> is_b64 (b64_char n) = true.
Proof.
  intros Hn.
  assert (H : forallb (fun k => is_b64 (b64_char (N.of_nat k))) (seq 0 64) = true)
    by (vm_compute; reflexivity).
  rewrite forallb_forall in H.
  specialize (H (N.to_nat n)).
  rewrite N2Nat.id in H. apply H.
  apply in_seq. lia.
Qed.

Lemma sextet_ok (w shift : N) : is_b64 (sextet w shift) = true.
Proof.
  unfold sextet. apply b64_char_ok.
  change 63%N with (N.ones 6). rewrite N.land_ones.
  apply N.mod_lt. discriminate.
Qed.

Lemma all_pad_tail (s : string) : all_pad s = true -> b64_tail s = true.
Proof.
  destruct s as [|c r]; [reflexivity|].
  simpl. intros H. destruct (is_b64 c) eqn:E; [|exact H].
  apply andb_true_iff in H. destruct H as [Hc _].
  apply Ascii.eqb_eq in Hc. subst c. discriminate E.
Qed.

(** The encoding of [s] is characters of the alphabet, then padding. *)
Lemma b64encode_tail (n : nat) :
  forall s, String.length s <= n -> b64_tail (b64encode s) = true.
Proof.
  induction n as [|n IH]; intros s Hs.
  - destruct s; [reflexivity | simpl in Hs; lia].
  - destruct s as [|a [|b [|c rest]]]; cbn [b64encode]; try reflexivity.
    + cbn [b64_tail]. rewrite !sextet_ok. reflexivity.
    + cbn [b64_tail]. rewrite !sextet_ok. reflexivity.
    + cbn [b64_tail]. rewrite !sextet_ok. apply IH. simpl in Hs. lia.
Qed.

Lemma b64encode_text (s : bytes) : s <> "" -> b64_text (b64encode s) = true.
Proof.
  intros Hs. destruct s as [|a r]; [congruence|].
  pose proof (b64encode_tail (String.length (String a r)) (String a r) (le_n _)) as H.
  destruct r as [|b [|c rest]]; cbn [b64encode] in *; cbn [b64_text b64_tail] in *;
    rewrite ?sextet_ok in *; exact H.
Qed.

Lemma b64encode_length (n : nat) :
  forall s, String.length s <= n ->
            String.length (b64encode s) = 4 * ((String.length s + 2) / 3).
Proof.
  induction n as [|n IH]; intros s Hs.
  - destruct s; [reflexivity | simpl in Hs; lia].
  - destruct s as [|a [|b [|c rest]]]; try reflexivity.
    cbn [b64encode String.length]. rewrite IH by (simpl in Hs; lia).
    replace (S (S (S (String.length rest))) + 2) with (String.length rest + 2 + 1 * 3) by lia.
    rewrite Nat.div_add by discriminate. lia.
Qed.

Lemma sri_pattern_intro (alg body : string) :
  In alg sri_algorithms -> b64_text body = true ->
  sri_pattern (alg +++ "-" +++ body) = true.
Proof.
  intros Hin Hb. unfold sri_pattern, sri_algorithms in *.
  simpl in Hin.
  destruct Hin as [<-|[<-|[<-|[<-|[]]]]]; simpl; rewrite Hb; reflexivity.
Qed.

Lemma supported_iff (alg : string) :
  existsb (String.eqb alg) sri_algorithms = true <-> In alg sri_algorithms.
Proof.
  rewrite existsb_exists. split.
  - intros [x [Hx He]]. apply String.eqb_eq in He. subst. exact Hx.
  - intros H. exists alg. split; [exact H | apply String.eqb_refl].
Qed.

Lemma integrity_accepted (hashlib : string -> bytes -> bytes)
      (data : bytes) (algorithm : string) :
  In algorithm sri_algorithms ->
  hashlib algorithm data <> "" ->
  integrity hashlib data algorithm
    = inr (algorithm +++ "-" +++ b64encode (hashlib algorithm data)) /\
  sri_pattern (algorithm +++ "-" +++ b64encode (hashlib algorithm data)) = true.
Proof.
  intros Hin Hne. split.
  - unfold integrity. apply supported_iff in Hin. rewrite Hin. reflexivity.
  - apply sri_pattern_intro; [exact Hin | apply b64encode_text; exact Hne].
Qed.

(** C5.  For an accepted algorithm, [integrity] returns the algorithm name, a
    dash and the padded standard base64 text of the raw digest; the string
    matches [^(sha224|sha256|sha384|sha512)-[A-Za-z0-9+/]+=*$]; and the result
    is a function of the bytes and the algorithm alone.  The digest that
    [hashlib] returns is taken to be non-empty, as those of the four functions
    are. *)
Theorem integrity_format (hashlib : string -> bytes -> bytes)
        (data : bytes) (algorithm : string) :
  In algorithm sri_algorithms ->
  hashlib algorithm data <> "" ->
  exists out,
    integrity hashlib data algorithm = inr out /\
    out = algorithm +++ "-" +++ b64encode (hashlib algorithm data) /\
    sri_pattern out = true /\
    String.length (b64encode (hashlib algorithm data))
      = 4 * ((String.length (hashlib algorithm data) + 2) / 3) /\
    (forall r1 r2, integrity hashlib data algorithm = r1 ->
                   integrity hashlib data algorithm = r2 -> r1 = r2).
Proof.
  intros Hin Hne. destruct (integrity_accepted hashlib data algorithm Hin Hne) as [Hi Hp].
  eexists. split; [exact Hi|]. split; [reflexivity|]. split; [exact Hp|]. split.
  - apply (b64encode_length _ _ (le_n _)).
  - intros r1 r2 <- <-. reflexivity.
Qed.

Lemma integrity_format_witness :
  exists out,
    integrity Sha2.digest "abc" "sha256" = inr out /\
    out = "sha256" +++ "-" +++ b64encode (Sha2.digest "sha256" "abc") /\
    sri_pattern out = true /\
    String.length (b64encode (Sha2.digest "sha256" "abc"))
      = 4 * ((String.length (Sha2.digest "sha256" "abc") + 2) / 3) /\
    (forall r1 r2, integrity Sha2.digest "abc" "sha256" = r1 ->
                   integrity Sha2.digest "abc" "sha256" = r2 -> r1 = r2).
Proof.
  apply (integrity_format Sha2.digest "abc" "sha256").
  - simpl. auto.
  - vm_compute. discriminate.
Defined.

(** C7.  For an algorithm outside the accepted set, [integrity] raises the
    assertion error "Unsupported SRI algorithm", whatever the bytes and
    without consulting the digest function. *)
Theorem integrity_unsupported (hashlib : string -> bytes -> bytes)
        (data : bytes) (algorithm : string) :
  ~ In algorithm sri_algorithms ->
  integrity hashlib data algorithm = inl (AssertionError "Unsupported SRI algorithm") /\
  forall hashlib' data', integrity hashlib' data' algorithm = integrity hashlib data algorithm.
Proof.
  intros Hnot.
  assert (E : existsb (String.eqb algorithm) sri_algorithms = false).
  { destruct (existsb _ _) eqn:E; [|reflexivity].
    apply supported_iff in E. contradiction. }
  unfold integrity. rewrite E. split; [reflexivity | intros; reflexivity].
Qed.

Lemma integrity_unsupported_witness :
  integrity Sha2.digest "abc" "md5" = inl (AssertionError "Unsupported SRI algorithm") /\
  forall hashlib' data', integrity hashlib' data' "md5" = integrity Sha2.digest "abc" "md5".
Proof.
  apply (integrity_unsupported Sha2.digest "abc" "md5").
  simpl. intros [H|[H|[H|[H|[]]]]]; discriminate H.
Defined.

(** The test vectors of RFC 4648, section 10. *)
Example b64encode_rfc4648 :
  map b64encode [""; "f"; "fo"; "foo"; "foob"; "fooba"; "foobar"]
  = [""; "Zg=="; "Zm8="; "Zm9v"; "Zm9vYg=="; "Zm9vYmE="; "Zm9vYmFy"].
Proof. vm_compute. reflexivity. Qed.

(** The digests of the empty message and of "abc", as [hashlib] gives
    them. *)
Example integrity_known_answers :
  py_integrity "" "sha224" = inr "sha224-0UoCjCo6K8lHYQK7KII0xBWisB+CjqYqxbPkLw==" /\
  py_integrity "" "sha256" = inr "sha256-47DEQpj8HBSa+/TImW+5JCeuQeRkm5NMpJWZG3hSuFU=" /\
  py_integrity "" "sha384" =
    inr "sha384-OLBgp1GsljhM2TJ+sbHjaiH9txEUvgdDTAzHv2P24donTt6/529l+9Ua0vFImLlb" /\
  py_integrity "" "sha512" =
    inr ("sha512-z4PhNX7vuL3xVChQ1m2AB9Yg5AULVxXcg/SpIdNs6c5H0NE8XYXysP+DGNKHfuwvY7kx"
         +++ "vUdBeoGlODJ6+SfaPg==") /\
  py_integrity "abc" "sha224" = inr "sha224-Iwl9IjQF2CKGQqR3vaJVsyqtvOS9oLP342ydpw==" /\
  py_integrity "abc" "sha256" = inr "sha256-ungWv48Bz+pBQUDeXa4iI7ADYaOWF3qctBD/YfIAFa0=" /\
  py_integrity "abc" "sha384" =
    inr "sha384-ywB1P0WjXou1oD1pmsZQBycsMqsO3tFjGotgWkP/W+2AhgcroefMI1i67KE0yCWn" /\
  py_integrity "abc" "sha512" =
    inr ("sha512-3a81oZNherrMQXNJriBBMRLm+k6JqX6iCp7u5ktV05ohkpkqJ0/BqDa6PCOj/uu9RU1E"
         +++ "I2Q86A4qmslPpUyknw==").
Proof. repeat split; vm_compute; reflexivity. Qed.

(** *** The digests of the SHA-2 instance have their sizes *)

Lemma be_bytes_length (n : nat) :
  forall x, length (Sha2.be_bytes n x) = n.
Proof.
  induction n as [|n IH]; intros x; [reflexivity|].
  simpl. rewrite length_app, IH. simpl. lia.
Qed.

Lemma hash_length (P : Sha2.params) (iv : list N) (size : nat) (msg : list N) :
  size <= 8 * Sha2.wbytes P -> length (Sha2.hash P iv size msg) = size.
Proof.
  intros Hs. unfold Sha2.hash. apply firstn_length_le.
  unfold Sha2.state_bytes. cbn [flat_map].
  rewrite !length_app, !be_bytes_length. simpl. lia.
Qed.

Lemma of_bytes_length (l : list N) : String.length (Sha2.of_bytes l) = length l.
Proof.
  unfold Sha2.of_bytes. induction l as [|x l IH]; [reflexivity|].
  simpl. rewrite IH. reflexivity.
Qed.

Lemma digest_length (algorithm : string) (data : bytes) :
  In algorithm sri_algorithms ->
  String.length (Sha2.digest algorithm data) = digest_size algorithm.
Proof.
  intros Hin. simpl in Hin.
  destruct Hin as [<-|[<-|[<-|[<-|[]]]]];
    unfold Sha2.digest, digest_size; simpl String.eqb; cbv iota;
    unfold Sha2.sha224, Sha2.sha256, Sha2.sha384, Sha2.sha512;
    rewrite of_bytes_length; apply hash_length; simpl; lia.
Qed.

(** With the SHA-2 instance the pattern holds for all bytes. *)
Lemma py_integrity_pattern (data : bytes) (algorithm : string) :
  In algorithm sri_algorithms ->
  exists out, py_integrity data algorithm = inr out /\ sri_pattern out = true.
Proof.
  intros Hin. eexists. apply integrity_accepted; [exact Hin|].
  intros E. pose proof (digest_length algorithm data Hin) as Hl.
  rewrite E in Hl. simpl in Hin.
  destruct Hin as [<-|[<-|[<-|[<-|[]]]]]; discriminate Hl.
Qed.

(** ** Reading operations and dictionaries *)

Lemma bindR_inr {A B} (c : R A) (k : A -> R B) (w : world) (y : B) :
  bindR c k w = inr y -> exists x, c w = inr x /\ k x w = inr y.
Proof.
  unfold bindR. destruct (c w) as [e|x]; [discriminate|].
  intros H. exists x. split; [reflexivity | exact H].
Qed.

Ltac inv_bind H :=
  let x := fresh "x" in
  let Hx := fresh "H" x in
  apply bindR_inr in H; destruct H as [x [Hx H]].

Lemma dict_get_set_same (k : string) (v : json) (d : dict) :
  dict_get k (dict_set k v d) = Some v.
Proof.
  induction d as [|[k' v'] r IH]; simpl.
  - rewrite String.eqb_refl. reflexivity.
  - destruct (String.eqb k k') eqn:E; simpl.
    + rewrite String.eqb_refl. reflexivity.
    + rewrite E. exact IH.
Qed.

Lemma dict_get_set_other (k k' : string) (v : json) (d : dict) :
  k <> k' -> dict_get k (dict_set k' v d) = dict_get k d.
Proof.
  intros Hne. induction d as [|[k0 v0] r IH]; simpl.
  - apply String.eqb_neq in Hne. rewrite Hne. reflexivity.
  - destruct (String.eqb k' k0) eqn:E; simpl.
    + apply String.eqb_eq in E. subst k0.
      apply String.eqb_neq in Hne. rewrite Hne. reflexivity.
    + rewrite IH. reflexivity.
Qed.

Lemma dict_get_pop_same (k : string) (d : dict) : dict_get k (dict_pop k d) = None.
Proof.
  unfold dict_pop. induction d as [|[k' v'] r IH]; simpl; [reflexivity|].
  destruct (String.eqb k k') eqn:E; simpl; [exact IH|].
  rewrite E. exact IH.
Qed.

Lemma dict_get_pop_other (k k' : string) (d : dict) :
  k <> k' -> dict_get k (dict_pop k' d) = dict_get k d.
Proof.
  intros Hne. unfold dict_pop. induction d as [|[k0 v0] r IH]; simpl; [reflexivity|].
  destruct (String.eqb k' k0) eqn:E; simpl.
  - apply String.eqb_eq in E. subst k0.
    apply String.eqb_neq in Hne. rewrite Hne. exact IH.
  - rewrite IH. reflexivity.
Qed.

Lemma dict_set_id (k : string) (v : json) (d : dict) :
  dict_get k d = Some v -> dict_set k v d = d.
Proof.
  induction d as [|[k' v'] r IH]; simpl; [discriminate|].
  destruct (String.eqb k k') eqn:E.
  - intros [= ->]. apply String.eqb_eq in E. subst. reflexivity.
  - intros H. rewrite IH by exact H. reflexivity.
Qed.

Lemma dict_pop_id (k : string) (d : dict) : dict_get k d = None -> dict_pop k d = d.
Proof.
  unfold dict_pop. induction d as [|[k' v'] r IH]; simpl; [reflexivity|].
  destruct (String.eqb k k') eqn:E; [discriminate|].
  intros H. simpl. rewrite IH by exact H. reflexivity.
Qed.

Lemma dict_keys_set (k k' : string) (v : json) (d : dict) :
  In k' (dict_keys (dict_set k v d)) <-> k' = k \/ In k' (dict_keys d).
Proof.
  unfold dict_keys. induction d as [|[k0 v0] r IH]; simpl.
  - intuition.
  - destruct (String.eqb k k0) eqn:E; simpl.
    + apply String.eqb_eq in E. subst k0. intuition.
    + rewrite IH. intuition.
Qed.

Lemma dict_get_keys (k : string) (d : dict) :
  In k (dict_keys d) <-> exists v, dict_get k d = Some v.
Proof.
  unfold dict_keys. induction d as [|[k0 v0] r IH]; simpl.
  - split; [intros [] | intros [v H]; discriminate].
  - destruct (String.eqb k k0) eqn:E.
    + apply String.eqb_eq in E. subst. split; [eauto | auto].
    + apply String.eqb_neq in E. rewrite <- IH. intuition congruence.
Qed.

Lemma other_fields_set (k : string) (v : json) (d : dict) :
  reconciled k = true -> other_fields (dict_set k v d) = other_fields d.
Proof.
  intros Hk. unfold other_fields. induction d as [|[k0 v0] r IH]; simpl.
  - rewrite Hk. reflexivity.
  - destruct (String.eqb k k0) eqn:E; simpl.
    + apply String.eqb_eq in E. subst k0. rewrite Hk. reflexivity.
    + rewrite IH. reflexivity.
Qed.

Lemma other_fields_pop (k : string) (d : dict) :
  reconciled k = true -> other_fields (dict_pop k d) = other_fields d.
Proof.
  intros Hk. unfold other_fields, dict_pop. induction d as [|[k0 v0] r IH]; simpl.
  - reflexivity.
  - destruct (String.eqb k k0) eqn:E; simpl.
    + apply String.eqb_eq in E. subst k0. rewrite Hk. simpl. exact IH.
    + rewrite IH. reflexivity.
Qed.

Lemma other_fields_get (k : string) (d : dict) :
  reconciled k = false -> dict_get k (other_fields d) = dict_get k d.
Proof.
  intros Hk. unfold other_fields. induction d as [|[k0 v0] r IH]; simpl; [reflexivity|].
  destruct (reconciled k0) eqn:E0; simpl.
  - destruct (String.eqb k k0) eqn:E; [|exact IH].
    apply String.eqb_eq in E. subst. congruence.
  - rewrite IH. reflexivity.
Qed.

(** ** The steps of [update_integrity] *)

Section Steps.

Variable hashlib : string -> bytes -> bytes.
Variable json_loads : bytes -> result json.

Lemma integrity_sha256 (data : bytes) :
  integrity hashlib data "sha256" = inr (sri hashlib data).
Proof. reflexivity. Qed.

Lemma notice_dict (d : dict) (name : string) : notice (JObj d) name = inr tt.
Proof.
  unfold notice. simpl. unfold dict_has.
  destruct (dict_get name d); reflexivity.
Qed.

Lemma read_node_data (n : node) (data : bytes) :
  read_node n = inr data -> node_data n = data /\ is_file n = true.
Proof.
  destruct n as [[|] wr d|es]; simpl; intros H; try discriminate.
  injection H as ->. auto.
Qed.

(** A digesting loop that succeeds has read every file and returns the
    mapping of their digests. *)
Lemma digest_files_ok (cur : result json) (files : list (string * node)) :
  forall (acc : dict) (w : world) (pm : dict),
    digest_files hashlib cur files acc w = inr pm ->
    pm = digests hashlib files acc /\
    Forall (fun e => read_node (snd e) = inr (node_data (snd e))) files.
Proof.
  induction files as [|[name n] rest IH]; intros acc w pm H.
  - simpl in H. injection H as <-. split; [reflexivity | constructor].
  - cbn [digest_files] in H. unfold read_file in H.
    inv_bind H. inv_bind H. inv_bind H. inv_bind H.
    unfold lift in *.
    rewrite integrity_sha256 in Hx0. injection Hx0 as <-.
    destruct (read_node_data _ _ Hx) as [Hd _].
    apply IH in H. destruct H as [-> HF].
    split.
    + unfold digests. simpl. rewrite Hd. reflexivity.
    + constructor; [simpl; rewrite Hd; exact Hx | exact HF].
Qed.

(** With a dictionary as the current mapping, the loop fails only on a file
    it cannot read. *)
Lemma digest_files_run (x : dict) (files : list (string * node)) :
  forall (acc : dict) (w : world),
    Forall (fun e => read_node (snd e) = inr (node_data (snd e))) files ->
    digest_files hashlib (inr (JObj x)) files acc w = inr (digests hashlib files acc).
Proof.
  induction files as [|[name n] rest IH]; intros acc w HF.
  - reflexivity.
  - inversion HF as [|e l Hn HF']; subst. simpl in Hn.
    cbn [digest_files]. unfold read_file, bindR, lift.
    rewrite Hn, integrity_sha256, notice_dict.
    apply IH. exact HF'.
Qed.

Lemma update_archive_ok (d : dict) (w : world) (s' : json) :
  update_archive hashlib (JObj d) w = inr s' ->
  (dict_get "url" d = None /\ s' = JObj d) \/
  (exists url data, dict_get "url" d = Some url /\ download url w = inr data /\
                    s' = JObj (dict_set "integrity" (JStr (sri hashlib data)) d)).
Proof.
  unfold update_archive, bindR, lift, retR. simpl. unfold dict_has.
  destruct (dict_get "url" d) as [url|] eqn:Hu.
  - destruct (download url w) as [e|data] eqn:Hd; [discriminate|].
    intros [= <-]. right. exists url, data. auto.
  - intros [= <-]. left. auto.
Qed.

Lemma py_get_dict (d : dict) (k : string) (default : json) :
  py_get (JObj d) k default =
  inr (match dict_get k d with Some x => x | None => default end).
Proof. simpl. destruct (dict_get k d); reflexivity. Qed.

Lemma update_patches_ok (patches_dir : Path) (source : json) (w : world) (s' : json) :
  update_patches hashlib patches_dir source w = inr s' ->
  exists d, source = JObj d /\
            s' = JObj (reconcile_field hashlib "patches" (patch_entries w patches_dir) d).
Proof.
  unfold update_patches, patch_entries, bindR, path_exists, iterdir, lift.
  cbv beta.
  destruct (stat (fs w) patches_dir) as [[r wr data|es]|] eqn:Hs;
    cbv beta iota; rewrite ?Hs.
  - destruct source as [| | | | | |d]; try (simpl; discriminate).
    rewrite py_get_dict. discriminate.
  - destruct source as [| | | | | |d]; try (simpl; discriminate).
    rewrite py_get_dict.
    intros H. exists d. split; [reflexivity|].
    destruct (filter (fun e => is_file (snd e)) es) as [|f fs'] eqn:Hf.
    + simpl in H. injection H as <-. reflexivity.
    + destruct (digest_files hashlib _ (f :: fs') [] w) as [e|pm] eqn:Hd; [discriminate|].
      apply digest_files_ok in Hd. destruct Hd as [-> _].
      simpl in H. injection H as <-. reflexivity.
  - destruct source as [| | | | | |d]; simpl; try discriminate.
    intros [= <-]. exists d. auto.
Qed.

Lemma update_overlay_ok (overlay_dir : Path) (source : json) (w : world) (s' : json) :
  update_overlay hashlib overlay_dir source w = inr s' ->
  exists d, source = JObj d /\
            s' = JObj (reconcile_field hashlib "overlay" (overlay_entries w overlay_dir) d).
Proof.
  unfold update_overlay, overlay_entries, bindR, path_exists, rglob_all, lift.
  cbv beta.
  destruct (stat (fs w) overlay_dir) as [n|] eqn:Hs;
    cbv beta iota; rewrite ?Hs.
  - destruct (map _ (filter overlay_file (rglob n []))) as [|f fs'] eqn:Hf.
    + destruct source as [| | | | | |d]; simpl; try discriminate.
      intros [= <-]. exists d. auto.
    + destruct (digest_files hashlib _ (f :: fs') [] w) as [e|pm] eqn:Hd; [discriminate|].
      destruct source as [| | | | | |d]; simpl; try discriminate.
      intros [= <-]. exists d. split; [reflexivity|].
      apply digest_files_ok in Hd. destruct Hd as [-> _]. reflexivity.
  - destruct source as [| | | | | |d]; simpl; try discriminate.
    intros [= <-]. exists d. auto.
Qed.

Lemma update_archive_dict (source : json) (w : world) (d1 : dict) :
  update_archive hashlib source w = inr (JObj d1) -> exists d0, source = JObj d0.
Proof.
  unfold update_archive, bindR, lift, retR.
  destruct source as [| | | |s|l|d]; simpl; try discriminate.
  - destruct (str_contains "url" s); discriminate.
  - destruct (existsb (is_str "url") l); discriminate.
  - eauto.
Qed.

Lemma get_source_json_path_ok (self : client) (m v : string) (w : world) (sp : Path) :
  get_source_json_path json_loads self m v w = inr sp ->
  exists mods, get_modules_dir json_loads self w = inr mods /\
               sp = joinpath (version_dir mods m v) "source.json".
Proof.
  unfold get_source_json_path. intros H. inv_bind H.
  injection H as <-. eauto.
Qed.

Lemma get_patches_dir_ok (self : client) (m v : string) (w : world) (p : Path) :
  get_patches_dir json_loads self m v w = inr p ->
  exists mods, get_modules_dir json_loads self w = inr mods /\
               p = joinpath (version_dir mods m v) "patches".
Proof.
  unfold get_patches_dir. intros H. inv_bind H.
  injection H as <-. eauto.
Qed.

Lemma get_overlay_dir_ok (self : client) (m v : string) (w : world) (p : Path) :
  get_overlay_dir json_loads self m v w = inr p ->
  exists mods, get_modules_dir json_loads self w = inr mods /\
               p = joinpath (version_dir mods m v) "overlay".
Proof.
  unfold get_overlay_dir. intros H. inv_bind H.
  injection H as <-. eauto.
Qed.

(** What a successful run has computed before it writes. *)
Lemma updated_source_ok (self : client) (m v : string) (w : world)
      (sp : Path) (s : json) :
  updated_source hashlib json_loads self m v w = inr (sp, s) ->
  exists mods d0 d1,
    get_modules_dir json_loads self w = inr mods /\
    module_exists json_loads self m (Some v) w = inr true /\
    sp = joinpath (version_dir mods m v) "source.json" /\
    get_source json_loads self m v w = inr (JObj d0) /\
    update_archive hashlib (JObj d0) w = inr (JObj d1) /\
    s = JObj (reconcile_field hashlib "overlay"
                (overlay_entries w (joinpath (version_dir mods m v) "overlay"))
                (reconcile_field hashlib "patches"
                   (patch_entries w (joinpath (version_dir mods m v) "patches")) d1)).
Proof.
  unfold updated_source. intros H.
  inv_bind H. destruct x as [|]; [|discriminate]. simpl in H.
  inv_bind H. inv_bind H. inv_bind H. inv_bind H. inv_bind H. inv_bind H. inv_bind H.
  injection H as <- <-.
  apply get_source_json_path_ok in Hx1. destruct Hx1 as [mods [Hm ->]].
  apply get_patches_dir_ok in Hx3. destruct Hx3 as [mods' [Hm' ->]].
  apply get_overlay_dir_ok in Hx5. destruct Hx5 as [mods'' [Hm'' ->]].
  rewrite Hm in Hm', Hm''. injection Hm' as <-. injection Hm'' as <-.
  apply update_overlay_ok in Hx6. destruct Hx6 as [d2 [-> ->]].
  apply update_patches_ok in Hx4. destruct Hx4 as [d1 [-> Hd2]].
  injection Hd2 as ->.
  destruct (update_archive_dict _ _ _ Hx2) as [d0 ->].
  exists mods, d0, d1. repeat split; assumption.
Qed.

End Steps.

(** ** The file system *)

Lemma shape_dir (es : list (string * node)) : shape (Dir es) = Dir (shape_entries es).
Proof.
  simpl. f_equal. unfold shape_entries.
  induction es as [|[c m] l IH]; simpl; [reflexivity|]. rewrite IH. reflexivity.
Qed.

Lemma assoc_shape (c : string) (es : list (string * node)) :
  assoc c (shape_entries es) = option_map shape (assoc c es).
Proof.
  unfold shape_entries. induction es as [|[c' m] l IH]; simpl; [reflexivity|].
  destruct (String.eqb c c'); [reflexivity | exact IH].
Qed.

Lemma fs_get_shape (q : Path) :
  forall t, fs_get (shape t) q = option_map shape (fs_get t q).
Proof.
  induction q as [|c q IH]; intros t; [reflexivity|].
  destruct t as [r wr d|es]; [reflexivity|].
  rewrite shape_dir. simpl. rewrite assoc_shape.
  destruct (assoc c es) as [m|]; simpl; [apply IH | reflexivity].
Qed.

Lemma enter_shape (t : node) (cur : option Path) (c : string) :
  enter (shape t) cur c = enter t cur c.
Proof.
  unfold enter. destruct cur as [q|]; [|reflexivity].
  rewrite fs_get_shape.
  destruct (fs_get t q) as [[r wr d|es]|]; cbn [option_map]; try reflexivity.
  rewrite shape_dir. rewrite assoc_shape.
  destruct (assoc c es); reflexivity.
Qed.

Lemma realpath_shape (t : node) (p : Path) : realpath (shape t) p = realpath t p.
Proof.
  unfold realpath. generalize (Some (@nil string)).
  induction p as [|c p IH]; intros cur; simpl; [reflexivity|].
  rewrite enter_shape. apply IH.
Qed.

(** Path resolution and the existence of a node depend on the shape of the
    tree only. *)
Lemma realpath_same_shape (t t' : node) (p : Path) :
  shape t' = shape t -> realpath t' p = realpath t p.
Proof.
  intros H. rewrite <- (realpath_shape t'), <- (realpath_shape t), H. reflexivity.
Qed.

Lemma stat_exists_same_shape (t t' : node) (p : Path) :
  shape t' = shape t ->
  match stat t' p with Some _ => true | None => false end =
  match stat t p with Some _ => true | None => false end.
Proof.
  intros H. unfold stat. rewrite (realpath_same_shape t t' p H).
  destruct (realpath t p) as [q|]; [|reflexivity].
  assert (E : option_map shape (fs_get t' q) = option_map shape (fs_get t q))
    by (rewrite <- !fs_get_shape, H; reflexivity).
  destruct (fs_get t' q), (fs_get t q); simpl in E; congruence.
Qed.

Lemma assoc_put_same (c : string) (n : node) (es : list (string * node)) :
  assoc c (put_entry c n es) = Some n.
Proof.
  induction es as [|[c' m] l IH]; simpl.
  - rewrite String.eqb_refl. reflexivity.
  - destruct (String.eqb c c') eqn:E; simpl.
    + rewrite String.eqb_refl. reflexivity.
    + rewrite E. exact IH.
Qed.

Lemma assoc_put_other (c c' : string) (n : node) (es : list (string * node)) :
  c' <> c -> assoc c' (put_entry c n es) = assoc c' es.
Proof.
  intros Hne. induction es as [|[c0 m] l IH]; simpl.
  - apply String.eqb_neq in Hne. rewrite Hne. reflexivity.
  - destruct (String.eqb c c0) eqn:E; simpl.
    + apply String.eqb_eq in E. subst c0.
      apply String.eqb_neq in Hne. rewrite Hne. reflexivity.
    + rewrite IH. reflexivity.
Qed.

Lemma put_entry_id (c : string) (m : node) (es : list (string * node)) :
  assoc c es = Some m -> put_entry c m es = es.
Proof.
  induction es as [|[c' m'] l IH]; simpl; [discriminate|].
  destruct (String.eqb c c') eqn:E.
  - intros [= ->]. apply String.eqb_eq in E. subst. reflexivity.
  - intros H. rewrite IH by exact H. reflexivity.
Qed.

Lemma shape_put_entry (c : string) (m m' : node) (es : list (string * node)) :
  assoc c es = Some m -> shape m' = shape m ->
  shape_entries (put_entry c m' es) = shape_entries es.
Proof.
  unfold shape_entries. intros Ha Hs.
  induction es as [|[c' n] l IH]; simpl in *; [discriminate|].
  destruct (String.eqb c c') eqn:E; simpl.
  - injection Ha as ->. apply String.eqb_eq in E. subst. rewrite Hs. reflexivity.
  - rewrite IH by exact Ha. reflexivity.
Qed.

Lemma fs_put_found (c : string) (q : Path) (new m : node) (es : list (string * node)) :
  assoc c es = Some m ->
  fs_put (c :: q) new (Dir es) = Dir (put_entry c (fs_put q new m) es).
Proof. intros H. simpl. rewrite H. destruct q; reflexivity. Qed.

(** Replacing a file by a file keeps the shape of the tree. *)
Lemma shape_put_file (q : Path) (r wr r' wr' : bool) (d d' : bytes) :
  forall t, fs_get t q = Some (File r wr d) ->
            shape (fs_put q (File r' wr' d') t) = shape t.
Proof.
  induction q as [|c q IH]; intros t H.
  - simpl in *. injection H as ->. reflexivity.
  - destruct t as [r0 w0 d0|es]; [discriminate|].
    simpl in H. destruct (assoc c es) as [m|] eqn:Ha; [|discriminate].
    rewrite (fs_put_found _ _ _ _ _ Ha), !shape_dir. f_equal.
    apply (shape_put_entry _ m); [exact Ha | apply IH; exact H].
Qed.

Lemma fs_get_put_same (q : Path) (new : node) :
  forall t old, fs_get t q = Some old -> fs_get (fs_put q new t) q = Some new.
Proof.
  induction q as [|c q IH]; intros t old H; [reflexivity|].
  destruct t as [r0 w0 d0|es]; [discriminate|].
  simpl in H. destruct (assoc c es) as [m|] eqn:Ha; [|discriminate].
  rewrite (fs_put_found _ _ _ _ _ Ha). simpl. rewrite assoc_put_same.
  apply (IH _ old). exact H.
Qed.

Lemma fs_put_id (q : Path) :
  forall t n, fs_get t q = Some n -> fs_put q n t = t.
Proof.
  induction q as [|c q IH]; intros t n H.
  - simpl in *. congruence.
  - destruct t as [r0 w0 d0|es]; [discriminate|].
    simpl in H. destruct (assoc c es) as [m|] eqn:Ha; [|discriminate].
    rewrite (fs_put_found _ _ _ _ _ Ha), (IH _ _ H), (put_entry_id _ _ _ Ha).
    reflexivity.
Qed.

(** Replacing the file at [q] leaves alone what lies at a path that [q] does
    not run through. *)
Lemma fs_get_put_apart (q : Path) (r wr : bool) (d : bytes) (new : node) :
  forall t q', fs_get t q = Some (File r wr d) ->
               is_file new = true ->
               (forall rest, q <> q' ++ rest) ->
               fs_get (fs_put q new t) q' = fs_get t q'.
Proof.
  induction q as [|c q IH]; intros t q' H Hnew Hq'.
  - simpl in H. injection H as ->. simpl.
    destruct q' as [|c' q']; [exfalso; apply (Hq' []); reflexivity|].
    destruct new; [reflexivity | discriminate].
  - destruct t as [r0 w0 d0|es]; [discriminate|].
    simpl in H. destruct (assoc c es) as [m|] eqn:Ha; [|discriminate].
    rewrite (fs_put_found _ _ _ _ _ Ha).
    destruct q' as [|c' q']; [exfalso; apply (Hq' (c :: q)); reflexivity|].
    simpl. destruct (String.eqb c' c) eqn:E.
    + apply String.eqb_eq in E. subst c'.
      rewrite assoc_put_same, Ha. apply IH; [exact H | exact Hnew |].
      intros rest Hr. apply (Hq' rest). simpl. rewrite Hr. reflexivity.
    + apply String.eqb_neq in E. rewrite assoc_put_other by exact E. reflexivity.
Qed.


Lemma realpath_snoc (t : node) (p : Path) (c : string) :
  realpath t (p ++ [c]) = enter t (realpath t p) c.
Proof. unfold realpath. rewrite fold_left_app. reflexivity. Qed.

Lemma realpath_child (t : node) (p q : Path) (c : string) :
  c <> ".." -> realpath t (p ++ [c]) = Some q ->
  exists qp, realpath t p = Some qp /\ q = qp ++ [c].
Proof.
  intros Hc. rewrite realpath_snoc. unfold enter.
  destruct (realpath t p) as [qp|]; [|discriminate].
  destruct (fs_get t qp) as [[r wr d|es]|]; try discriminate.
  apply String.eqb_neq in Hc. rewrite Hc.
  destruct (assoc c es); [|discriminate].
  intros [= <-]. eauto.
Qed.

Lemma snoc_apart (qp : Path) (c c' : string) (tail rest : Path) :
  c <> c' -> qp ++ [c] <> (qp ++ c' :: tail) ++ rest.
Proof.
  intros Hc H. rewrite <- app_assoc in H. apply app_inv_head in H.
  simpl in H. congruence.
Qed.

(** ** Writing the record *)

Section Writing.

Variable hashlib : string -> bytes -> bytes.
Variable json_loads : bytes -> result json.
Variable json_dumps : json -> bool -> string.

Lemma get_source_ok (self : client) (m v : string) (w : world) (s : json) :
  get_source json_loads self m v w = inr s ->
  exists sp wr text,
    get_source_json_path json_loads self m v w = inr sp /\
    stat (fs w) sp = Some (File true wr text) /\
    json_loads text = inr s.
Proof.
  unfold get_source. intros H. inv_bind H. inv_bind H.
  destruct x0; [|discriminate]. simpl in H. inv_bind H.
  unfold open_read in Hx1. unfold lift in H.
  destruct (stat (fs w) x) as [[[|] wr d|es]|] eqn:Hs; try discriminate.
  simpl in Hx1. injection Hx1 as <-.
  exists x, wr, d. auto.
Qed.

(** A run that fails leaves the world as it was. *)
Lemma open_write_failure (p : Path) (text : bytes) (w w' : world) (e : exn) :
  open_write p text w = (inl e, w') -> w' = w.
Proof.
  unfold open_write.
  destruct (realpath (fs w) p) as [q|].
  - destruct (fs_get (fs w) q) as [[r [|] d|es]|]; intros [= _ <-]; reflexivity.
  - destruct (realpath (fs w) (removelast p)) as [q|].
    + destruct (fs_get (fs w) q) as [[r wr d|es]|]; intros [= _ <-]; reflexivity.
    + intros [= _ <-]. reflexivity.
Qed.

(** What a successful run has done: it computed a record from the one on
    disk and replaced the text of the record file by the text of the new
    one. *)
Lemma update_integrity_ok (self : client) (m v : string) (w w' : world) :
  update_integrity hashlib json_loads json_dumps self m v w = (inr tt, w') ->
  exists sp s q old,
    updated_source hashlib json_loads self m v w = inr (sp, s) /\
    realpath (fs w) sp = Some q /\
    fs_get (fs w) q = Some (File true true old) /\
    w' = World (fs_put q (File true true (record_text json_dumps s)) (fs w)) (cwd w) (net w).
Proof.
  unfold update_integrity, json_dump.
  destruct (updated_source hashlib json_loads self m v w) as [e|[sp s]] eqn:Hu;
    [discriminate|].
  intros Hw. exists sp, s.
  destruct (updated_source_ok _ _ _ _ _ _ _ _ Hu)
    as [mods [d0 [d1 [Hm [_ [Hsp [Hg _]]]]]]].
  destruct (get_source_ok _ _ _ _ _ Hg) as [sp' [wr [text [Hp [Hs _]]]]].
  destruct (get_source_json_path_ok _ _ _ _ _ _ Hp) as [mods' [Hm' Hsp']].
  rewrite Hm in Hm'. injection Hm' as <-. subst sp'. rewrite <- Hsp in Hs.
  unfold stat in Hs. unfold open_write in Hw.
  destruct (realpath (fs w) sp) as [q|]; [|discriminate].
  rewrite Hs in Hw. destruct wr; [|discriminate].
  injection Hw as <-. exists q, text. auto.
Qed.

(** After a successful run the record file holds the text of the new
    record. *)
Lemma update_integrity_reads_back (self : client) (m v : string) (w w' : world)
      (sp : Path) (s : json) :
  update_integrity hashlib json_loads json_dumps self m v w = (inr tt, w') ->
  updated_source hashlib json_loads self m v w = inr (sp, s) ->
  open_read sp w' = inr (record_text json_dumps s).
Proof.
  intros H Hu. apply update_integrity_ok in H.
  destruct H as [sp' [s' [q [old [Hu' [Hq [Hold ->]]]]]]].
  rewrite Hu in Hu'. injection Hu' as <- <-.
  unfold open_read, stat. simpl.
  rewrite (realpath_same_shape (fs w)) by (apply (shape_put_file _ _ _ _ _ _ _ _ Hold)).
  rewrite Hq, (fs_get_put_same _ _ _ _ Hold). reflexivity.
Qed.

End Writing.

(** ** The record a run writes *)

Section Record.

Variable hashlib : string -> bytes -> bytes.
Variable json_loads : bytes -> result json.
Variable json_dumps : json -> bool -> string.

Lemma reconcile_field_get_other (k k' : string) (files : list (string * node)) (d : dict) :
  k <> k' -> dict_get k (reconcile_field hashlib k' files d) = dict_get k d.
Proof.
  intros Hne. destruct files; simpl.
  - apply dict_get_pop_other. exact Hne.
  - apply dict_get_set_other. exact Hne.
Qed.

Lemma reconcile_field_others (k : string) (files : list (string * node)) (d : dict) :
  reconciled k = true -> other_fields (reconcile_field hashlib k files d) = other_fields d.
Proof.
  intros Hk. destruct files; simpl.
  - apply other_fields_pop. exact Hk.
  - apply other_fields_set. exact Hk.
Qed.

(** C3.  A run of [update_integrity] that fails, for whatever reason, has
    written nothing: the world after it is the world before it. *)
Theorem failure_writes_nothing (self : client) (m v : string) (w w' : world) (e : exn) :
  update_integrity hashlib json_loads json_dumps self m v w = (inl e, w') -> w' = w.
Proof.
  unfold update_integrity, json_dump.
  destruct (updated_source hashlib json_loads self m v w) as [e'|[sp s]].
  - intros [= _ <-]. reflexivity.
  - apply open_write_failure.
Qed.

(** The causes of failure the specification names do make the run fail. *)
Lemma update_integrity_not_found (self : client) (m v : string) (w : world) :
  module_exists json_loads self m (Some v) w = inr false ->
  update_integrity hashlib json_loads json_dumps self m v w =
  (inl (RuntimeError ("Module " +++ m +++ "@" +++ v +++ " not found")), w).
Proof.
  intros H. unfold update_integrity, updated_source, bindR. rewrite H. reflexivity.
Qed.

(** C4.  After a successful run the fields other than [integrity],
    [patches] and [overlay] are those of the record that was read, with the
    same values and in the same order, and the record file holds the text of
    the record that has them. *)
Theorem other_fields_survive (self : client) (m v : string) (w w' : world) :
  update_integrity hashlib json_loads json_dumps self m v w = (inr tt, w') ->
  exists sp d0 d,
    get_source json_loads self m v w = inr (JObj d0) /\
    updated_source hashlib json_loads self m v w = inr (sp, JObj d) /\
    open_read sp w' = inr (record_text json_dumps (JObj d)) /\
    other_fields d = other_fields d0 /\
    forall k, reconciled k = false -> dict_get k d = dict_get k d0.
Proof.
  intros H.
  destruct (update_integrity_ok _ _ _ _ _ _ _ _ H) as [sp [s [q [old [Hu _]]]]].
  pose proof (update_integrity_reads_back _ _ _ _ _ _ _ _ _ _ H Hu) as Hr.
  destruct (updated_source_ok _ _ _ _ _ _ _ _ Hu)
    as [mods [d0 [d1 [_ [_ [_ [Hg [Ha ->]]]]]]]].
  assert (Ho : other_fields d1 = other_fields d0).
  { apply update_archive_ok in Ha.
    destruct Ha as [[_ [= ->]]|[url [data [_ [_ [= ->]]]]]]; [reflexivity|].
    apply other_fields_set. reflexivity. }
  eexists sp, d0, _. split; [exact Hg|]. split; [exact Hu|]. split; [exact Hr|].
  assert (E : other_fields
                (reconcile_field hashlib "overlay"
                   (overlay_entries w (joinpath (version_dir mods m v) "overlay"))
                   (reconcile_field hashlib "patches"
                      (patch_entries w (joinpath (version_dir mods m v) "patches")) d1))
              = other_fields d0).
  { rewrite !reconcile_field_others by reflexivity. exact Ho. }
  split; [exact E|].
  intros k Hk. rewrite <- (other_fields_get k _ Hk), E. apply other_fields_get. exact Hk.
Qed.

(** C6, as the program has it.  After a successful run the [url] field is
    as it was; a record that has a [url] has an [integrity] field, the digest
    of the bytes fetched from it; a record without [url] keeps its
    [integrity] field as it was, present or absent. *)
Theorem integrity_follows_url (self : client) (m v : string) (w w' : world) :
  update_integrity hashlib json_loads json_dumps self m v w = (inr tt, w') ->
  exists sp d0 d,
    get_source json_loads self m v w = inr (JObj d0) /\
    updated_source hashlib json_loads self m v w = inr (sp, JObj d) /\
    dict_get "url" d = dict_get "url" d0 /\
    match dict_get "url" d0 with
    | Some url => exists data, download url w = inr data /\
                               dict_get "integrity" d = Some (JStr (sri hashlib data))
    | None => dict_get "integrity" d = dict_get "integrity" d0
    end.
Proof.
  intros H.
  destruct (update_integrity_ok _ _ _ _ _ _ _ _ H) as [sp [s [q [old [Hu _]]]]].
  destruct (updated_source_ok _ _ _ _ _ _ _ _ Hu)
    as [mods [d0 [d1 [_ [_ [_ [Hg [Ha ->]]]]]]]].
  eexists sp, d0, _. split; [exact Hg|]. split; [exact Hu|].
  rewrite !reconcile_field_get_other by discriminate.
  apply update_archive_ok in Ha.
  destruct Ha as [[Hn [= ->]]|[url [data [Hsome [Hd [= ->]]]]]].
  - rewrite Hn. split; reflexivity.
  - rewrite Hsome. rewrite dict_get_set_other by discriminate.
    split; [exact Hsome|]. exists data. split; [exact Hd|].
    apply dict_get_set_same.
Qed.

End Record.

Lemma failure_writes_nothing_witness :
  snd (py_update_integrity test_client "testmod" "1.0.0" (test_world unreadable_entries))
  = test_world unreadable_entries.
Proof.
  apply (failure_writes_nothing Sha2.digest Json.loads Json.dumps
           test_client "testmod" "1.0.0" (test_world unreadable_entries) _
           (OSError PermissionError)).
  vm_compute. reflexivity.
Defined.

(** The failure scenario of the specification: a module that is not there. *)
Example update_missing_module :
  py_update_integrity test_client "missing" "1.0.0" (test_world test_entries)
  = (inl (RuntimeError "Module missing@1.0.0 not found"), test_world test_entries).
Proof. vm_compute. reflexivity. Qed.

Lemma other_fields_survive_witness :
  exists sp d0 d,
    get_source Json.loads test_client "testmod" "1.0.0" (test_world test_entries)
      = inr (JObj d0) /\
    updated_source Sha2.digest Json.loads test_client "testmod" "1.0.0"
      (test_world test_entries) = inr (sp, JObj d) /\
    open_read sp (snd (py_update_integrity test_client "testmod" "1.0.0"
                         (test_world test_entries)))
      = inr (record_text Json.dumps (JObj d)) /\
    other_fields d = other_fields d0 /\
    forall k, reconciled k = false -> dict_get k d = dict_get k d0.
Proof.
  apply (other_fields_survive Sha2.digest Json.loads Json.dumps
           test_client "testmod" "1.0.0" (test_world test_entries)).
  vm_compute. reflexivity.
Defined.

(** C6, as the claim states it, fails: a record with an [integrity] field
    and no [url] is rewritten with its [integrity] field. *)
Lemma integrity_without_url :
  let run := py_update_integrity test_client "testmod" "1.0.0"
               (test_world no_url_entries) in
  fst run = inr tt /\
  exists d, py_get_source test_client "testmod" "1.0.0" (snd run) = inr (JObj d) /\
            ~ (dict_has "integrity" d = true <-> dict_has "url" d = true).
Proof.
  split; [vm_compute; reflexivity|].
  eexists. split; [vm_compute; reflexivity|].
  vm_compute. intros [H _]. discriminate (H eq_refl).
Qed.

Lemma integrity_follows_url_witness :
  exists sp d0 d,
    get_source Json.loads test_client "testmod" "1.0.0" (test_world test_entries)
      = inr (JObj d0) /\
    updated_source Sha2.digest Json.loads test_client "testmod" "1.0.0"
      (test_world test_entries) = inr (sp, JObj d) /\
    dict_get "url" d = dict_get "url" d0 /\
    match dict_get "url" d0 with
    | Some url => exists data, download url (test_world test_entries) = inr data /\
                               dict_get "integrity" d = Some (JStr (sri Sha2.digest data))
    | None => dict_get "integrity" d = dict_get "integrity" d0
    end.
Proof.
  apply (integrity_follows_url Sha2.digest Json.loads Json.dumps
           test_client "testmod" "1.0.0" (test_world test_entries)
           (snd (py_update_integrity test_client "testmod" "1.0.0"
                   (test_world test_entries)))).
  vm_compute. reflexivity.
Defined.


(** ** Directory listings *)

Lemma node_induction (P : node -> Prop) :
  (forall r wr d, P (File r wr d)) ->
  (forall es, (forall c k, In (c, k) es -> P k) -> P (Dir es)) ->
  forall n, P n.
Proof.
  intros Hf Hd. fix IH 1. intros [r wr d|es]; [apply Hf|].
  apply Hd. induction es as [|[c k] l IHl]; intros c' k' Hin.
  - destruct Hin.
  - destruct Hin as [Heq|Hin].
    + injection Heq as _ <-. apply IH.
    + apply (IHl c' k' Hin).
Qed.

Lemma walk_file (r wr : bool) (d : bytes) (p : Path) (m : node) :
  walk (File r wr d) p m -> p = [].
Proof. intros H. inversion H. reflexivity. Qed.

(** [rglob] lists exactly the nodes below the directory, each by its path. *)
Lemma rglob_spec (n : node) :
  forall (pre rel : Path) (m : node),
    In (rel, m) (rglob n pre) <->
    exists q, q <> [] /\ rel = pre ++ q /\ walk n q m.
Proof.
  induction n as [r wr d|es IH] using node_induction; intros pre rel m.
  - simpl. split; [intros []|].
    intros [q [Hq [_ Hw]]]. apply walk_file in Hw. contradiction.
  - cbn [rglob]. rewrite in_app_iff, in_map_iff.
    set (subdirs := fix subdirs (l : list (string * node)) : list (Path * node) :=
           match l with
           | [] => []
           | (name, k) :: l' => rglob k (pre ++ [name]) ++ subdirs l'
           end).
    assert (Hsub : forall l, In (rel, m) (subdirs l) <->
                             exists c k, In (c, k) l /\ In (rel, m) (rglob k (pre ++ [c]))).
    { induction l as [|[c k] l IHl]; simpl.
      - split; [intros [] | intros [c [k [[] _]]]].
      - rewrite in_app_iff, IHl. split.
        + intros [H|[c' [k' [Hin H]]]]; [exists c, k; auto | exists c', k'; auto].
        + intros [c' [k' [[Heq|Hin] H]]].
          * injection Heq as <- <-. left. exact H.
          * right. exists c', k'. auto. }
    rewrite Hsub. split.
    + intros [[[c k] [Heq Hin]]|[c [k [Hin H]]]].
      * simpl in Heq. injection Heq as <- <-.
        exists [c]. split; [discriminate|]. split; [reflexivity|].
        apply (walk_down es c k [] k Hin). constructor.
      * apply (IH c k Hin) in H. destruct H as [q [Hq [-> Hw]]].
        exists (c :: q). split; [discriminate|].
        split; [rewrite <- app_assoc; reflexivity|].
        apply (walk_down es c k q m Hin Hw).
    + intros [q [Hq [-> Hw]]].
      inversion Hw as [|es' c k q' m' Hin Hw']; subst; [contradiction|].
      destruct q' as [|c' q'].
      * left. inversion Hw'; subst. exists (c, m). auto.
      * right. exists c, k. split; [exact Hin|].
        apply (IH c k Hin). exists (c' :: q'). split; [discriminate|].
        split; [rewrite <- app_assoc; reflexivity | exact Hw'].
Qed.

(** *** Well-formed trees *)

Lemma wf_dir (es : list (string * node)) :
  wf_node (Dir es) = true ->
  distinct (map fst es) = true /\
  forall c k, In (c, k) es -> valid_name c = true /\ wf_node k = true.
Proof.
  cbn [wf_node]. rewrite !andb_true_iff. intros [[Hd Hv] Hall].
  split; [exact Hd|]. intros c k Hin. split.
  - rewrite forallb_forall in Hv. apply (Hv (c, k) Hin).
  - clear Hd Hv. induction es as [|[c' k'] l IHl]; [destruct Hin|].
    apply andb_true_iff in Hall. destruct Hall as [Hk Hl].
    destruct Hin as [Heq|Hin]; [injection Heq as _ <-; exact Hk | apply IHl; assumption].
Qed.

Lemma distinct_not_in (x : string) (l : list string) :
  existsb (String.eqb x) l = false -> ~ In x l.
Proof.
  intros H Hin. assert (E : existsb (String.eqb x) l = true).
  { apply existsb_exists. exists x. split; [exact Hin | apply String.eqb_refl]. }
  congruence.
Qed.

(** In a directory of distinct names, a name has one entry. *)
Lemma distinct_functional {A : Type} (es : list (string * A)) (c : string) (k1 k2 : A) :
  distinct (map fst es) = true -> In (c, k1) es -> In (c, k2) es -> k1 = k2.
Proof.
  induction es as [|[c' k'] l IH]; simpl; [intros _ []|].
  rewrite andb_true_iff, negb_true_iff. intros [Hn Hd] H1 H2.
  apply distinct_not_in in Hn.
  destruct H1 as [E1|H1], H2 as [E2|H2].
  - congruence.
  - injection E1 as -> _. exfalso. apply Hn. apply (in_map fst _ _ H2).
  - injection E2 as -> _. exfalso. apply Hn. apply (in_map fst _ _ H1).
  - apply IH; assumption.
Qed.

Lemma assoc_in {A : Type} (es : list (string * A)) (c : string) (k : A) :
  assoc c es = Some k -> In (c, k) es.
Proof.
  induction es as [|[c' k'] l IH]; simpl; [discriminate|].
  destruct (String.eqb c c') eqn:E.
  - apply String.eqb_eq in E. subst. intros [= ->]. auto.
  - intros H. right. apply IH. exact H.
Qed.

Lemma wf_fs_get (q : Path) :
  forall t n, wf_node t = true -> fs_get t q = Some n -> wf_node n = true.
Proof.
  induction q as [|c q IH]; intros t n Hwf H.
  - simpl in H. congruence.
  - destruct t as [r wr d|es]; [discriminate|].
    simpl in H. destruct (assoc c es) as [k|] eqn:Ha; [|discriminate].
    apply (IH k n); [|exact H].
    apply wf_dir in Hwf. destruct Hwf as [_ Hall].
    apply (Hall c k). apply assoc_in. exact Ha.
Qed.

Lemma wf_stat (t : node) (p : Path) (n : node) :
  wf_node t = true -> stat t p = Some n -> wf_node n = true.
Proof.
  unfold stat. intros Hwf. destruct (realpath t p) as [q|]; [|discriminate].
  apply wf_fs_get. exact Hwf.
Qed.

(** In a well-formed tree a path leads to one node, through valid names. *)
Lemma walk_functional (n : node) (p : Path) (m1 : node) :
  walk n p m1 -> forall m2, wf_node n = true -> walk n p m2 -> m1 = m2.
Proof.
  induction 1 as [n|es c k p m Hin Hw IH]; intros m2 Hwf H2.
  - inversion H2. reflexivity.
  - inversion H2 as [|es' c' k' p' m' Hin' Hw']; subst.
    apply wf_dir in Hwf. destruct Hwf as [Hd Hall].
    assert (k' = k) by (apply (distinct_functional es c); assumption). subst k'.
    apply IH; [apply (Hall c k Hin) | exact Hw'].
Qed.

Lemma walk_valid (n : node) (p : Path) (m : node) :
  walk n p m -> wf_node n = true -> Forall (fun c => valid_name c = true) p.
Proof.
  induction 1 as [n|es c k p m Hin Hw IH]; intros Hwf; [constructor|].
  apply wf_dir in Hwf. destruct Hwf as [_ Hall].
  destruct (Hall c k Hin) as [Hc Hk]. constructor; [exact Hc | apply IH; exact Hk].
Qed.

(** *** Relative paths as keys *)

Lemma valid_name_facts (s : string) :
  valid_name s = true -> s <> "" /\ no_slash s.
Proof.
  unfold valid_name. rewrite andb_true_iff, !negb_true_iff. intros [Hne Hc].
  split; [apply String.eqb_neq; exact Hne|].
  clear Hne. induction s as [|c r IH]; [exact I|].
  simpl in Hc. apply orb_false_iff in Hc. destruct Hc as [Hp Hr].
  split; [|apply IH; exact Hr].
  intros ->. simpl in Hp. destruct r; discriminate.
Qed.

(** A name without separator is cut from what follows it in one way. *)
Lemma split_unique (a : string) :
  forall b ra rb, no_slash a -> no_slash b -> at_separator ra -> at_separator rb ->
                  a +++ ra = b +++ rb -> a = b /\ ra = rb.
Proof.
  induction a as [|c a IH]; intros b ra rb Ha Hb Hra Hrb H.
  - destruct b as [|c' b]; [auto|]. simpl in *. exfalso.
    destruct Hra as [->|[r' ->]]; [discriminate|].
    injection H as <- _. destruct Hb as [Hb _]. apply Hb. reflexivity.
  - destruct b as [|c' b]; simpl in *.
    + exfalso. destruct Hrb as [->|[r' ->]]; [discriminate|].
      injection H as -> _. destruct Ha as [Ha _]. apply Ha. reflexivity.
    + injection H as -> H. destruct Ha as [_ Ha], Hb as [_ Hb].
      destruct (IH b ra rb Ha Hb Hra Hrb H) as [-> ->]. auto.
Qed.

Lemma concat_cons (x : string) (l : Path) :
  String.concat "/" (x :: l) =
  x +++ match l with [] => "" | _ :: _ => String "/" (String.concat "/" l) end.
Proof.
  destruct l as [|y l]; simpl.
  - induction x as [|c x IH]; simpl; [reflexivity | rewrite <- IH; reflexivity].
  - reflexivity.
Qed.

(** Paths of valid names with one text are one path. *)
Lemma rel_str_injective (p1 : Path) :
  forall p2, Forall (fun c => valid_name c = true) p1 ->
             Forall (fun c => valid_name c = true) p2 ->
             rel_str p1 = rel_str p2 -> p1 = p2.
Proof.
  unfold rel_str.
  induction p1 as [|a p1 IH]; intros p2 H1 H2 H.
  - destruct p2 as [|b p2]; [reflexivity|]. exfalso.
    inversion H2 as [|? ? Hb _]; subst. apply valid_name_facts in Hb.
    destruct Hb as [Hb _]. rewrite concat_cons in H. simpl in H.
    destruct b; [congruence | discriminate].
  - inversion H1 as [|? ? Ha H1']; subst. apply valid_name_facts in Ha.
    destruct Ha as [Hane Ha].
    destruct p2 as [|b p2].
    + exfalso. rewrite concat_cons in H. simpl in H.
      destruct a; [congruence | discriminate].
    + inversion H2 as [|? ? Hb H2']; subst. apply valid_name_facts in Hb.
      destruct Hb as [_ Hb]. rewrite !concat_cons in H.
      apply split_unique in H; try assumption.
      * destruct H as [-> Hr]. f_equal.
        destruct p1 as [|x p1], p2 as [|y p2]; try discriminate; [reflexivity|].
        injection Hr as Hr. apply IH; assumption.
      * destruct p1; [left; reflexivity | right; eauto].
      * destruct p2; [left; reflexivity | right; eauto].
Qed.


(** *** The entries the program digests *)

Lemma is_file_inv (n : node) :
  is_file n = true -> exists r wr, n = File r wr (node_data n).
Proof. destruct n as [r wr d|es]; simpl; [eauto | discriminate]. Qed.

Lemma patch_entries_sound (w : world) (patches_dir : Path) (name : string) (n : node) :
  In (name, n) (patch_entries w patches_dir) ->
  patch_present w patches_dir name (node_data n).
Proof.
  unfold patch_entries, patch_present.
  destruct (stat (fs w) patches_dir) as [[r0 w0 d0|es]|]; try (intros []).
  rewrite filter_In. simpl. intros [Hin Hf].
  destruct (is_file_inv _ Hf) as [r [wr Hn]].
  exists es, r, wr. rewrite <- Hn. auto.
Qed.

Lemma patch_entries_complete (w : world) (patches_dir : Path) (name : string)
      (data : bytes) :
  patch_present w patches_dir name data ->
  exists n, In (name, n) (patch_entries w patches_dir) /\ node_data n = data.
Proof.
  unfold patch_entries, patch_present. intros [es [r [wr [Hs Hin]]]].
  rewrite Hs. exists (File r wr data). split; [|reflexivity].
  apply filter_In. auto.
Qed.

Lemma patch_present_functional (w : world) (patches_dir : Path) (name : string)
      (d1 d2 : bytes) :
  wf_node (fs w) = true ->
  patch_present w patches_dir name d1 -> patch_present w patches_dir name d2 ->
  d1 = d2.
Proof.
  intros Hwf [es [r1 [w1 [Hs H1]]]] [es' [r2 [w2 [Hs' H2]]]].
  rewrite Hs in Hs'. injection Hs' as <-.
  apply (wf_stat _ _ _ Hwf) in Hs. apply wf_dir in Hs. destruct Hs as [Hd _].
  pose proof (distinct_functional es name _ _ Hd H1 H2) as E. congruence.
Qed.

Lemma overlay_entries_sound (w : world) (overlay_dir : Path) (key : string) (n : node) :
  In (key, n) (overlay_entries w overlay_dir) ->
  overlay_key_present w overlay_dir key (node_data n).
Proof.
  unfold overlay_entries, overlay_key_present, overlay_present.
  destruct (stat (fs w) overlay_dir) as [root|]; [|intros []].
  rewrite in_map_iff. intros [[rel m] [Heq Hin]]. simpl in Heq.
  injection Heq as <- <-.
  apply filter_In in Hin. destruct Hin as [Hin Hf].
  unfold overlay_file in Hf. simpl in Hf. apply andb_true_iff in Hf.
  destruct Hf as [Hf Hl]. apply negb_true_iff, String.eqb_neq in Hl.
  apply rglob_spec in Hin. destruct Hin as [q [Hq [-> Hw]]]. simpl in *.
  destruct (is_file_inv _ Hf) as [r [wr Hn]].
  exists q. split; [reflexivity|]. exists root, r, wr. rewrite <- Hn. auto.
Qed.

Lemma overlay_entries_complete (w : world) (overlay_dir : Path) (key : string)
      (data : bytes) :
  overlay_key_present w overlay_dir key data ->
  exists n, In (key, n) (overlay_entries w overlay_dir) /\ node_data n = data.
Proof.
  unfold overlay_entries, overlay_key_present, overlay_present.
  intros [rel [-> [root [r [wr [Hs [Hne [Hw Hl]]]]]]]].
  rewrite Hs. exists (File r wr data). split; [|reflexivity].
  apply in_map_iff. exists (rel, File r wr data). split; [reflexivity|].
  apply filter_In. split.
  - apply rglob_spec. exists rel. auto.
  - unfold overlay_file. simpl. apply negb_true_iff, String.eqb_neq. exact Hl.
Qed.

Lemma overlay_present_functional (w : world) (overlay_dir : Path) (key : string)
      (d1 d2 : bytes) :
  wf_node (fs w) = true ->
  overlay_key_present w overlay_dir key d1 ->
  overlay_key_present w overlay_dir key d2 -> d1 = d2.
Proof.
  intros Hwf [rel1 [-> [root [r1 [w1 [Hs [_ [Hw1 _]]]]]]]]
         [rel2 [Hk [root' [r2 [w2 [Hs' [_ [Hw2 _]]]]]]]].
  rewrite Hs in Hs'. injection Hs' as <-.
  apply (wf_stat _ _ _ Hwf) in Hs.
  assert (rel1 = rel2) as <-.
  { apply rel_str_injective; [| |exact Hk].
    - apply (walk_valid _ _ _ Hw1 Hs).
    - apply (walk_valid _ _ _ Hw2 Hs). }
  pose proof (walk_functional _ _ _ Hw1 _ Hs Hw2) as E. congruence.
Qed.

(** *** The mapping of digests *)

Section Digests.

Variable hashlib : string -> bytes -> bytes.

Lemma digests_get (files : list (string * node)) :
  forall (acc : dict) (k : string) (v : json),
    dict_get k (digests hashlib files acc) = Some v ->
    (exists n, In (k, n) files /\ v = JStr (sri hashlib (node_data n))) \/
    dict_get k acc = Some v.
Proof.
  unfold digests. induction files as [|[name n] rest IH]; intros acc k v H.
  - right. exact H.
  - simpl in H. apply IH in H. destruct H as [[n' [Hin ->]]|H].
    + left. exists n'. split; [right; exact Hin | reflexivity].
    + destruct (String.eqb k name) eqn:E.
      * apply String.eqb_eq in E. subst k. rewrite dict_get_set_same in H.
        injection H as <-. left. exists n. split; [left; reflexivity | reflexivity].
      * apply String.eqb_neq in E. rewrite dict_get_set_other in H by exact E.
        right. exact H.
Qed.

Lemma digests_keys (files : list (string * node)) :
  forall (acc : dict) (k : string),
    In k (dict_keys (digests hashlib files acc)) <->
    In k (dict_keys acc) \/ In k (map fst files).
Proof.
  unfold digests. induction files as [|[name n] rest IH]; intros acc k; simpl.
  - intuition.
  - rewrite IH, dict_keys_set. intuition.
Qed.

(** The field that [reconcile_field] leaves is the reconciliation of the
    files, when a key stands for one content. *)
Lemma reconcile_field_reconciles (present : string -> bytes -> Prop)
      (k : string) (files : list (string * node)) (d : dict) :
  (forall key n, In (key, n) files -> present key (node_data n)) ->
  (forall key data, present key data ->
                    exists n, In (key, n) files /\ node_data n = data) ->
  (forall key d1 d2, present key d1 -> present key d2 -> d1 = d2) ->
  reconciles hashlib present (dict_get k (reconcile_field hashlib k files d)).
Proof.
  intros Hsound Hcomplete Hfun. unfold reconciles.
  destruct files as [|f files]; cbn [reconcile_field].
  - rewrite dict_get_pop_same. split; [|split].
    + intros key data Hp. destruct (Hcomplete _ _ Hp) as [n [[] _]].
    + discriminate.
    + reflexivity.
  - rewrite dict_get_set_same. split; [|split].
    + intros key data Hp. eexists. split; [reflexivity|].
      destruct (Hcomplete _ _ Hp) as [n [Hin Hd]].
      assert (Hk : In key (dict_keys (digests hashlib (f :: files) []))).
      { apply digests_keys. right. apply (in_map fst _ _ Hin). }
      apply dict_get_keys in Hk. destruct Hk as [v Hv]. rewrite Hv.
      destruct (digests_get _ _ _ _ Hv) as [[n' [Hin' ->]]|Hacc]; [|discriminate].
      apply Hsound in Hin'. rewrite (Hfun _ _ _ Hin' Hp). reflexivity.
    + intros x Hx. exists (digests hashlib (f :: files) []).
      split; [congruence|]. split.
      * intros E.
        assert (Hk : In (fst f) (dict_keys (digests hashlib (f :: files) []))).
        { apply digests_keys. right. left. reflexivity. }
        rewrite E in Hk. destruct Hk.
      * intros key Hk. apply digests_keys in Hk. destruct Hk as [[]|Hk].
        apply in_map_iff in Hk. destruct Hk as [[key' n] [<- Hin]].
        exists (node_data n). apply Hsound. exact Hin.
    + intros Hnone. exfalso. destruct f as [key n].
      apply (Hnone key (node_data n)). apply Hsound. left. reflexivity.
Qed.

End Digests.

(** ** What the write leaves alone *)

Lemma joinpath_name (p : Path) :
  joinpath p "source.json" = p ++ ["source.json"] /\
  joinpath p "patches" = p ++ ["patches"] /\
  joinpath p "overlay" = p ++ ["overlay"] /\
  joinpath p "bazel_registry.json" = p ++ ["bazel_registry.json"].
Proof. repeat split; reflexivity. Qed.

(** Replacing the file [c] of a directory leaves its entry [c'] as it was. *)
Lemma stat_sibling (t : node) (p q : Path) (c c' : string) (r wr r' wr' : bool)
      (d d' : bytes) :
  c <> ".." -> c' <> ".." -> c <> c' ->
  realpath t (p ++ [c]) = Some q ->
  fs_get t q = Some (File r wr d) ->
  stat (fs_put q (File r' wr' d') t) (p ++ [c']) = stat t (p ++ [c']).
Proof.
  intros Hc Hc' Hne Hq Hf. unfold stat.
  rewrite (realpath_same_shape t (fs_put q (File r' wr' d') t))
    by (apply (shape_put_file _ _ _ _ _ _ _ _ Hf)).
  destruct (realpath t (p ++ [c'])) as [q'|] eqn:Hq'; [|reflexivity].
  destruct (realpath_child _ _ _ _ Hc Hq) as [qp [Hp ->]].
  destruct (realpath_child _ _ _ _ Hc' Hq') as [qp' [Hp' ->]].
  rewrite Hp in Hp'. injection Hp' as <-.
  apply (fs_get_put_apart _ _ _ _ _ _ _ Hf); [reflexivity|].
  intros rest. apply (snoc_apart qp c c' [] rest Hne).
Qed.

Lemma fs_get_below_file (q : Path) (x : string) (rest : Path) :
  forall t r wr d, fs_get t q = Some (File r wr d) ->
                   fs_get t (q ++ x :: rest) = None.
Proof.
  induction q as [|a q IH]; intros t r wr d H.
  - simpl in H. injection H as ->. reflexivity.
  - destruct t as [r1 w1 d1|es]; [discriminate|].
    simpl in *. destruct (assoc a es) as [k|]; [|reflexivity].
    apply (IH k r wr d H).
Qed.

(** Replacing a file leaves the file at another place as it was. *)
Lemma stat_other_file (t : node) (p p' q : Path) (r wr r' wr' r0 w0 : bool)
      (d d' d0 : bytes) :
  realpath t p = Some q ->
  fs_get t q = Some (File r wr d) ->
  realpath t p' <> Some q ->
  stat t p' = Some (File r0 w0 d0) ->
  stat (fs_put q (File r' wr' d') t) p' = Some (File r0 w0 d0).
Proof.
  intros Hq Hf Hne. unfold stat.
  rewrite (realpath_same_shape t (fs_put q (File r' wr' d') t))
    by (apply (shape_put_file _ _ _ _ _ _ _ _ Hf)).
  destruct (realpath t p') as [q'|] eqn:Hq'; [|discriminate].
  intros H0. rewrite <- H0.
  apply (fs_get_put_apart _ _ _ _ _ _ _ Hf); [reflexivity|].
  intros rest Hr. subst q. destruct rest as [|x rest].
  - rewrite app_nil_r in Hne. congruence.
  - rewrite (fs_get_below_file _ _ _ _ _ _ _ H0) in Hf. discriminate.
Qed.

(** ** Reconciliation *)

Section Reconciliation.

Variable hashlib : string -> bytes -> bytes.
Variable json_loads : bytes -> result json.
Variable json_dumps : json -> bool -> string.

(** A successful run leaves the Patch Set and the Overlay Set directories as
    they were. *)
Lemma run_keeps_sets (self : client) (m v : string) (w w' : world) (mods : Path) :
  update_integrity hashlib json_loads json_dumps self m v w = (inr tt, w') ->
  get_modules_dir json_loads self w = inr mods ->
  stat (fs w') (joinpath (version_dir mods m v) "patches")
    = stat (fs w) (joinpath (version_dir mods m v) "patches") /\
  stat (fs w') (joinpath (version_dir mods m v) "overlay")
    = stat (fs w) (joinpath (version_dir mods m v) "overlay").
Proof.
  intros H Hm. apply update_integrity_ok in H.
  destruct H as [sp [s [q [old [Hu [Hq [Hold ->]]]]]]].
  destruct (updated_source_ok _ _ _ _ _ _ _ _ Hu)
    as [mods' [d0 [d1 [Hm' [_ [-> _]]]]]].
  rewrite Hm in Hm'. injection Hm' as <-.
  destruct (joinpath_name (version_dir mods m v)) as [Es [Ep [Eo _]]].
  rewrite Es in Hq. rewrite Ep, Eo. simpl fs.
  split; apply (stat_sibling _ _ _ "source.json" _ _ _ _ _ _ _) with (4 := Hq) (5 := Hold);
    discriminate.
Qed.

(** C1.  After a successful run on a well-formed tree, the record that was
    written reconciles both sets as they are on disk after the run: each
    regular file that is an entry of the Patch Set directory has its sha256
    digest under its name in [patches], each regular file below the Overlay
    Set directory that is not named as the lock file has its digest under its
    relative path in [overlay], the two mappings have no other keys, and a
    set without such files, or without its directory, has no field. *)
Theorem reconciliation_complete (self : client) (m v : string) (w w' : world) :
  update_integrity hashlib json_loads json_dumps self m v w = (inr tt, w') ->
  wf_node (fs w) = true ->
  exists mods sp d,
    get_modules_dir json_loads self w = inr mods /\
    updated_source hashlib json_loads self m v w = inr (sp, JObj d) /\
    open_read sp w' = inr (record_text json_dumps (JObj d)) /\
    reconciles hashlib
      (patch_present w' (joinpath (version_dir mods m v) "patches"))
      (dict_get "patches" d) /\
    reconciles hashlib
      (overlay_key_present w' (joinpath (version_dir mods m v) "overlay"))
      (dict_get "overlay" d).
Proof.
  intros H Hwf.
  destruct (update_integrity_ok _ _ _ _ _ _ _ _ H) as [sp [s [q [old [Hu _]]]]].
  pose proof (update_integrity_reads_back _ _ _ _ _ _ _ _ _ _ H Hu) as Hr.
  destruct (updated_source_ok _ _ _ _ _ _ _ _ Hu)
    as [mods [d0 [d1 [Hm [_ [_ [_ [_ ->]]]]]]]].
  destruct (run_keeps_sets _ _ _ _ _ _ H Hm) as [Ep Eo].
  exists mods, sp. eexists. split; [exact Hm|]. split; [exact Hu|]. split; [exact Hr|].
  unfold patch_present, overlay_key_present, overlay_present.
  rewrite Ep, Eo. split.
  - rewrite reconcile_field_get_other by discriminate.
    apply reconcile_field_reconciles.
    + apply patch_entries_sound.
    + apply patch_entries_complete.
    + intros key d2 d3. apply patch_present_functional. exact Hwf.
  - apply reconcile_field_reconciles.
    + apply overlay_entries_sound.
    + apply overlay_entries_complete.
    + intros key d2 d3. apply overlay_present_functional. exact Hwf.
Qed.

Lemma digest_files_world (cur : result json) (files : list (string * node)) :
  forall acc w1 w2,
    digest_files hashlib cur files acc w1 = digest_files hashlib cur files acc w2.
Proof.
  induction files as [|[name n] rest IH]; intros acc w1 w2; [reflexivity|].
  cbn [digest_files]. unfold bindR, read_file, lift.
  destruct (read_node n); [reflexivity|].
  destruct (integrity hashlib b "sha256"); [reflexivity|].
  destruct cur as [e|c]; [reflexivity|].
  destruct (notice c name); [reflexivity|]. apply IH.
Qed.

(** The patch step sees the regular files that are entries of the directory
    and nothing else of it. *)
Lemma update_patches_flat (patches_dir : Path) (source : json) (w1 w2 : world)
      (es1 es2 : list (string * node)) :
  stat (fs w1) patches_dir = Some (Dir es1) ->
  stat (fs w2) patches_dir = Some (Dir es2) ->
  filter (fun e => is_file (snd e)) es1 = filter (fun e => is_file (snd e)) es2 ->
  update_patches hashlib patches_dir source w1 =
  update_patches hashlib patches_dir source w2.
Proof.
  intros H1 H2 Hf.
  unfold update_patches, bindR, path_exists, iterdir, lift. cbv beta.
  rewrite H1, H2. cbv beta iota.
  destruct (py_get source "patches" (JObj [])) as [e|cur]; [reflexivity|].
  rewrite H1, H2, Hf.
  destruct (filter (fun e => is_file (snd e)) es2) as [|f fs']; [reflexivity|].
  rewrite (digest_files_world _ _ _ w1 w2). reflexivity.
Qed.

Lemma filter_none {A : Type} (f : A -> bool) (l : list A) :
  (forall x, In x l -> f x = false) -> filter f l = [].
Proof.
  induction l as [|x l IH]; intros H; [reflexivity|].
  simpl. rewrite (H x) by (left; reflexivity).
  apply IH. intros y Hy. apply H. right. exact Hy.
Qed.

(** C10.  Patch reconciliation is flat.  The patch step gives the same
    result, error or record, for two directories with the same regular files
    as entries, whatever their subdirectories hold; after a successful run
    every key of [patches] names a regular file that is an entry of the
    directory; and a directory whose entries are all directories leaves the
    record without [patches]. *)
Theorem patches_are_flat (self : client) (m v : string) (w w' : world) :
  update_integrity hashlib json_loads json_dumps self m v w = (inr tt, w') ->
  exists mods sp d,
    get_modules_dir json_loads self w = inr mods /\
    updated_source hashlib json_loads self m v w = inr (sp, JObj d) /\
    let patches_dir := joinpath (version_dir mods m v) "patches" in
    (forall source w2 es es2,
        stat (fs w) patches_dir = Some (Dir es) ->
        stat (fs w2) patches_dir = Some (Dir es2) ->
        filter (fun e => is_file (snd e)) es = filter (fun e => is_file (snd e)) es2 ->
        update_patches hashlib patches_dir source w =
        update_patches hashlib patches_dir source w2) /\
    (forall pm name,
        dict_get "patches" d = Some (JObj pm) -> In name (dict_keys pm) ->
        exists es r wr data,
          stat (fs w) patches_dir = Some (Dir es) /\ In (name, File r wr data) es) /\
    (forall es,
        stat (fs w) patches_dir = Some (Dir es) ->
        (forall e, In e es -> is_dir (snd e) = true) ->
        dict_get "patches" d = None).
Proof.
  intros H.
  destruct (update_integrity_ok _ _ _ _ _ _ _ _ H) as [sp [s [q [old [Hu _]]]]].
  destruct (updated_source_ok _ _ _ _ _ _ _ _ Hu)
    as [mods [d0 [d1 [Hm [_ [_ [_ [_ ->]]]]]]]].
  exists mods, sp. eexists. split; [exact Hm|]. split; [exact Hu|].
  cbv zeta. rewrite reconcile_field_get_other by discriminate.
  split; [|split].
  - intros source w2 es es2. apply update_patches_flat.
  - intros pm name Hpm Hk.
    destruct (patch_entries w (joinpath (version_dir mods m v) "patches"))
      as [|f files] eqn:Hp; cbn [reconcile_field] in Hpm.
    + rewrite dict_get_pop_same in Hpm. discriminate.
    + rewrite dict_get_set_same in Hpm.
      assert (E : pm = digests hashlib (f :: files) []) by congruence.
      rewrite E in Hk. apply digests_keys in Hk. destruct Hk as [[]|Hk].
      apply in_map_iff in Hk. destruct Hk as [[name' n] [<- Hin]].
      rewrite <- Hp in Hin. apply patch_entries_sound in Hin.
      destruct Hin as [es [r [wr [Hs Hin]]]]. exists es, r, wr, (node_data n). auto.
  - intros es Hs Hdirs. unfold patch_entries. rewrite Hs.
    rewrite filter_none; [apply dict_get_pop_same|].
    intros e He. apply Hdirs in He. destruct (snd e); [discriminate | reflexivity].
Qed.

Lemma overlay_entries_none (w : world) (overlay_dir : Path) (root : node) :
  stat (fs w) overlay_dir = Some root ->
  (forall rel n, walk root rel n -> is_file n = true -> last rel "" = excluded_lock) ->
  overlay_entries w overlay_dir = [].
Proof.
  intros Hs Hall. unfold overlay_entries. rewrite Hs.
  rewrite filter_none; [reflexivity|].
  intros [rel n] Hin. apply rglob_spec in Hin. destruct Hin as [q [_ [-> Hw]]].
  unfold overlay_file. simpl.
  destruct (is_file n) eqn:Hf; [|reflexivity].
  rewrite (Hall q n Hw Hf), String.eqb_refl. reflexivity.
Qed.

Lemma update_overlay_none (overlay_dir : Path) (source : json) (w : world) :
  overlay_entries w overlay_dir = [] ->
  update_overlay hashlib overlay_dir source w = py_pop source "overlay".
Proof.
  unfold overlay_entries, update_overlay, bindR, path_exists, rglob_all, lift.
  cbv beta.
  destruct (stat (fs w) overlay_dir) as [n|] eqn:Hs; cbv beta iota; rewrite ?Hs;
    [|reflexivity].
  intros ->. reflexivity.
Qed.

(** C9.  The lock file name is the literal "MODULE.bazel.lock".  When the
    Overlay Set directory exists and every regular file below it has that
    name, the overlay step does what it does on an empty directory, and a
    successful run writes a record without [overlay]. *)
Theorem lock_files_only (self : client) (m v : string) (w w' : world)
        (mods : Path) (root : node) :
  update_integrity hashlib json_loads json_dumps self m v w = (inr tt, w') ->
  get_modules_dir json_loads self w = inr mods ->
  stat (fs w) (joinpath (version_dir mods m v) "overlay") = Some root ->
  is_dir root = true ->
  (forall rel n, walk root rel n -> is_file n = true -> last rel "" = excluded_lock) ->
  excluded_lock = "MODULE.bazel.lock" /\
  (forall source w2,
      stat (fs w2) (joinpath (version_dir mods m v) "overlay") = Some (Dir []) ->
      update_overlay hashlib (joinpath (version_dir mods m v) "overlay") source w
      = update_overlay hashlib (joinpath (version_dir mods m v) "overlay") source w2) /\
  exists sp d,
    updated_source hashlib json_loads self m v w = inr (sp, JObj d) /\
    dict_get "overlay" d = None /\
    open_read sp w' = inr (record_text json_dumps (JObj d)).
Proof.
  intros H Hm Hs _ Hall. split; [reflexivity|].
  pose proof (overlay_entries_none _ _ _ Hs Hall) as Hnone.
  split.
  - intros source w2 Hs2. rewrite !update_overlay_none; [reflexivity| |exact Hnone].
    unfold overlay_entries. rewrite Hs2. reflexivity.
  - destruct (update_integrity_ok _ _ _ _ _ _ _ _ H) as [sp [s [q [old [Hu _]]]]].
    pose proof (update_integrity_reads_back _ _ _ _ _ _ _ _ _ _ H Hu) as Hr.
    destruct (updated_source_ok _ _ _ _ _ _ _ _ Hu)
      as [mods' [d0 [d1 [Hm' [_ [_ [_ [_ ->]]]]]]]].
    rewrite Hm in Hm'. injection Hm' as <-.
    exists sp. eexists. split; [exact Hu|]. split; [|exact Hr].
    rewrite Hnone. apply dict_get_pop_same.
Qed.

End Reconciliation.

Lemma reconciliation_complete_witness :
  exists mods sp d,
    get_modules_dir Json.loads test_client (test_world nested_entries) = inr mods /\
    updated_source Sha2.digest Json.loads test_client "testmod" "1.0.0"
      (test_world nested_entries) = inr (sp, JObj d) /\
    open_read sp (snd (py_update_integrity test_client "testmod" "1.0.0"
                         (test_world nested_entries)))
      = inr (record_text Json.dumps (JObj d)) /\
    reconciles Sha2.digest
      (patch_present (snd (py_update_integrity test_client "testmod" "1.0.0"
                             (test_world nested_entries)))
                     (joinpath (version_dir mods "testmod" "1.0.0") "patches"))
      (dict_get "patches" d) /\
    reconciles Sha2.digest
      (overlay_key_present (snd (py_update_integrity test_client "testmod" "1.0.0"
                                   (test_world nested_entries)))
                           (joinpath (version_dir mods "testmod" "1.0.0") "overlay"))
      (dict_get "overlay" d).
Proof.
  apply (reconciliation_complete Sha2.digest Json.loads Json.dumps
           test_client "testmod" "1.0.0" (test_world nested_entries)).
  - vm_compute. reflexivity.
  - vm_compute. reflexivity.
Defined.

(** The end-to-end scenario of the specification. *)
Example update_test_registry :
  exists w',
    py_update_integrity test_client "testmod" "1.0.0" (test_world test_entries)
      = (inr tt, w') /\
    py_get_source test_client "testmod" "1.0.0" w' =
    inr (JObj [("url", JStr "file:///dev/null");
               ("integrity", JStr (sri Sha2.digest ""));
               ("strip_prefix", JStr "testmod-1.0.0");
               ("patches",
                JObj [("test.patch", JStr (sri Sha2.digest "--- a/test.txt"))]);
               ("overlay",
                JObj [("BUILD.bazel",
                       JStr (sri Sha2.digest
                               ("# Test BUILD file" +++ String Json.newline "")));
                      ("MODULE.bazel",
                       JStr (sri Sha2.digest
                               "module(name = 'testmod', version = '1.0.0')"))])]) /\
    sri Sha2.digest "" = "sha256-47DEQpj8HBSa+/TImW+5JCeuQeRkm5NMpJWZG3hSuFU=".
Proof.
  eexists. split; [vm_compute; reflexivity|].
  split; vm_compute; reflexivity.
Qed.

Lemma patches_are_flat_witness :
  exists mods sp d,
    get_modules_dir Json.loads test_client (test_world nested_entries) = inr mods /\
    updated_source Sha2.digest Json.loads test_client "testmod" "1.0.0"
      (test_world nested_entries) = inr (sp, JObj d) /\
    let patches_dir := joinpath (version_dir mods "testmod" "1.0.0") "patches" in
    (forall source w2 es es2,
        stat (fs (test_world nested_entries)) patches_dir = Some (Dir es) ->
        stat (fs w2) patches_dir = Some (Dir es2) ->
        filter (fun e => is_file (snd e)) es = filter (fun e => is_file (snd e)) es2 ->
        update_patches Sha2.digest patches_dir source (test_world nested_entries) =
        update_patches Sha2.digest patches_dir source w2) /\
    (forall pm name,
        dict_get "patches" d = Some (JObj pm) -> In name (dict_keys pm) ->
        exists es r wr data,
          stat (fs (test_world nested_entries)) patches_dir = Some (Dir es) /\
          In (name, File r wr data) es) /\
    (forall es,
        stat (fs (test_world nested_entries)) patches_dir = Some (Dir es) ->
        (forall e, In e es -> is_dir (snd e) = true) ->
        dict_get "patches" d = None).
Proof.
  apply (patches_are_flat Sha2.digest Json.loads Json.dumps
           test_client "testmod" "1.0.0" (test_world nested_entries)
           (snd (py_update_integrity test_client "testmod" "1.0.0"
                   (test_world nested_entries)))).
  vm_compute. reflexivity.
Defined.

(** A Patch Set of subdirectories and an overlay of lock files: both fields
    go. *)
Example update_drops_both_fields :
  exists w',
    py_update_integrity test_client "testmod" "1.0.0" (test_world lock_only_entries)
      = (inr tt, w') /\
    py_get_source test_client "testmod" "1.0.0" w' =
    inr (JObj [("url", JStr "file:///dev/null");
               ("integrity", JStr (sri Sha2.digest ""))]).
Proof. eexists. split; vm_compute; reflexivity. Qed.

Lemma lock_only_overlay_walks (rel : Path) (n : node) :
  walk lock_only_overlay rel n -> is_file n = true -> last rel "" = excluded_lock.
Proof.
  intros Hw Hf. destruct rel as [|c rel].
  - inversion Hw; subst. discriminate Hf.
  - assert (Hin : In (c :: rel, n) (rglob lock_only_overlay [])).
    { apply rglob_spec. exists (c :: rel). split; [discriminate | auto]. }
    vm_compute in Hin.
    destruct Hin as [E|[E|[E|[]]]]; injection E as <- <- <-; try reflexivity.
    discriminate Hf.
Qed.

Lemma lock_files_only_witness :
  excluded_lock = "MODULE.bazel.lock" /\
  (forall source w2,
      stat (fs w2) (joinpath (version_dir test_modules "testmod" "1.0.0") "overlay")
        = Some (Dir []) ->
      update_overlay Sha2.digest
        (joinpath (version_dir test_modules "testmod" "1.0.0") "overlay") source
        (test_world lock_only_entries)
      = update_overlay Sha2.digest
          (joinpath (version_dir test_modules "testmod" "1.0.0") "overlay") source w2) /\
  exists sp d,
    updated_source Sha2.digest Json.loads test_client "testmod" "1.0.0"
      (test_world lock_only_entries) = inr (sp, JObj d) /\
    dict_get "overlay" d = None /\
    open_read sp (snd (py_update_integrity test_client "testmod" "1.0.0"
                         (test_world lock_only_entries)))
      = inr (record_text Json.dumps (JObj d)).
Proof.
  apply (lock_files_only Sha2.digest Json.loads Json.dumps
           test_client "testmod" "1.0.0" (test_world lock_only_entries) _
           test_modules lock_only_overlay).
  - vm_compute. reflexivity.
  - vm_compute. reflexivity.
  - vm_compute. reflexivity.
  - reflexivity.
  - exact lock_only_overlay_walks.
Defined.

(** ** A second run *)

Section SecondRun.

Variable hashlib : string -> bytes -> bytes.
Variable json_loads : bytes -> result json.
Variable json_dumps : json -> bool -> string.

Lemma update_archive_eq (d : dict) (w : world) :
  update_archive hashlib (JObj d) w =
  match dict_get "url" d with
  | None => inr (JObj d)
  | Some url =>
      match download url w with
      | inl e => inl e
      | inr data => inr (JObj (dict_set "integrity" (JStr (sri hashlib data)) d))
      end
  end.
Proof.
  unfold update_archive, bindR, lift, retR. simpl. unfold dict_has.
  destruct (dict_get "url" d) as [url|]; [|reflexivity].
  destruct (download url w); reflexivity.
Qed.

(** The patch step on a record whose [patches] field is a mapping or absent:
    it fails only on a directory that is a file or on a file it cannot
    read. *)
Lemma update_patches_run (patches_dir : Path) (d : dict) (w : world) :
  (forall r wr data, stat (fs w) patches_dir <> Some (File r wr data)) ->
  Forall readable (patch_entries w patches_dir) ->
  mapping_or_absent (dict_get "patches" d) ->
  update_patches hashlib patches_dir (JObj d) w =
  inr (JObj (reconcile_field hashlib "patches" (patch_entries w patches_dir) d)).
Proof.
  intros Hnf Hr Hcur.
  unfold update_patches, patch_entries, bindR, path_exists, iterdir, lift in *.
  cbv beta.
  destruct (stat (fs w) patches_dir) as [[r wr data|es]|] eqn:Hs;
    cbv beta iota; rewrite ?Hs.
  - exfalso. apply (Hnf r wr data). reflexivity.
  - rewrite py_get_dict.
    destruct (filter (fun e => is_file (snd e)) es) as [|f fs'] eqn:Hf; [reflexivity|].
    assert (Hc : exists x, match dict_get "patches" d with
                           | Some y => y
                           | None => JObj []
                           end = JObj x).
    { destruct Hcur as [->|[pm ->]]; eauto. }
    destruct Hc as [x ->].
    rewrite (digest_files_run hashlib x (f :: fs') [] w Hr). reflexivity.
  - reflexivity.
Qed.

Lemma update_patches_facts (patches_dir : Path) (source s' : json) (w : world) :
  update_patches hashlib patches_dir source w = inr s' ->
  (forall r wr data, stat (fs w) patches_dir <> Some (File r wr data)) /\
  Forall readable (patch_entries w patches_dir).
Proof.
  unfold update_patches, patch_entries, bindR, path_exists, iterdir, lift.
  cbv beta.
  destruct (stat (fs w) patches_dir) as [[r wr data|es]|] eqn:Hs;
    cbv beta iota; rewrite ?Hs.
  - destruct (py_get source "patches" (JObj [])); discriminate.
  - destruct (py_get source "patches" (JObj [])) as [e|cur]; [discriminate|].
    intros H. split; [discriminate|].
    destruct (filter (fun e => is_file (snd e)) es) as [|f fs'] eqn:Hf; [constructor|].
    destruct (digest_files hashlib (inr cur) (f :: fs') [] w) as [e|pm] eqn:Hd;
      [discriminate|].
    apply digest_files_ok in Hd. apply Hd.
  - intros _. split; [discriminate | constructor].
Qed.

Lemma update_overlay_run (overlay_dir : Path) (d : dict) (w : world) :
  Forall readable (overlay_entries w overlay_dir) ->
  mapping_or_absent (dict_get "overlay" d) ->
  update_overlay hashlib overlay_dir (JObj d) w =
  inr (JObj (reconcile_field hashlib "overlay" (overlay_entries w overlay_dir) d)).
Proof.
  intros Hr Hcur.
  unfold update_overlay, overlay_entries, bindR, path_exists, rglob_all, lift in *.
  cbv beta.
  destruct (stat (fs w) overlay_dir) as [n|] eqn:Hs; cbv beta iota; rewrite ?Hs;
    [|reflexivity].
  destruct (map _ (filter overlay_file (rglob n []))) as [|f fs'] eqn:Hf; [reflexivity|].
  rewrite py_get_dict.
  assert (Hc : exists x, match dict_get "overlay" d with
                         | Some y => y
                         | None => JObj []
                         end = JObj x).
  { destruct Hcur as [->|[pm ->]]; eauto. }
  destruct Hc as [x ->].
  rewrite (digest_files_run hashlib x (f :: fs') [] w Hr). reflexivity.
Qed.

Lemma update_overlay_facts (overlay_dir : Path) (source s' : json) (w : world) :
  update_overlay hashlib overlay_dir source w = inr s' ->
  Forall readable (overlay_entries w overlay_dir).
Proof.
  unfold update_overlay, overlay_entries, bindR, path_exists, rglob_all, lift.
  cbv beta.
  destruct (stat (fs w) overlay_dir) as [n|] eqn:Hs; cbv beta iota; rewrite ?Hs;
    [|constructor].
  destruct (map _ (filter overlay_file (rglob n []))) as [|f fs'] eqn:Hf; [constructor|].
  destruct (digest_files hashlib _ (f :: fs') [] w) as [e|pm] eqn:Hd; [discriminate|].
  intros _. apply digest_files_ok in Hd. apply Hd.
Qed.

(** Reconciling a record that is reconciled changes nothing. *)
Lemma reconcile_field_again (k : string) (files : list (string * node)) (d d2 : dict) :
  dict_get k d2 = dict_get k (reconcile_field hashlib k files d) ->
  reconcile_field hashlib k files d2 = d2.
Proof.
  destruct files as [|f files]; cbn [reconcile_field].
  - rewrite dict_get_pop_same. apply dict_pop_id.
  - rewrite dict_get_set_same. apply dict_set_id.
Qed.

Lemma reconcile_field_mapping (k : string) (files : list (string * node)) (d : dict) :
  mapping_or_absent (dict_get k (reconcile_field hashlib k files d)).
Proof.
  destruct files as [|f files]; cbn [reconcile_field].
  - left. apply dict_get_pop_same.
  - right. rewrite dict_get_set_same. eauto.
Qed.

(** The readable files of the run, beside what [updated_source_ok] tells. *)
Lemma updated_source_reads (self : client) (m v : string) (w : world)
      (sp : Path) (s : json) (mods : Path) :
  updated_source hashlib json_loads self m v w = inr (sp, s) ->
  get_modules_dir json_loads self w = inr mods ->
  (forall r wr data,
      stat (fs w) (joinpath (version_dir mods m v) "patches") <> Some (File r wr data)) /\
  Forall readable (patch_entries w (joinpath (version_dir mods m v) "patches")) /\
  Forall readable (overlay_entries w (joinpath (version_dir mods m v) "overlay")).
Proof.
  unfold updated_source. intros H Hm.
  inv_bind H. destruct x as [|]; [|discriminate]. simpl in H.
  inv_bind H. inv_bind H. inv_bind H. inv_bind H. inv_bind H. inv_bind H. inv_bind H.
  apply get_patches_dir_ok in Hx3. destruct Hx3 as [mods' [Hm' ->]].
  apply get_overlay_dir_ok in Hx5. destruct Hx5 as [mods'' [Hm'' ->]].
  rewrite Hm in Hm', Hm''. injection Hm' as <-. injection Hm'' as <-.
  apply update_patches_facts in Hx4. apply update_overlay_facts in Hx6.
  destruct Hx4. auto.
Qed.

(** The world after the record file at [sp] has been rewritten. *)
Section AfterWrite.

Variables (self : client) (m v : string) (w : world) (mods q : Path)
          (old text : bytes).

Hypothesis Hm : get_modules_dir json_loads self w = inr mods.
Hypothesis Hq :
  realpath (fs w) (version_dir mods m v ++ ["source.json"]) = Some q.
Hypothesis Hold : fs_get (fs w) q = Some (File true true old).

Let w1 : world := World (fs_put q (File true true text) (fs w)) (cwd w) (net w).

Lemma after_shape : shape (fs w1) = shape (fs w).
Proof. apply (shape_put_file _ _ _ _ _ _ _ _ Hold). Qed.

Lemma after_exists (p : Path) : path_exists p w1 = path_exists p w.
Proof.
  unfold path_exists. f_equal. apply stat_exists_same_shape. apply after_shape.
Qed.

Lemma after_modules_dir : get_modules_dir json_loads self w1 = inr mods.
Proof.
  revert Hm. unfold get_modules_dir, get_registry_config, bindR.
  destruct (joinpath_name (root self)) as [_ [_ [_ ->]]].
  assert (E : open_read (root self ++ ["bazel_registry.json"]) w1
              = open_read (root self ++ ["bazel_registry.json"]) w
              \/ exists e, open_read (root self ++ ["bazel_registry.json"]) w = inl e).
  { unfold open_read.
    destruct (stat (fs w) (root self ++ ["bazel_registry.json"]))
      as [[r wr d|es]|] eqn:Hs; try (right; eexists; reflexivity).
    left. simpl fs.
    rewrite (stat_other_file (fs w) _ _ q _ _ true true r wr old text d Hq Hold);
      [reflexivity| |exact Hs].
    intros Hc.
    apply realpath_child in Hq; [|discriminate]. destruct Hq as [qp [_ E1]].
    apply realpath_child in Hc; [|discriminate]. destruct Hc as [qp' [_ E2]].
    rewrite E1 in E2. apply app_inj_tail in E2. destruct E2 as [_ E2]. discriminate. }
  destruct E as [->|[e ->]]; [auto | discriminate].
Qed.

Lemma after_module_exists (version : option string) :
  module_exists json_loads self m version w1 = module_exists json_loads self m version w.
Proof.
  unfold module_exists, bindR. rewrite after_modules_dir, Hm.
  rewrite after_exists.
  destruct (path_exists (joinpath mods m) w) as [e|[|]]; try reflexivity.
  simpl. destruct version as [ver|]; [apply after_exists | reflexivity].
Qed.

Lemma after_source_text :
  open_read (version_dir mods m v ++ ["source.json"]) w1 = inr text.
Proof.
  unfold open_read, stat. simpl fs.
  rewrite (realpath_same_shape (fs w) (fs_put q (File true true text) (fs w)))
    by apply after_shape.
  rewrite Hq, (fs_get_put_same _ _ _ _ Hold). reflexivity.
Qed.

Lemma after_patches :
  stat (fs w1) (version_dir mods m v ++ ["patches"])
  = stat (fs w) (version_dir mods m v ++ ["patches"]).
Proof.
  apply (stat_sibling _ _ _ "source.json" _ _ _ _ _ _ _) with (4 := Hq) (5 := Hold);
    discriminate.
Qed.

Lemma after_overlay :
  stat (fs w1) (version_dir mods m v ++ ["overlay"])
  = stat (fs w) (version_dir mods m v ++ ["overlay"]).
Proof.
  apply (stat_sibling _ _ _ "source.json" _ _ _ _ _ _ _) with (4 := Hq) (5 := Hold);
    discriminate.
Qed.

(** Writing the text that the file holds changes nothing. *)
Lemma after_write_again :
  open_write (version_dir mods m v ++ ["source.json"]) text w1 = (inr tt, w1).
Proof.
  unfold open_write. simpl fs.
  rewrite (realpath_same_shape (fs w) (fs_put q (File true true text) (fs w)))
    by apply after_shape.
  rewrite Hq, (fs_get_put_same _ _ _ _ Hold).
  rewrite (fs_put_id q _ _ (fs_get_put_same _ _ _ _ Hold)). reflexivity.
Qed.

End AfterWrite.

End SecondRun.


Section Idempotence.

Variable hashlib : string -> bytes -> bytes.
Variable json_loads : bytes -> result json.
Variable json_dumps : json -> bool -> string.

(** What a second run computes, and what it writes where. *)
Lemma second_run_source (self : client) (m v : string) (w w1 : world) :
  update_integrity hashlib json_loads json_dumps self m v w = (inr tt, w1) ->
  (forall sp s, updated_source hashlib json_loads self m v w = inr (sp, s) ->
                json_loads (record_text json_dumps s) = inr s) ->
  (forall sp d url, updated_source hashlib json_loads self m v w = inr (sp, JObj d) ->
                    dict_get "url" d = Some url ->
                    download url w1 = download url w) ->
  exists sp s,
    updated_source hashlib json_loads self m v w = inr (sp, s) /\
    updated_source hashlib json_loads self m v w1 = inr (sp, s) /\
    open_write sp (record_text json_dumps s) w1 = (inr tt, w1) /\
    open_read sp w1 = inr (record_text json_dumps s).
Proof.
  intros H Hjson Hfetch.
  destruct (update_integrity_ok _ _ _ _ _ _ _ _ H) as [sp [s [q [old [Hu [Hq [Hold Hw1]]]]]]].
  destruct (updated_source_ok _ _ _ _ _ _ _ _ Hu)
    as [mods [d0 [d1 [Hm [Hex [Hsp [Hg [Ha Hs]]]]]]]].
  destruct (updated_source_reads _ _ _ _ _ _ _ _ _ Hu Hm) as [Hnf [Hrp Hro]].
  specialize (Hjson sp s Hu).
  destruct (joinpath_name (version_dir mods m v)) as [Es [Ep [Eo _]]].
  rewrite Es in Hsp. subst sp.
  rewrite Ep in Hnf, Hrp. rewrite Eo in Hro. rewrite Ep, Eo in Hs.
  set (P := version_dir mods m v ++ ["patches"]) in *.
  set (O := version_dir mods m v ++ ["overlay"]) in *.
  set (d2 := reconcile_field hashlib "overlay" (overlay_entries w O)
               (reconcile_field hashlib "patches" (patch_entries w P) d1)) in *.
  assert (Hurl : dict_get "url" d2 = dict_get "url" d1).
  { unfold d2. rewrite !reconcile_field_get_other by discriminate. reflexivity. }
  assert (Hint : dict_get "integrity" d2 = dict_get "integrity" d1).
  { unfold d2. rewrite !reconcile_field_get_other by discriminate. reflexivity. }
  assert (Hpat : dict_get "patches" d2 =
                 dict_get "patches" (reconcile_field hashlib "patches"
                                       (patch_entries w P) d1)).
  { unfold d2. rewrite reconcile_field_get_other by discriminate. reflexivity. }
  rewrite Hs in Hu.
  pose proof (after_modules_dir json_loads self m v w mods q old
                (record_text json_dumps s) Hm Hq Hold) as Hm1.
  pose proof (after_module_exists json_loads self m v w mods q old
                (record_text json_dumps s) Hm Hq Hold (Some v)) as Hex1.
  pose proof (after_exists w q old (record_text json_dumps s) Hold
                (version_dir mods m v ++ ["source.json"])) as Hsx1.
  pose proof (after_source_text m v w mods q old (record_text json_dumps s) Hq Hold)
    as Hrd1.
  pose proof (after_patches m v w mods q old (record_text json_dumps s) Hq Hold) as Hp1.
  pose proof (after_overlay m v w mods q old (record_text json_dumps s) Hq Hold) as Ho1.
  pose proof (after_write_again m v w mods q old (record_text json_dumps s) Hq Hold)
    as Hwr1.
  rewrite <- Hw1 in *. clear Hw1.
  assert (Hsx : path_exists (version_dir mods m v ++ ["source.json"]) w = inr true).
  { unfold path_exists, stat. rewrite Hq, Hold. reflexivity. }
  assert (Hpe : patch_entries w1 P = patch_entries w P)
    by (unfold patch_entries; fold P in Hp1; rewrite Hp1; reflexivity).
  assert (Hoe : overlay_entries w1 O = overlay_entries w O)
    by (unfold overlay_entries; fold O in Ho1; rewrite Ho1; reflexivity).
  assert (Hsrc : get_source json_loads self m v w1 = inr s).
  { unfold get_source, get_source_json_path, bindR, retR, lift.
    rewrite Hm1, Es, Hsx1, Hsx. simpl. rewrite Hrd1. exact Hjson. }
  assert (Harch : update_archive hashlib s w1 = inr s).
  { rewrite Hs, update_archive_eq. rewrite update_archive_eq in Ha.
    rewrite Hurl.
    destruct (dict_get "url" d0) as [url|] eqn:Hu0.
    - destruct (download url w) as [e|data] eqn:Hdl; [discriminate|].
      injection Ha as Hd1.
      assert (Hu1 : dict_get "url" d1 = Some url).
      { rewrite <- Hd1. rewrite dict_get_set_other by discriminate. exact Hu0. }
      rewrite Hu1, (Hfetch _ d2 url Hu), Hdl by (rewrite Hurl; exact Hu1).
      rewrite dict_set_id; [reflexivity|].
      rewrite Hint, <- Hd1. apply dict_get_set_same.
    - injection Ha as <-. rewrite Hu0. reflexivity. }
  assert (Hpas : update_patches hashlib P s w1 = inr s).
  { rewrite Hs, update_patches_run.
    - rewrite Hpe, (reconcile_field_again hashlib "patches" _ d1); [reflexivity|].
      exact Hpat.
    - fold P in Hp1. rewrite Hp1. exact Hnf.
    - rewrite Hpe. exact Hrp.
    - rewrite Hpat. apply reconcile_field_mapping. }
  assert (Hovs : update_overlay hashlib O s w1 = inr s).
  { rewrite Hs, update_overlay_run.
    - rewrite Hoe.
      rewrite (reconcile_field_again hashlib "overlay" _
                 (reconcile_field hashlib "patches" (patch_entries w P) d1));
        reflexivity.
    - rewrite Hoe. exact Hro.
    - unfold d2. apply reconcile_field_mapping. }
  assert (Hu1 : updated_source hashlib json_loads self m v w1
                = inr (version_dir mods m v ++ ["source.json"], s)).
  { unfold updated_source, bindR, retR.
    rewrite Hex1, Hex. cbv beta iota delta [negb].
    rewrite Hsrc.
    unfold get_source_json_path, get_patches_dir, get_overlay_dir, bindR, retR.
    rewrite Hm1, Ep, Eo, Es. fold P O.
    rewrite Harch, Hpas, Hovs. reflexivity. }
  exists (version_dir mods m v ++ ["source.json"]), s.
  rewrite <- Hs in Hu. auto.
Qed.


(** C2.  A second run right after a successful one leaves the record file,
    and the world, as the first run left them: it computes the record of the
    first run and writes its text over the same text.  It is taken that
    [json.load] reads the text the first run wrote back as the record it was
    written from, and that the bytes fetched from the record's [url] are those
    of the first run. *)
Theorem second_run_identical (self : client) (m v : string) (w w1 : world) :
  update_integrity hashlib json_loads json_dumps self m v w = (inr tt, w1) ->
  (forall sp s, updated_source hashlib json_loads self m v w = inr (sp, s) ->
                json_loads (record_text json_dumps s) = inr s) ->
  (forall sp d url, updated_source hashlib json_loads self m v w = inr (sp, JObj d) ->
                    dict_get "url" d = Some url ->
                    download url w1 = download url w) ->
  update_integrity hashlib json_loads json_dumps self m v w1 = (inr tt, w1) /\
  exists sp s,
    updated_source hashlib json_loads self m v w = inr (sp, s) /\
    updated_source hashlib json_loads self m v w1 = inr (sp, s) /\
    open_read sp w1 = inr (record_text json_dumps s).
Proof.
  intros H Hjson Hfetch.
  destruct (second_run_source self m v w w1 H Hjson Hfetch)
    as [sp [s [Hu [Hu1 [Hw Hr]]]]].
  split.
  - unfold update_integrity. rewrite Hu1. unfold json_dump. exact Hw.
  - exists sp, s. auto.
Qed.

End Idempotence.

Lemma second_run_identical_witness :
  let w1 := snd (py_update_integrity test_client "testmod" "1.0.0"
                   (test_world nested_entries)) in
  update_integrity Sha2.digest Json.loads Json.dumps test_client "testmod" "1.0.0" w1
  = (inr tt, w1) /\
  exists sp s,
    updated_source Sha2.digest Json.loads test_client "testmod" "1.0.0"
      (test_world nested_entries) = inr (sp, s) /\
    updated_source Sha2.digest Json.loads test_client "testmod" "1.0.0" w1
      = inr (sp, s) /\
    open_read sp w1 = inr (record_text Json.dumps s).
Proof.
  cbv zeta.
  apply (second_run_identical Sha2.digest Json.loads Json.dumps
           test_client "testmod" "1.0.0" (test_world nested_entries)).
  - vm_compute. reflexivity.
  - intros sp s Hu. vm_compute in Hu. injection Hu as <- <-. vm_compute. reflexivity.
  - intros sp d url Hu Hurl. vm_compute in Hu. injection Hu as <- <-.
    vm_compute in Hurl. injection Hurl as <-. vm_compute. reflexivity.
Defined.

(** ** Existence of modules and versions *)

Section Existence.

Variable json_loads : bytes -> result json.

(** What [module_exists] computes: whether the paths exist. *)
Lemma module_exists_spec (self : client) (m : string) (version : option string)
      (w : world) (mods : Path) :
  get_modules_dir json_loads self w = inr mods ->
  module_exists json_loads self m version w =
  inr (match stat (fs w) (joinpath mods m) with
       | None => false
       | Some _ =>
           match version with
           | None => true
           | Some v =>
               match stat (fs w) (joinpath (joinpath mods m) v) with
               | None => false
               | Some _ => true
               end
           end
       end).
Proof.
  intros Hm. unfold module_exists, bindR, path_exists, retR. rewrite Hm.
  destruct (stat (fs w) (joinpath mods m)); simpl; [|reflexivity].
  destruct version; reflexivity.
Qed.

End Existence.

(** C8, where the program departs from the claim.  In the test registry
    [README.md] is a regular file of the modules directory and
    [metadata.json] a regular file of the module directory: [module_exists]
    answers [True] for both, while the listings, which keep directories
    only, leave them out, and listing the versions of [README.md] fails. *)
Theorem module_exists_counts_files :
  stat (test_tree test_entries) (test_modules ++ ["README.md"])
    = Some (regular "notes") /\
  py_module_exists test_client "README.md" None (test_world test_entries) = inr true /\
  py_get_all_modules test_client (test_world test_entries) = inr ["testmod"] /\
  get_module_versions Json.loads test_client "README.md" (test_world test_entries)
    = inl (OSError NotADirectoryError) /\
  stat (test_tree test_entries) (test_modules ++ ["testmod"; "metadata.json"])
    = Some (regular "{}") /\
  py_module_exists test_client "testmod" (Some "metadata.json") (test_world test_entries)
    = inr true /\
  get_module_versions Json.loads test_client "testmod" (test_world test_entries)
    = inr ["1.0.0"].
Proof. repeat split; vm_compute; reflexivity. Qed.


(** ** The JSON instance reads back what it writes *)

Lemma append_assoc (a b c : string) : (a +++ b) +++ c = a +++ (b +++ c).
Proof. induction a as [|x a IH]; simpl; [reflexivity | rewrite IH; reflexivity]. Qed.

Lemma scan_app (a b : string) :
  forall st, Json.scan (a +++ b) st = Json.scan b (Json.scan a st).
Proof. induction a as [|c a IH]; intros st; simpl; [reflexivity | apply IH]. Qed.

Lemma scan_indent (level : nat) (rest : string) (acc : list Json.token) :
  Json.scan (Json.indent level +++ rest) (Some (acc, Json.Idle))
  = Json.scan rest (Some (acc, Json.Idle)).
Proof. induction level as [|l IH]; simpl; [reflexivity | exact IH]. Qed.

Lemma scan_line (level : nat) (rest : string) (acc : list Json.token) :
  Json.scan (Json.line level +++ rest) (Some (acc, Json.Idle))
  = Json.scan rest (Some (acc, Json.Idle)).
Proof. unfold Json.line. simpl. apply scan_indent. Qed.

(** One character of a string, escaped, is read back as itself. *)
Lemma scan_escape_char (c : ascii) (rest : string) (acc : list Json.token)
      (pre : string) :
  Json.scan (Json.escape_char c +++ rest) (Some (acc, Json.InStr pre))
  = Json.scan rest (Some (acc, Json.InStr (Json.snoc pre c))).
Proof.
  destruct c as [[|] [|] [|] [|] [|] [|] [|] [|]]; reflexivity.
Qed.

Lemma scan_escape (s : string) :
  forall (rest : string) (acc : list Json.token) (pre : string),
    Json.scan (Json.escape s +++ rest) (Some (acc, Json.InStr pre))
    = Json.scan rest (Some (acc, Json.InStr (pre +++ s))).
Proof.
  induction s as [|c s IH]; intros rest acc pre; simpl.
  - replace (pre +++ "") with pre; [reflexivity|].
    induction pre as [|x pre IHp]; simpl; [reflexivity | rewrite <- IHp; reflexivity].
  - rewrite append_assoc, scan_escape_char, IH.
    unfold Json.snoc. rewrite append_assoc. reflexivity.
Qed.

Lemma scan_quoted (s rest : string) (acc : list Json.token) :
  Json.scan (Json.quoted s +++ rest) (Some (acc, Json.Idle))
  = Json.scan rest (Some (Json.TString s :: acc, Json.Idle)).
Proof.
  unfold Json.quoted. cbn [String.append Json.scan].
  change (Json.scan_step (Some (acc, Json.Idle)) Json.quote)
    with (Some (acc, Json.InStr "")).
  rewrite append_assoc, scan_escape. simpl. reflexivity.
Qed.

(** *** Numbers and keywords *)

Lemma scan_idle_word (c : ascii) (acc : list Json.token) :
  Json.is_word c = true ->
  Json.scan_idle acc c = Some (acc, Json.InWord (String c "")).
Proof.
  destruct c as [[|] [|] [|] [|] [|] [|] [|] [|]]; intros H;
    first [discriminate H | reflexivity].
Qed.

Lemma scan_word_more (s : string) :
  forall (rest : string) (acc : list Json.token) (pre : string),
    all_word s = true ->
    Json.scan (s +++ rest) (Some (acc, Json.InWord pre))
    = Json.scan rest (Some (acc, Json.InWord (pre +++ s))).
Proof.
  induction s as [|c s IH]; intros rest acc pre Hs; simpl.
  - replace (pre +++ "") with pre; [reflexivity|].
    induction pre as [|x pre IHp]; simpl; [reflexivity | rewrite <- IHp; reflexivity].
  - simpl in Hs. apply andb_true_iff in Hs. destruct Hs as [Hc Hs].
    rewrite Hc, IH by exact Hs.
    unfold Json.snoc. rewrite append_assoc. reflexivity.
Qed.

(** A number or a keyword, followed by a character that ends it, is read
    as its token. *)
Lemma scan_word (s rest : string) (acc : list Json.token) (t : Json.token) :
  s <> "" -> all_word s = true -> Json.word_token s = Some t -> ends_word rest ->
  Json.scan (s +++ rest) (Some (acc, Json.Idle))
  = Json.scan rest (Some (t :: acc, Json.Idle)).
Proof.
  intros Hne Hs Ht [c [r [-> Hc]]].
  destruct s as [|c0 s]; [congruence|].
  simpl in Hs. apply andb_true_iff in Hs. destruct Hs as [Hc0 Hs].
  simpl. rewrite (scan_idle_word _ _ Hc0), scan_word_more by exact Hs.
  simpl in *. rewrite Hc, Ht. reflexivity.
Qed.

Lemma all_word_uint (d : Decimal.uint) : all_word (NilEmpty.string_of_uint d) = true.
Proof. induction d; simpl; try reflexivity; exact IHd. Qed.

Lemma all_word_decimal (z : Z) : all_word (Json.decimal z) = true /\ Json.decimal z <> "".
Proof.
  unfold Json.decimal.
  assert (Hu : forall d, all_word (NilZero.string_of_uint d) = true
                         /\ NilZero.string_of_uint d <> "").
  { intros d. unfold NilZero.string_of_uint. destruct d; simpl;
      try (split; [apply all_word_uint | discriminate]).
    split; [reflexivity | discriminate]. }
  destruct (Z.to_int z) as [d|d]; simpl.
  - apply Hu.
  - split; [apply Hu | discriminate].
Qed.

Lemma word_token_decimal (z : Z) :
  Json.word_token (Json.decimal z) = Some (Json.TLit (JInt z)).
Proof.
  unfold Json.word_token, Json.decimal at 1.
  rewrite NilZero.isi.
  - rewrite DecimalZ.of_to. rewrite String.eqb_refl. reflexivity.
  - destruct z; simpl; try discriminate.
    intros [= E]. apply (DecimalPos.Unsigned.to_uint_nonnil _ E).
  - destruct z; simpl; try discriminate.
    intros [= E]. apply (DecimalPos.Unsigned.to_uint_nonnil _ E).
Qed.

Lemma json_induction (P : json -> Prop) :
  P JNull -> (forall b, P (JBool b)) -> (forall z, P (JInt z)) ->
  (forall r, P (JFloat r)) -> (forall s, P (JStr s)) ->
  (forall l, (forall x, In x l -> P x) -> P (JArr l)) ->
  (forall fs, (forall k x, In (k, x) fs -> P x) -> P (JObj fs)) ->
  forall v, P v.
Proof.
  intros Hn Hb Hi Hf Hs Ha Ho. fix IH 1.
  intros [| b | z | r | s | l | fs];
    [exact Hn | apply Hb | apply Hi | apply Hf | apply Hs | | ].
  - apply Ha. induction l as [|y l IHl]; intros x Hin; [destruct Hin|].
    destruct Hin as [<-|Hin]; [apply IH | apply (IHl x Hin)].
  - apply Ho. induction fs as [|[k' y] fs IHl]; intros k x Hin; [destruct Hin|].
    destruct Hin as [Heq|Hin]; [injection Heq as _ <-; apply IH | apply (IHl k x Hin)].
Qed.

Lemma json_ok_arr (l : list json) (x : json) :
  json_ok (JArr l) = true -> In x l -> json_ok x = true.
Proof. simpl. rewrite forallb_forall. auto. Qed.

Lemma json_ok_obj (fs : list (string * json)) :
  json_ok (JObj fs) = true ->
  distinct (map fst fs) = true /\ forall k x, In (k, x) fs -> json_ok x = true.
Proof.
  simpl. rewrite andb_true_iff, forallb_forall. intros [Hd Hall].
  split; [exact Hd|]. intros k x Hin. apply (Hall (k, x) Hin).
Qed.

Lemma ends_word_line (level : nat) (rest : string) :
  ends_word (Json.line level +++ rest).
Proof. unfold Json.line. simpl. eexists _, _. split; reflexivity. Qed.

Lemma ends_word_comma (rest : string) : ends_word ("," +++ rest).
Proof. simpl. eexists _, _. split; reflexivity. Qed.

Lemma ends_word_join {A : Type} (item : A -> string) (level : nat) (l : list A)
      (rest : string) :
  ends_word rest -> ends_word (Json.join_items item level l +++ rest).
Proof.
  intros H. destruct l as [|y l]; [exact H|].
  cbn [Json.join_items]. rewrite append_assoc. apply ends_word_comma.
Qed.

(** The items after the first of a list, and of a dictionary. *)
Lemma scan_join_arr (level : nat) (xs : list json) :
  (forall x, In x xs ->
     forall rest acc, ends_word rest ->
       Json.scan (Json.dumps_at level x +++ rest) (Some (acc, Json.Idle))
       = Json.scan rest (Some (rev (toks x) ++ acc, Json.Idle))) ->
  forall rest acc, ends_word rest ->
    Json.scan (Json.join_items (Json.dumps_at level) level xs +++ rest)
              (Some (acc, Json.Idle))
    = Json.scan rest
        (Some (rev (flat_map (fun y => Json.TComma :: toks y) xs) ++ acc, Json.Idle)).
Proof.
  induction xs as [|y xs IH]; intros Hall rest acc Hr; [reflexivity|].
  cbn [Json.join_items flat_map].
  rewrite !append_assoc. cbn [String.append Json.scan].
  change (Json.scan_step (Some (acc, Json.Idle)) ","%char)
    with (Some (Json.TComma :: acc, Json.Idle)).
  rewrite scan_line.
  rewrite (Hall y (or_introl eq_refl)) by (apply ends_word_join; exact Hr).
  rewrite IH; [|intros x Hx; apply Hall; right; exact Hx | exact Hr].
  f_equal. f_equal. f_equal.
  change (Json.TComma :: toks y ++ flat_map (fun y0 => Json.TComma :: toks y0) xs)
    with ((Json.TComma :: toks y) ++ flat_map (fun y0 => Json.TComma :: toks y0) xs).
  rewrite rev_app_distr. simpl. rewrite <- !app_assoc. reflexivity.
Qed.

Lemma scan_join_obj (level : nat) (fs : list (string * json)) :
  (forall k x, In (k, x) fs ->
     forall rest acc, ends_word rest ->
       Json.scan (Json.dumps_at level x +++ rest) (Some (acc, Json.Idle))
       = Json.scan rest (Some (rev (toks x) ++ acc, Json.Idle))) ->
  forall rest acc, ends_word rest ->
    Json.scan (Json.join_items
                 (fun kv => let '(k', y) := kv in
                            Json.quoted k' +++ ": " +++ Json.dumps_at level y)
                 level fs +++ rest)
              (Some (acc, Json.Idle))
    = Json.scan rest
        (Some (rev (flat_map
                      (fun kv => let '(k', y) := kv in
                                 Json.TComma :: Json.TString k' :: Json.TColon :: toks y)
                      fs) ++ acc, Json.Idle)).
Proof.
  induction fs as [|[k y] fs IH]; intros Hall rest acc Hr; [reflexivity|].
  cbn [Json.join_items flat_map].
  rewrite !append_assoc. cbn [String.append Json.scan].
  change (Json.scan_step (Some (acc, Json.Idle)) ","%char)
    with (Some (Json.TComma :: acc, Json.Idle)).
  rewrite scan_line, scan_quoted. cbn [String.append Json.scan].
  change (Json.scan_step (Some (Json.TString k :: Json.TComma :: acc, Json.Idle)) ":"%char)
    with (Some (Json.TColon :: Json.TString k :: Json.TComma :: acc, Json.Idle)).
  change (Json.scan_step
            (Some (Json.TColon :: Json.TString k :: Json.TComma :: acc, Json.Idle))
            " "%char)
    with (Some (Json.TColon :: Json.TString k :: Json.TComma :: acc, Json.Idle)).
  rewrite (Hall k y (or_introl eq_refl)) by (apply ends_word_join; exact Hr).
  rewrite IH; [|intros k' x Hx; apply (Hall k'); right; exact Hx | exact Hr].
  f_equal. f_equal. f_equal.
  change (Json.TComma :: Json.TString k :: Json.TColon :: toks y ++ ?l)
    with ((Json.TComma :: Json.TString k :: Json.TColon :: toks y) ++ l).
  rewrite rev_app_distr. simpl. rewrite <- !app_assoc. reflexivity.
Qed.

(** The scanner reads the text of a value as its tokens. *)
Lemma scan_value (v : json) :
  json_ok v = true ->
  forall level rest acc, ends_word rest ->
    Json.scan (Json.dumps_at level v +++ rest) (Some (acc, Json.Idle))
    = Json.scan rest (Some (rev (toks v) ++ acc, Json.Idle)).
Proof.
  induction v as [| b | z | r | s | l IH | fs IH] using json_induction;
    intros Hok level rest acc Hr.
  - apply scan_word; [discriminate | reflexivity | reflexivity | exact Hr].
  - destruct b; apply scan_word;
      [discriminate | reflexivity | reflexivity | exact Hr
      |discriminate | reflexivity | reflexivity | exact Hr].
  - cbn [Json.dumps_at toks]. destruct (all_word_decimal z) as [Ha Hne].
    apply scan_word; [exact Hne | exact Ha | apply word_token_decimal | exact Hr].
  - discriminate Hok.
  - apply scan_quoted.
  - destruct l as [|x xs]; [reflexivity|].
    cbn [Json.dumps_at toks].
    rewrite !append_assoc. cbn [String.append Json.scan].
    change (Json.scan_step (Some (acc, Json.Idle)) "["%char)
      with (Some (Json.TLBrack :: acc, Json.Idle)).
    rewrite scan_line.
    rewrite (IH x (or_introl eq_refl))
      by (try apply ends_word_join; try apply ends_word_line;
          apply (json_ok_arr _ _ Hok); left; reflexivity).
    rewrite scan_join_arr.
    + rewrite scan_line. cbn [String.append Json.scan].
      f_equal. cbn [Json.scan_step Json.scan_idle]. simpl.
      change (Json.TLBrack :: toks x
                ++ flat_map (fun y => Json.TComma :: toks y) xs ++ [Json.TRBrack])
        with ((Json.TLBrack :: toks x)
                ++ flat_map (fun y => Json.TComma :: toks y) xs ++ [Json.TRBrack]).
      rewrite !rev_app_distr. simpl. rewrite <- !app_assoc. reflexivity.
    + intros y Hy rest' acc' Hr'. apply (IH y); [right; exact Hy | | exact Hr'].
      apply (json_ok_arr _ _ Hok). right. exact Hy.
    + apply ends_word_line.
  - destruct fs as [|[k x] fs]; [reflexivity|].
    destruct (json_ok_obj _ Hok) as [_ Hall].
    cbn [Json.dumps_at toks].
    rewrite !append_assoc. cbn [String.append Json.scan].
    change (Json.scan_step (Some (acc, Json.Idle)) "{"%char)
      with (Some (Json.TLBrace :: acc, Json.Idle)).
    rewrite scan_line, scan_quoted. cbn [String.append Json.scan].
    change (Json.scan_step (Some (Json.TString k :: Json.TLBrace :: acc, Json.Idle))
                           ":"%char)
      with (Some (Json.TColon :: Json.TString k :: Json.TLBrace :: acc, Json.Idle)).
    change (Json.scan_step
              (Some (Json.TColon :: Json.TString k :: Json.TLBrace :: acc, Json.Idle))
              " "%char)
      with (Some (Json.TColon :: Json.TString k :: Json.TLBrace :: acc, Json.Idle)).
    rewrite (IH k x (or_introl eq_refl))
      by (try apply ends_word_join; try apply ends_word_line;
          apply (Hall k x); left; reflexivity).
    etransitivity.
    { apply (scan_join_obj (S level) fs); [|apply ends_word_line].
      intros k' y Hy rest' acc' Hr'. apply (IH k' y); [right; exact Hy | | exact Hr'].
      apply (Hall k' y). right. exact Hy. }
    rewrite scan_line. cbn [String.append Json.scan].
    f_equal. simpl.
    change (Json.TLBrace :: Json.TString k :: Json.TColon :: toks x ++ ?l)
      with ((Json.TLBrace :: Json.TString k :: Json.TColon :: toks x) ++ l).
    rewrite !rev_app_distr. simpl. rewrite <- !app_assoc. reflexivity.
Qed.

Lemma tokens_dumps (v : json) :
  json_ok v = true ->
  Json.tokens (json_text v) = Some (toks v).
Proof.
  intros Hok. unfold Json.tokens, json_text, Json.dumps.
  rewrite (scan_value v Hok 0 _ []).
  - simpl. rewrite app_nil_r, rev_involutive. reflexivity.
  - eexists _, _. split; reflexivity.
Qed.

(** *** The parser *)

Lemma toks_starts (v : json) :
  exists t ts, toks v = t :: ts /\ t <> Json.TRBrack /\ t <> Json.TRBrace.
Proof.
  destruct v as [| b | z | r | s | [|x xs] | [|[k x] fs]]; simpl;
    eexists _, _; (split; [reflexivity | split; discriminate]).
Qed.

Lemma parse_value_open (f : nat) (t : Json.token) (ts : list Json.token) :
  t <> Json.TRBrack ->
  Json.parse_value (S f) (Json.TLBrack :: t :: ts) = Json.parse_items f (t :: ts) [].
Proof. intros H. destruct t; try reflexivity. congruence. Qed.

Lemma dict_set_fresh (k : string) (v : json) (d : dict) :
  ~ In k (dict_keys d) -> dict_set k v d = d ++ [(k, v)].
Proof.
  unfold dict_keys. induction d as [|[k' v'] d IH]; intros H; [reflexivity|].
  simpl in *. destruct (String.eqb k k') eqn:E.
  - apply String.eqb_eq in E. subst. exfalso. auto.
  - rewrite IH by auto. reflexivity.
Qed.

Lemma distinct_cons (x : string) (l : list string) :
  distinct (x :: l) = true <-> ~ In x l /\ distinct l = true.
Proof.
  simpl. rewrite andb_true_iff, negb_true_iff. split.
  - intros [Hn Hd]. split; [apply distinct_not_in; exact Hn | exact Hd].
  - intros [Hn Hd]. split; [|exact Hd].
    destruct (existsb (String.eqb x) l) eqn:E; [|reflexivity].
    apply existsb_exists in E. destruct E as [y [Hy E]].
    apply String.eqb_eq in E. subst. contradiction.
Qed.

Lemma distinct_app (a b : list string) :
  distinct (a ++ b) = true <->
  distinct a = true /\ distinct b = true /\ forall x, In x a -> ~ In x b.
Proof.
  induction a as [|x a IH].
  - simpl. intuition.
  - cbn [app]. rewrite !distinct_cons, IH, in_app_iff. simpl. split.
    + intros [Hn [Ha [Hb Hab]]]. repeat split; auto.
      intros y [<-|Hy]; auto.
    + intros [[Hn Ha] [Hb Hab]]. repeat split; auto.
      intros [H|H]; [auto | apply (Hab x); auto].
Qed.

(** [dict(pairs)] of pairs with distinct keys is the list of the pairs. *)
Lemma dict_of_distinct (l : list (string * json)) :
  forall acc, distinct (map fst (acc ++ l)) = true ->
              fold_left (fun d kv => dict_set (fst kv) (snd kv) d) l acc = acc ++ l.
Proof.
  induction l as [|[k v] l IH]; intros acc Hd; simpl.
  - rewrite app_nil_r. reflexivity.
  - rewrite dict_set_fresh.
    + rewrite IH; rewrite <- app_assoc; [reflexivity | exact Hd].
    + rewrite map_app in Hd. apply distinct_app in Hd.
      destruct Hd as [_ [_ Hd]]. intros Hin. apply (Hd k Hin). left. reflexivity.
Qed.

Lemma parse_items_toks (xs : list json) :
  (forall y, In y xs ->
     forall fuel rest, length (toks y) <= fuel ->
       Json.parse_value fuel (toks y ++ rest) = Some (y, rest)) ->
  forall x acc fuel rest,
    (forall fuel rest, length (toks x) <= fuel ->
       Json.parse_value fuel (toks x ++ rest) = Some (x, rest)) ->
    length (toks x ++ flat_map (fun y => Json.TComma :: toks y) xs) < fuel ->
    Json.parse_items fuel
      (toks x ++ flat_map (fun y => Json.TComma :: toks y) xs ++ Json.TRBrack :: rest) acc
    = Some (JArr (rev acc ++ x :: xs), rest).
Proof.
  induction xs as [|y ys IH]; intros Hall x acc fuel rest Hx Hf;
    (destruct fuel as [|f]; [inversion Hf|]); cbn [Json.parse_items flat_map].
  - simpl in *. rewrite app_nil_r in Hf. rewrite Hx by lia. reflexivity.
  - rewrite length_app in Hf. cbn [flat_map] in Hf. rewrite Hx by lia.
    cbn [app]. rewrite <- app_assoc.
    rewrite (IH (fun z Hz => Hall z (or_intror Hz)) y (x :: acc) f rest
               (Hall y (or_introl eq_refl))).
    + simpl. rewrite <- app_assoc. reflexivity.
    + simpl in Hf. rewrite length_app in *. lia.
Qed.

Lemma parse_fields_toks (fs : list (string * json)) :
  (forall k y, In (k, y) fs ->
     forall fuel rest, length (toks y) <= fuel ->
       Json.parse_value fuel (toks y ++ rest) = Some (y, rest)) ->
  forall k x acc fuel rest,
    (forall fuel rest, length (toks x) <= fuel ->
       Json.parse_value fuel (toks x ++ rest) = Some (x, rest)) ->
    length (toks x ++
            flat_map (fun kv => let '(k', y) := kv in
                                Json.TComma :: Json.TString k' :: Json.TColon :: toks y)
                     fs) < fuel ->
    Json.parse_fields fuel
      (Json.TString k :: Json.TColon :: toks x ++
       flat_map (fun kv => let '(k', y) := kv in
                           Json.TComma :: Json.TString k' :: Json.TColon :: toks y) fs ++
       Json.TRBrace :: rest) acc
    = Some (JObj (Json.dict_of (rev acc ++ (k, x) :: fs)), rest).
Proof.
  induction fs as [|[k' y] fs IH]; intros Hall k x acc fuel rest Hx Hf;
    (destruct fuel as [|f]; [inversion Hf|]); cbn [Json.parse_fields flat_map].
  - simpl in *. rewrite app_nil_r in Hf. rewrite Hx by lia. reflexivity.
  - rewrite length_app in Hf. cbn [flat_map] in Hf. rewrite Hx by lia.
    cbn [app]. rewrite <- app_assoc.
    rewrite (IH (fun k0 z Hz => Hall k0 z (or_intror Hz)) k' y ((k, x) :: acc) f rest
               (Hall k' y (or_introl eq_refl))).
    + simpl. rewrite <- app_assoc. reflexivity.
    + simpl in Hf. rewrite length_app in *. simpl in Hf. lia.
Qed.

(** The parser reads the tokens of a value as the value. *)
Lemma parse_toks (v : json) :
  json_ok v = true ->
  forall fuel rest, length (toks v) <= fuel ->
    Json.parse_value fuel (toks v ++ rest) = Some (v, rest).
Proof.
  induction v as [| b | z | r | s | l IH | fs IH] using json_induction;
    intros Hok fuel rest Hf;
    (destruct fuel as [|f]; [simpl in Hf; try destruct l as [|? ?];
                             try destruct fs as [|[? ?] ?]; simpl in Hf; lia|]);
    try reflexivity.
  - destruct l as [|x xs]; [reflexivity|].
    cbn [toks].
    replace ((Json.TLBrack :: toks x
                ++ flat_map (fun y => Json.TComma :: toks y) xs ++ [Json.TRBrack]) ++ rest)
      with (Json.TLBrack :: toks x
              ++ flat_map (fun y => Json.TComma :: toks y) xs ++ Json.TRBrack :: rest)
      by (simpl; rewrite <- !app_assoc; reflexivity).
    destruct (toks_starts x) as [t [ts [Et [Ht _]]]].
    rewrite Et. cbn [app]. rewrite parse_value_open by exact Ht.
    change (t :: ts ++ ?l) with ((t :: ts) ++ l). rewrite <- Et.
    rewrite parse_items_toks; [reflexivity | | |].
    + intros y Hy. apply (IH y); [right; exact Hy|].
      apply (json_ok_arr _ _ Hok). right. exact Hy.
    + apply (IH x); [left; reflexivity|].
      apply (json_ok_arr _ _ Hok). left. reflexivity.
    + cbn [toks] in Hf. simpl in Hf. rewrite !length_app in *. simpl in Hf. lia.
  - destruct fs as [|[k x] fs]; [reflexivity|].
    destruct (json_ok_obj _ Hok) as [Hd Hall].
    cbn [toks].
    replace ((Json.TLBrace :: Json.TString k :: Json.TColon :: toks x
                ++ flat_map (fun kv => let '(k', y) := kv in
                                       Json.TComma :: Json.TString k' :: Json.TColon
                                                   :: toks y) fs
                ++ [Json.TRBrace]) ++ rest)
      with (Json.TLBrace :: Json.TString k :: Json.TColon :: toks x
              ++ flat_map (fun kv => let '(k', y) := kv in
                                     Json.TComma :: Json.TString k' :: Json.TColon
                                                 :: toks y) fs
              ++ Json.TRBrace :: rest)
      by (simpl; rewrite <- !app_assoc; reflexivity).
    cbn [Json.parse_value].
    rewrite parse_fields_toks.
    + unfold Json.dict_of. cbn [rev app].
      rewrite (dict_of_distinct _ []) by exact Hd. reflexivity.
    + intros k' y Hy. apply (IH k' y); [right; exact Hy|].
      apply (Hall k' y). right. exact Hy.
    + apply (IH k x); [left; reflexivity|].
      apply (Hall k x). left. reflexivity.
    + cbn [toks] in Hf. simpl in Hf. rewrite !length_app in *. simpl in Hf. lia.
Qed.

(** The JSON instance reads the text of a record back as the record. *)
Lemma loads_dumps (v : json) :
  json_ok v = true -> Json.loads (json_text v) = inr v.
Proof.
  intros Hok. unfold Json.loads. rewrite (tokens_dumps v Hok).
  rewrite <- (app_nil_r (toks v)) at 2.
  rewrite (parse_toks v Hok) by lia. reflexivity.
Qed.

(** *** What the instance reads is a record it reads back *)

Lemma json_ok_dict (d : dict) :
  json_ok (JObj d) = true <-> distinct (dict_keys d) = true /\ values_ok d.
Proof.
  unfold values_ok, dict_keys. simpl. rewrite andb_true_iff, forallb_forall, Forall_forall.
  split; intros [Hd Hv]; (split; [exact Hd|]); intros [k x] Hin; apply (Hv (k, x) Hin).
Qed.

Lemma dict_keys_set_fresh (k : string) (v : json) (d : dict) :
  dict_keys (dict_set k v d) = dict_keys d \/
  (~ In k (dict_keys d) /\ dict_keys (dict_set k v d) = dict_keys d ++ [k]).
Proof.
  unfold dict_keys. induction d as [|[k' v'] d IH]; simpl.
  - right. auto.
  - destruct (String.eqb k k') eqn:E; simpl.
    + apply String.eqb_eq in E. subst. left. reflexivity.
    + apply String.eqb_neq in E. destruct IH as [->|[Hn ->]].
      * left. reflexivity.
      * right. split; [|reflexivity]. intros [H|H]; [congruence | contradiction].
Qed.

Lemma json_ok_set (k : string) (v : json) (d : dict) :
  json_ok (JObj d) = true -> json_ok v = true -> json_ok (JObj (dict_set k v d)) = true.
Proof.
  rewrite !json_ok_dict. intros [Hd Hv] Hok. split.
  - destruct (dict_keys_set_fresh k v d) as [->|[Hn ->]]; [exact Hd|].
    apply distinct_app. split; [exact Hd|]. split; [reflexivity|].
    intros x Hx [<-|[]]. contradiction.
  - unfold values_ok in *. clear Hd.
    induction d as [|[k' v'] d IH]; simpl.
    + constructor; [exact Hok | constructor].
    + inversion Hv as [|? ? Hv1 Hv2]; subst.
      destruct (String.eqb k k'); constructor; auto.
Qed.

Lemma distinct_filter (f : string -> bool) (l : list string) :
  distinct l = true -> distinct (filter f l) = true.
Proof.
  induction l as [|x l IH]; [reflexivity|].
  rewrite distinct_cons. intros [Hn Hd]. simpl.
  destruct (f x); [|apply IH; exact Hd].
  apply distinct_cons. split; [|apply IH; exact Hd].
  intros Hin. apply filter_In in Hin. destruct Hin. contradiction.
Qed.

Lemma json_ok_pop (k : string) (d : dict) :
  json_ok (JObj d) = true -> json_ok (JObj (dict_pop k d)) = true.
Proof.
  rewrite !json_ok_dict. unfold dict_pop, dict_keys, values_ok. intros [Hd Hv]. split.
  - clear Hv. induction d as [|[k' v'] d IH]; [reflexivity|].
    simpl in Hd. change (distinct (k' :: map fst d) = true) in Hd.
    apply distinct_cons in Hd. destruct Hd as [Hn Hd]. simpl.
    destruct (negb (String.eqb k k')); [|apply IH; exact Hd].
    cbn [map fst]. apply distinct_cons. split; [|apply IH; exact Hd].
    intros Hin. apply Hn. apply in_map_iff in Hin. destruct Hin as [[k0 v0] [E Hin]].
    apply filter_In in Hin. destruct Hin as [Hin _]. simpl in E. subst.
    apply (in_map fst _ _ Hin).
  - apply Forall_forall. intros kv Hin. apply filter_In in Hin. destruct Hin as [Hin _].
    rewrite Forall_forall in Hv. apply (Hv kv Hin).
Qed.

Lemma json_ok_dict_of (pairs : list (string * json)) :
  values_ok pairs -> json_ok (JObj (Json.dict_of pairs)) = true.
Proof.
  unfold Json.dict_of. intros Hv.
  assert (H : forall acc, json_ok (JObj acc) = true ->
                          json_ok (JObj (fold_left (fun d kv => dict_set (fst kv) (snd kv) d)
                                                   pairs acc)) = true).
  { induction Hv as [|kv l Hk Hl IH]; intros acc Hacc; [exact Hacc|].
    simpl. apply IH. apply json_ok_set; assumption. }
  apply H. reflexivity.
Qed.

Lemma word_token_good (w : string) (t : Json.token) :
  Json.word_token w = Some t -> tok_good t.
Proof.
  unfold Json.word_token. destruct (NilZero.int_of_string w) as [d|].
  - destruct (_ || _); intros [= <-]. reflexivity.
  - repeat (destruct (String.eqb w _); [intros [= <-]; reflexivity|]).
    discriminate.
Qed.

Lemma scan_idle_good (toks0 : list Json.token) (c : ascii)
      (toks1 : list Json.token) (mode : Json.mode) :
  Forall tok_good toks0 -> Json.scan_idle toks0 c = Some (toks1, mode) ->
  Forall tok_good toks1.
Proof.
  intros H. unfold Json.scan_idle.
  repeat match goal with
         | |- context [if ?b then _ else _] => destruct b
         end;
    intros [= <- <-] || discriminate; repeat constructor; exact H.
Qed.

Lemma scan_step_good (st : option (list Json.token * Json.mode)) (c : ascii)
      (toks1 : list Json.token) (mode : Json.mode) :
  (forall toks0 m, st = Some (toks0, m) -> Forall tok_good toks0) ->
  Json.scan_step st c = Some (toks1, mode) -> Forall tok_good toks1.
Proof.
  intros H. destruct st as [[toks0 m]|]; [|discriminate].
  specialize (H toks0 m eq_refl). destruct m as [|acc|acc|acc|acc hex]; simpl.
  - apply scan_idle_good. exact H.
  - destruct (Json.is_word c); [intros [= <- <-]; exact H|].
    destruct (Json.word_token acc) as [t|] eqn:Et; [|discriminate].
    apply scan_idle_good. constructor; [apply (word_token_good _ _ Et) | exact H].
  - repeat match goal with
           | |- context [if ?b then _ else _] => destruct b
           end;
      intros [= <- <-] || discriminate; repeat constructor; exact H.
  - destruct (Ascii.eqb c "u"); [intros [= <- <-]; exact H|].
    destruct (Json.unescape c); [intros [= <- <-]; exact H | discriminate].
  - destruct (Json.hex_value c) as [d|]; [|discriminate].
    destruct hex as [|a [|b [|e [|x hex]]]]; try (intros [= <- <-]; exact H).
    destruct (_ && _)%bool; [intros [= <- <-]; exact H | discriminate].
Qed.

Lemma scan_good (s : string) :
  forall st toks1 mode,
    (forall toks0 m, st = Some (toks0, m) -> Forall tok_good toks0) ->
    Json.scan s st = Some (toks1, mode) -> Forall tok_good toks1.
Proof.
  induction s as [|c s IH]; intros st toks1 mode H Hs; simpl in Hs.
  - apply (H toks1 mode Hs).
  - apply (IH _ _ _ (fun t m E => scan_step_good st c t m H E) Hs).
Qed.

Lemma initial_good (toks0 : list Json.token) (m : Json.mode) :
  Some (@nil Json.token, Json.Idle) = Some (toks0, m) -> Forall tok_good toks0.
Proof. intros [= <- <-]. constructor. Qed.

Lemma tokens_good (s : string) (ts : list Json.token) :
  Json.tokens s = Some ts -> Forall tok_good ts.
Proof.
  unfold Json.tokens.
  destruct (Json.scan s (Some ([], Json.Idle))) as [[toks1 mode]|] eqn:Hs; [|discriminate].
  assert (Hg : Forall tok_good toks1).
  { apply (scan_good _ _ _ _ (fun t m E => initial_good t m E) Hs). }
  destruct mode as [|acc|acc|acc|acc hex]; try discriminate.
  - intros [= <-]. apply Forall_rev. exact Hg.
  - destruct (Json.word_token acc) as [t|] eqn:Et; [|discriminate].
    intros [= <-]. apply Forall_app. split; [apply Forall_rev; exact Hg|].
    constructor; [apply (word_token_good _ _ Et) | constructor].
Qed.

Lemma json_ok_arr_intro (l : list json) :
  Forall (fun x => json_ok x = true) l -> json_ok (JArr l) = true.
Proof. simpl. rewrite forallb_forall, Forall_forall. auto. Qed.

Lemma tok_good_tail (t : Json.token) (ts : list Json.token) :
  Forall tok_good (t :: ts) -> Forall tok_good ts.
Proof. intros H. inversion H. assumption. Qed.

(** What the parser returns is a record the instance reads back. *)
Lemma parse_good (fuel : nat) :
  (forall ts v r, Forall tok_good ts -> Json.parse_value fuel ts = Some (v, r) ->
                  json_ok v = true /\ Forall tok_good r) /\
  (forall ts acc v r,
      Forall tok_good ts -> Forall (fun x => json_ok x = true) acc ->
      Json.parse_items fuel ts acc = Some (v, r) ->
      json_ok v = true /\ Forall tok_good r) /\
  (forall ts acc v r,
      Forall tok_good ts -> values_ok acc ->
      Json.parse_fields fuel ts acc = Some (v, r) ->
      json_ok v = true /\ Forall tok_good r).
Proof.
  induction fuel as [|f [IHv [IHi IHf]]]; [repeat split; discriminate|].
  split; [|split].
  - intros ts v r Hts H.
    destruct ts as [|t ts]; [discriminate|].
    pose proof (tok_good_tail _ _ Hts) as Hts'.
    destruct t; try discriminate.
    + destruct ts as [|t' ts'];
        [apply (IHf _ [] v r Hts'); [constructor | exact H]|].
      pose proof (tok_good_tail _ _ Hts') as Hts''.
      destruct t'; try discriminate;
        try (apply (IHf _ [] v r Hts'); [constructor | exact H]).
      injection H as <- <-. split; [reflexivity | exact Hts''].
    + destruct ts as [|t' ts'];
        [apply (IHi _ [] v r Hts'); [constructor | exact H]|].
      pose proof (tok_good_tail _ _ Hts') as Hts''.
      destruct t'; try discriminate;
        try (apply (IHi _ [] v r Hts'); [constructor | exact H]).
      injection H as <- <-. split; [reflexivity | exact Hts''].
    + injection H as <- <-. inversion Hts; subst. auto.
    + injection H as <- <-. auto.
  - intros ts acc v r Hts Hacc H. cbn [Json.parse_items] in H.
    destruct (Json.parse_value f ts) as [[x rest]|] eqn:Hx; [|discriminate].
    destruct (IHv _ _ _ Hts Hx) as [Hok Hrest].
    destruct rest as [|t rest]; [discriminate|].
    pose proof (tok_good_tail _ _ Hrest) as Hrest'.
    destruct t; try discriminate.
    + injection H as <- <-. split; [|exact Hrest'].
      apply json_ok_arr_intro. apply (Forall_rev (l := x :: acc)).
      constructor; assumption.
    + apply (IHi _ (x :: acc) v r Hrest'); [constructor; assumption | exact H].
  - intros ts acc v r Hts Hacc H. cbn [Json.parse_fields] in H.
    destruct ts as [|t ts]; [discriminate|].
    destruct t; try discriminate.
    destruct ts as [|t ts]; [discriminate|].
    destruct t; try discriminate.
    pose proof (tok_good_tail _ _ (tok_good_tail _ _ Hts)) as Hts'.
    destruct (Json.parse_value f ts) as [[x rest]|] eqn:Hx; [|discriminate].
    destruct (IHv _ _ _ Hts' Hx) as [Hok Hrest].
    destruct rest as [|t rest]; [discriminate|].
    pose proof (tok_good_tail _ _ Hrest) as Hrest'.
    destruct t; try discriminate.
    + injection H as <- <-. split; [|exact Hrest'].
      apply json_ok_dict_of. apply (Forall_rev (l := (s, x) :: acc)).
      constructor; assumption.
    + apply (IHf _ ((s, x) :: acc) v r Hrest'); [constructor; assumption | exact H].
Qed.

Lemma loads_ok (text : bytes) (v : json) :
  Json.loads text = inr v -> json_ok v = true.
Proof.
  unfold Json.loads. destruct (Json.tokens text) as [ts|] eqn:Ht; [|discriminate].
  destruct (Json.parse_value (S (length ts)) ts) as [[x [|t r]]|] eqn:Hp; try discriminate.
  intros [= <-].
  apply (proj1 (parse_good _)) in Hp; [apply Hp | apply (tokens_good _ _ Ht)].
Qed.

(** *** A second run with the instances *)

Lemma digests_ok (hashlib : string -> bytes -> bytes) (files : list (string * node)) :
  forall acc, json_ok (JObj acc) = true ->
              json_ok (JObj (digests hashlib files acc)) = true.
Proof.
  unfold digests. induction files as [|[name n] files IH]; intros acc Hacc; [exact Hacc|].
  simpl. apply IH. apply json_ok_set; [exact Hacc | reflexivity].
Qed.

Lemma reconcile_field_ok (hashlib : string -> bytes -> bytes) (k : string)
      (files : list (string * node)) (d : dict) :
  json_ok (JObj d) = true -> json_ok (JObj (reconcile_field hashlib k files d)) = true.
Proof.
  intros Hd. destruct files as [|f files]; cbn [reconcile_field].
  - apply json_ok_pop. exact Hd.
  - apply json_ok_set; [exact Hd | apply digests_ok; reflexivity].
Qed.

(** The record a run with the instances writes is one the JSON instance
    reads back. *)
Lemma py_updated_source_ok (self : client) (m v : string) (w : world)
      (sp : Path) (s : json) :
  py_updated_source self m v w = inr (sp, s) -> json_ok s = true.
Proof.
  unfold py_updated_source. intros Hu.
  destruct (updated_source_ok _ _ _ _ _ _ _ _ Hu)
    as [mods [d0 [d1 [_ [_ [_ [Hg [Ha ->]]]]]]]].
  destruct (get_source_ok _ _ _ _ _ _ Hg) as [sp' [wr [text [_ [_ Hl]]]]].
  apply loads_ok in Hl.
  assert (H1 : json_ok (JObj d1) = true).
  { apply update_archive_ok in Ha.
    destruct Ha as [[_ [= ->]]|[url [data [_ [_ [= ->]]]]]]; [exact Hl|].
    apply json_ok_set; [exact Hl | reflexivity]. }
  apply reconcile_field_ok, reconcile_field_ok. exact H1.
Qed.

(** With the SHA-2 and JSON instances, a second run right after a
    successful one leaves the world as it is, when the bytes fetched from the
    record's [url] are those of the first run. *)
Lemma py_second_run (self : client) (m v : string) (w w1 : world) :
  py_update_integrity self m v w = (inr tt, w1) ->
  (forall sp d url, py_updated_source self m v w = inr (sp, JObj d) ->
                    dict_get "url" d = Some url ->
                    download url w1 = download url w) ->
  py_update_integrity self m v w1 = (inr tt, w1).
Proof.
  intros H Hfetch.
  destruct (second_run_source Sha2.digest Json.loads Json.dumps self m v w w1 H)
    as [sp [s [Hu [Hu1 [Hw Hr]]]]].
  - intros sp s Hu. apply loads_dumps. apply (py_updated_source_ok _ _ _ _ _ _ Hu).
  - exact Hfetch.
  - unfold py_update_integrity, update_integrity. rewrite Hu1. exact Hw.
Qed.

(** * Further properties of the code *)

(** ** [download] *)

(** X1.  [download] never raises [URLError]: what the network raises as one
    reaches the caller as a [RuntimeError], and reading a [file://] URL raises
    the errors of [open] only. *)
Theorem download_no_url_error (url : json) (w : world) :
  is_url_error (download url w) = false.
Proof.
  unfold download. destruct url as [| b | z | f | u | l | d]; try reflexivity.
  destruct (String.prefix "file://" u).
  - unfold open_read. destruct (stat (fs w) _) as [[[|] wr data|es]|]; reflexivity.
  - destruct (net w u) as [[]|data]; reflexivity.
Qed.

Lemma substring_all (s : string) : String.substring 0 (String.length s) s = s.
Proof. induction s as [|c r IH]; simpl; [reflexivity|]. rewrite IH. reflexivity. Qed.

Lemma split_slash_name (s : string) : no_slash s -> split_slash s = [s].
Proof.
  induction s as [|c r IH]; simpl; [reflexivity|].
  intros [Hc Hr]. apply Ascii.eqb_neq in Hc. rewrite Hc, (IH Hr). reflexivity.
Qed.

Lemma split_slash_app (x rest : string) :
  no_slash x -> split_slash (x +++ String "/" rest) = x :: split_slash rest.
Proof.
  induction x as [|c r IH]; simpl; [reflexivity|].
  intros [Hc Hr]. apply Ascii.eqb_neq in Hc. rewrite Hc, (IH Hr). reflexivity.
Qed.

Lemma prefix_slash_name (s : string) : no_slash s -> String.prefix "/" s = false.
Proof.
  destruct s as [|c r]; [reflexivity|]. intros [Hc _]. cbn -[ascii_dec].
  destruct (ascii_dec "/" c) as [E|E]; [congruence|reflexivity].
Qed.

(** The components of the string of a path are the path. *)
Lemma path_parts_concat (p : Path) :
  plain_path p = true ->
  filter (fun c => negb (String.eqb c "") && negb (String.eqb c "."))
         (split_slash (String.concat "/" p)) = p.
Proof.
  induction p as [|x p IH]; [reflexivity|].
  intros H. simpl in H. apply andb_true_iff in H. destruct H as [Hx Hp].
  apply andb_true_iff in Hx. destruct Hx as [Hv Hdot].
  destruct (valid_name_facts x Hv) as [Hne Hns]. apply String.eqb_neq in Hne.
  rewrite concat_cons. destruct p as [|y r].
  - replace (x +++ "") with x by (clear; induction x; simpl; congruence).
    rewrite (split_slash_name x Hns). simpl. rewrite Hne, Hdot. reflexivity.
  - rewrite (split_slash_app x _ Hns). cbn [filter]. rewrite Hne, Hdot. simpl andb.
    cbv iota. f_equal. apply IH. exact Hp.
Qed.

(** X2.  The [file://] URL of an absolute path gives what reading the file
    at that path gives, whatever the working directory and the network. *)
Theorem download_file_url (p : Path) (w : world) :
  plain_path p = true ->
  download (JStr ("file://" +++ path_str p)) w = open_read p w.
Proof.
  intros Hp. unfold download.
  change (String.prefix "file://" ("file://" +++ path_str p)) with true. cbv iota.
  change (String.length ("file://" +++ path_str p) - 7)
    with (String.length (path_str p)).
  change (String.substring 7 (String.length (path_str p)) ("file://" +++ path_str p))
    with (String.substring 0 (String.length (path_str p)) (path_str p)).
  rewrite substring_all. unfold joinpath.
  assert (Hpre : String.prefix "/" (path_str p) = true).
  { unfold path_str. destruct (String.concat "/" p); reflexivity. }
  rewrite Hpre. unfold path_parts, path_str.
  change (split_slash ("/" +++ String.concat "/" p))
    with ("" :: split_slash (String.concat "/" p)).
  cbn [filter]. change (negb ("" =? "")%string && negb ("" =? ".")%string) with false.
  cbv iota. rewrite (path_parts_concat p Hp). reflexivity.
Qed.

Lemma download_file_url_witness :
  download (JStr ("file://" +++ path_str ["tmp"; "test_registry"; "modules"; "README.md"]))
           (test_world test_entries)
  = open_read ["tmp"; "test_registry"; "modules"; "README.md"] (test_world test_entries).
Proof.
  apply (download_file_url ["tmp"; "test_registry"; "modules"; "README.md"]
           (test_world test_entries)).
  reflexivity.
Defined.

(** ** [integrity]: the string gives the digest back *)

Lemma b64_index_char (n : N) : (n < 64)%N -> b64_index (b64_char n) = Some n.
Proof.
  intros H.
  assert (E : exists k, (k < 64)%nat /\ n = N.of_nat k).
  { exists (N.to_nat n). split; [lia | symmetry; apply N2Nat.id]. }
  destruct E as [k [Hk ->]].
  do 64 (destruct k as [|k]; [reflexivity|]). lia.
Qed.

Lemma b64_char_not_pad (n : N) : (n < 64)%N -> Ascii.eqb (b64_char n) "=" = false.
Proof.
  intros H.
  assert (E : exists k, (k < 64)%nat /\ n = N.of_nat k).
  { exists (N.to_nat n). split; [lia | symmetry; apply N2Nat.id]. }
  destruct E as [k [Hk ->]].
  do 64 (destruct k as [|k]; [reflexivity|]). lia.
Qed.

Lemma land_63 (x : N) : (N.land x 63 < 64)%N /\ N.land x 63 = (x mod 64)%N.
Proof.
  change 63%N with (N.ones 6). rewrite N.land_ones. split; [|reflexivity].
  apply N.mod_lt. discriminate.
Qed.

Lemma lor_shiftl_add (x y k : N) :
  (y < 2 ^ k)%N -> N.lor (N.shiftl x k) y = (x * 2 ^ k + y)%N.
Proof.
  intros H. rewrite N.shiftl_mul_pow2.
  assert (Hland : N.land (x * 2 ^ k) y = 0%N).
  { apply N.bits_inj_0. intros n. rewrite N.land_spec.
    destruct (N.ltb_spec n k) as [Hn|Hn].
    - rewrite N.mul_pow2_bits_low by exact Hn. reflexivity.
    - rewrite <- (N.mod_small y (2 ^ k) H), N.mod_pow2_bits_high by exact Hn.
      apply andb_false_r. }
  rewrite <- (N.lxor_lor _ _ Hland). symmetry. apply N.add_nocarry_lxor. exact Hland.
Qed.

Lemma group24_sum (a b c : ascii) :
  group24 a b c = (N_of_ascii a * 65536 + N_of_ascii b * 256 + N_of_ascii c)%N.
Proof.
  unfold group24. pose proof (N_ascii_bounded b). pose proof (N_ascii_bounded c).
  rewrite (lor_shiftl_add (N_of_ascii b) (N_of_ascii c) 8) by (simpl; lia).
  rewrite (lor_shiftl_add (N_of_ascii a) _ 16) by (simpl; lia).
  simpl N.pow. lia.
Qed.

Lemma sextet_index (w shift : N) :
  b64_index (sextet w shift) = Some ((w / 2 ^ shift) mod 64)%N /\
  Ascii.eqb (sextet w shift) "=" = false.
Proof.
  unfold sextet. destruct (land_63 (N.shiftr w shift)) as [Hlt E].
  rewrite (b64_index_char _ Hlt), (b64_char_not_pad _ Hlt), E, N.shiftr_div_pow2.
  split; reflexivity.
Qed.

(** The sextets of three bytes and the bytes of four sextets, with the bytes
    split where the sextets cut them. *)
Lemma group_bytes (a1 a0 b1 b0 c1 c0 : N) :
  (a1 < 64)%N -> (a0 < 4)%N -> (b1 < 16)%N -> (b0 < 16)%N -> (c1 < 4)%N -> (c0 < 64)%N ->
  let w := ((4 * a1 + a0) * 65536 + (16 * b1 + b0) * 256 + (64 * c1 + c0))%N in
  let s3 := ((w / 262144) mod 64)%N in
  let s2 := ((w / 4096) mod 64)%N in
  let s1 := ((w / 64) mod 64)%N in
  let s0 := ((w / 1) mod 64)%N in
  (s3 * 4 + s2 / 16 = 4 * a1 + a0 /\
   (s2 mod 16) * 16 + s1 / 4 = 16 * b1 + b0 /\
   (s1 mod 4) * 64 + s0 = 64 * c1 + c0)%N.
Proof.
  intros Ha1 Ha0 Hb1 Hb0 Hc1 Hc0 w s3 s2 s1 s0.
  assert (E3 : s3 = a1).
  { subst s3 w.
    rewrite <- (N.div_unique _ 262144 a1
                  (65536 * a0 + 4096 * b1 + 256 * b0 + 64 * c1 + c0)) by lia.
    apply N.mod_small. exact Ha1. }
  assert (E2 : s2 = (16 * a0 + b1)%N).
  { subst s2 w.
    rewrite <- (N.div_unique _ 4096 (64 * a1 + (16 * a0 + b1))
                  (256 * b0 + 64 * c1 + c0)) by lia.
    rewrite <- (N.mod_unique _ 64 a1 (16 * a0 + b1)) by lia. reflexivity. }
  assert (E1 : s1 = (4 * b0 + c1)%N).
  { subst s1 w.
    rewrite <- (N.div_unique _ 64 (64 * (64 * a1 + 16 * a0 + b1) + (4 * b0 + c1)) c0)
      by lia.
    rewrite <- (N.mod_unique _ 64 (64 * a1 + 16 * a0 + b1) (4 * b0 + c1)) by lia.
    reflexivity. }
  assert (E0 : s0 = c0).
  { subst s0 w. rewrite N.div_1_r.
    rewrite <- (N.mod_unique _ 64 (4096 * a1 + 1024 * a0 + 64 * b1 + 4 * b0 + c1) c0)
      by lia.
    reflexivity. }
  rewrite E3, E2, E1, E0.
  rewrite <- (N.div_unique (16 * a0 + b1) 16 a0 b1) by lia.
  rewrite <- (N.mod_unique (16 * a0 + b1) 16 a0 b1) by lia.
  rewrite <- (N.div_unique (4 * b0 + c1) 4 b0 c1) by lia.
  rewrite <- (N.mod_unique (4 * b0 + c1) 4 b0 c1) by lia.
  repeat split; lia.
Qed.

(** The three bytes of a group, from its four sextets. *)
Lemma group24_bytes (a b c : ascii) :
  let w := group24 a b c in
  let s3 := ((w / 2 ^ 18) mod 64)%N in
  let s2 := ((w / 2 ^ 12) mod 64)%N in
  let s1 := ((w / 2 ^ 6) mod 64)%N in
  let s0 := ((w / 2 ^ 0) mod 64)%N in
  ascii_of_N (s3 * 4 + s2 / 16) = a /\
  ascii_of_N ((s2 mod 16) * 16 + s1 / 4) = b /\
  ascii_of_N ((s1 mod 4) * 64 + s0) = c.
Proof.
  cbv zeta. rewrite group24_sum.
  change (2 ^ 18)%N with 262144%N. change (2 ^ 12)%N with 4096%N.
  change (2 ^ 6)%N with 64%N. change (2 ^ 0)%N with 1%N.
  pose proof (N_ascii_bounded a) as HA. pose proof (N_ascii_bounded b) as HB.
  pose proof (N_ascii_bounded c) as HC.
  set (A := N_of_ascii a) in *. set (B := N_of_ascii b) in *.
  set (C := N_of_ascii c) in *.
  assert (E : forall n x, n = N_of_ascii x -> ascii_of_N n = x).
  { intros n x ->. apply ascii_N_embedding. }
  assert (A / 4 < 64 /\ A mod 4 < 4 /\ B / 16 < 16 /\ B mod 16 < 16 /\
          C / 64 < 4 /\ C mod 64 < 64)%N as [H1 [H2 [H3 [H4 [H5 H6]]]]].
  { repeat split; try (apply N.mod_lt; discriminate);
      apply N.Div0.div_lt_upper_bound; assumption. }
  pose proof (group_bytes _ _ _ _ _ _ H1 H2 H3 H4 H5 H6) as G. cbv zeta in G.
  rewrite <- !N.div_mod in G by discriminate.
  destruct G as [G1 [G2 G3]]. repeat split; apply E; assumption.
Qed.

(** Decoding the base64 text of some bytes gives the bytes. *)
Lemma b64decode_b64encode (n : nat) :
  forall s, String.length s <= n -> b64decode (b64encode s) = Some s.
Proof.
  induction n as [n IH] using lt_wf_ind. intros s Hn.
  destruct s as [|a [|b [|c rest]]].
  - reflexivity.
  - cbn [b64encode]. cbv zeta.
    destruct (sextet_index (group24 a zero zero) 18) as [E3 _].
    destruct (sextet_index (group24 a zero zero) 12) as [E2 _].
    destruct (group24_bytes a zero zero) as [Ha _]. cbv zeta in Ha.
    cbn [b64decode]. rewrite E3, E2. cbv zeta.
    change (Ascii.eqb "=" "=") with true. cbv iota. rewrite Ha. reflexivity.
  - cbn [b64encode]. cbv zeta.
    destruct (sextet_index (group24 a b zero) 18) as [E3 _].
    destruct (sextet_index (group24 a b zero) 12) as [E2 _].
    destruct (sextet_index (group24 a b zero) 6) as [E1 P1].
    destruct (group24_bytes a b zero) as [Ha [Hb _]]. cbv zeta in Ha, Hb.
    cbn [b64decode]. rewrite E3, E2, P1, E1. cbv zeta.
    change (Ascii.eqb "=" "=") with true. cbv iota. rewrite Ha, Hb. reflexivity.
  - cbn [b64encode]. cbv zeta.
    destruct (sextet_index (group24 a b c) 18) as [E3 _].
    destruct (sextet_index (group24 a b c) 12) as [E2 _].
    destruct (sextet_index (group24 a b c) 6) as [E1 P1].
    destruct (sextet_index (group24 a b c) 0) as [E0 P0].
    destruct (group24_bytes a b c) as [Ha [Hb Hc]]. cbv zeta in Ha, Hb, Hc.
    cbn [b64decode]. rewrite E3, E2, P1, E1, P0, E0.
    rewrite (IH (String.length rest)); [|simpl in Hn; lia|apply le_n].
    cbv zeta. rewrite Ha, Hb, Hc. reflexivity.
Qed.

Section Decode.

Variable hashlib : string -> bytes -> bytes.

(** X3.  The string [integrity] returns decodes to the algorithm it was
    given and to the digest of the data: nothing of either is lost in the
    text. *)
Theorem integrity_decodes (data : bytes) (algorithm out : string) :
  integrity hashlib data algorithm = inr out ->
  sri_decode out = Some (algorithm, hashlib algorithm data).
Proof.
  unfold integrity.
  destruct (existsb (String.eqb algorithm) sri_algorithms) eqn:Hs; [|discriminate].
  intros [= <-]. apply supported_iff in Hs.
  pose proof (b64decode_b64encode _ (hashlib algorithm data) (le_n _)) as Hd.
  unfold sri_decode.
  destruct Hs as [<-|[<-|[<-|[<-|[]]]]]; cbn [sri_algorithms remove_prefix String.append];
    cbv beta iota delta [Ascii.eqb Bool.eqb]; rewrite Hd; reflexivity.
Qed.

(** X4.  Two calls of [integrity] that return the same string were given the
    same algorithm and data of the same digest. *)
Theorem integrity_injective (d1 d2 : bytes) (a1 a2 out : string) :
  integrity hashlib d1 a1 = inr out ->
  integrity hashlib d2 a2 = inr out ->
  a1 = a2 /\ hashlib a1 d1 = hashlib a2 d2.
Proof.
  unfold integrity.
  destruct (existsb (String.eqb a1) sri_algorithms) eqn:H1; [|discriminate].
  destruct (existsb (String.eqb a2) sri_algorithms) eqn:H2; [|discriminate].
  intros [= <-] [= E]. apply supported_iff in H1, H2.
  assert (Hd : forall x y, b64encode x = b64encode y -> x = y).
  { intros x y Hxy.
    pose proof (b64decode_b64encode _ x (le_n _)) as Hx.
    pose proof (b64decode_b64encode _ y (le_n _)) as Hy.
    rewrite Hxy, Hy in Hx. injection Hx as ->. reflexivity. }
  destruct H1 as [<-|[<-|[<-|[<-|[]]]]]; destruct H2 as [<-|[<-|[<-|[<-|[]]]]];
    try discriminate E; (split; [reflexivity|]); symmetry; apply Hd;
    injection E as E; exact E.
Qed.

End Decode.

Lemma integrity_decodes_witness :
  sri_decode "sha256-ungWv48Bz+pBQUDeXa4iI7ADYaOWF3qctBD/YfIAFa0="
  = Some ("sha256", Sha2.digest "sha256" "abc").
Proof.
  apply (integrity_decodes Sha2.digest "abc" "sha256").
  vm_compute. reflexivity.
Defined.

Lemma integrity_injective_witness :
  "sha512" = "sha512" /\ Sha2.digest "sha512" "abc" = Sha2.digest "sha512" "abc".
Proof.
  apply (integrity_injective Sha2.digest "abc" "abc" "sha512" "sha512"
           ("sha512-3a81oZNherrMQXNJriBBMRLm+k6JqX6iCp7u5ktV05ohkpkqJ0/BqDa6PCOj/uu9RU1E"
            +++ "I2Q86A4qmslPpUyknw==")).
  - vm_compute. reflexivity.
  - vm_compute. reflexivity.
Defined.

(** ** [json_dump]: the file reads what was written *)

Lemma fs_get_snoc (q : Path) (c : string) :
  forall t, fs_get t (q ++ [c]) =
            match fs_get t q with
            | Some (Dir es) => assoc c es
            | _ => None
            end.
Proof.
  induction q as [|x q IH]; intros t; simpl.
  - destruct t as [r wr d|es]; [reflexivity|]. destruct (assoc c es); reflexivity.
  - destruct t as [r wr d|es]; [reflexivity|].
    destruct (assoc x es) as [m|]; [apply IH|reflexivity].
Qed.

Lemma realpath_grows (t t' : node) (p : Path) :
  grows t t' -> forall q, realpath t p = Some q -> realpath t' p = Some q.
Proof.
  intros Hg. induction p as [|c p IH] using rev_ind; intros q H.
  - exact H.
  - rewrite realpath_snoc in H |- *.
    destruct (realpath t p) as [q0|]; [|discriminate].
    rewrite (IH q0 eq_refl). unfold enter in H |- *.
    destruct (fs_get t q0) as [[r wr d|es]|] eqn:Hq0; try discriminate.
    destruct (Hg q0 es Hq0) as [es' [-> Hes]].
    destruct (String.eqb c ".."); [exact H|].
    destruct (assoc c es) as [m|] eqn:Hc; [|discriminate].
    destruct (Hes c m Hc) as [m' ->]. exact H.
Qed.

(** A new entry of a directory is found there, and nothing else is lost. *)
Lemma fs_put_new (c : string) (new : node) (q : Path) :
  forall t es, fs_get t q = Some (Dir es) -> assoc c es = None ->
               fs_get (fs_put (q ++ [c]) new t) (q ++ [c]) = Some new /\
               grows t (fs_put (q ++ [c]) new t).
Proof.
  induction q as [|x q IH]; intros t es Hq Hc.
  - simpl in Hq. injection Hq as ->. simpl. rewrite Hc. split.
    + rewrite assoc_put_same. reflexivity.
    + intros q' es' Hq'. destruct q' as [|c' q'].
      * injection Hq' as <-. eexists. split; [reflexivity|].
        intros c' m Hm. exists m. rewrite assoc_put_other; [exact Hm|congruence].
      * simpl in Hq' |- *.
        destruct (assoc c' es) as [m|] eqn:Hm; [|discriminate].
        rewrite assoc_put_other; [|congruence]. rewrite Hm.
        exists es'. split; [exact Hq'|]. intros c0 m0 H0. exists m0. exact H0.
  - destruct t as [r wr d|es0]; [discriminate|]. simpl in Hq.
    destruct (assoc x es0) as [m|] eqn:Hx; [|discriminate].
    change ((x :: q) ++ [c]) with (x :: (q ++ [c])).
    rewrite (fs_put_found x (q ++ [c]) new m es0 Hx).
    destruct (IH m es Hq Hc) as [Hget Hgrow]. split.
    + simpl. rewrite assoc_put_same. exact Hget.
    + intros q' es' Hq'. destruct q' as [|c' q'].
      * injection Hq' as <-. eexists. split; [reflexivity|].
        intros c' m0 Hm0. destruct (String.eqb c' x) eqn:E.
        -- apply String.eqb_eq in E. subst c'. rewrite assoc_put_same.
           eexists. reflexivity.
        -- apply String.eqb_neq in E. rewrite (assoc_put_other _ _ _ _ E).
           exists m0. exact Hm0.
      * simpl in Hq' |- *. destruct (String.eqb c' x) eqn:E.
        -- apply String.eqb_eq in E. subst c'. rewrite Hx in Hq'.
           rewrite assoc_put_same. apply Hgrow. exact Hq'.
        -- apply String.eqb_neq in E. rewrite (assoc_put_other _ _ _ _ E).
           destruct (assoc c' es0) as [m0|]; [|discriminate].
           exists es'. split; [exact Hq'|]. intros c0 m1 H1. exists m1. exact H1.
Qed.

(** Where a file is created: its directory is there and has no such
    entry. *)
Lemma realpath_missing (t : node) (p q : Path) (es : list (string * node)) :
  realpath t p = None -> realpath t (removelast p) = Some q ->
  fs_get t q = Some (Dir es) ->
  p = removelast p ++ [last p ""] /\
  String.eqb (last p "") ".." = false /\ assoc (last p "") es = None.
Proof.
  intros Hp Hq Hes.
  assert (Hne : p <> []) by (intros ->; discriminate).
  pose proof (app_removelast_last "" Hne) as E. split; [exact E|].
  rewrite E, realpath_snoc, Hq in Hp. unfold enter in Hp. rewrite Hes in Hp.
  destruct (String.eqb (last p "") ".."); [discriminate|].
  destruct (assoc (last p "") es); [discriminate|split; reflexivity].
Qed.

Lemma open_write_creates (p : Path) (text : bytes) (w : world) (q : Path)
      (es : list (string * node)) :
  realpath (fs w) p = None -> realpath (fs w) (removelast p) = Some q ->
  fs_get (fs w) q = Some (Dir es) ->
  stat (fs_put (q ++ [last p ""]) (File true true text) (fs w)) p
  = Some (File true true text).
Proof.
  intros Hp Hq Hes.
  destruct (realpath_missing _ _ _ _ Hp Hq Hes) as [E [Hn Hc]].
  destruct (fs_put_new (last p "") (File true true text) q (fs w) es Hes Hc)
    as [Hget Hgrow].
  unfold stat. rewrite E at 2. rewrite realpath_snoc.
  rewrite (realpath_grows _ _ _ Hgrow q Hq). unfold enter.
  destruct (Hgrow q es Hes) as [es' [Hq' _]]. rewrite Hq', Hn.
  rewrite fs_get_snoc, Hq' in Hget. rewrite Hget.
  rewrite fs_get_snoc, Hq'. exact Hget.
Qed.

Section Dump.

Variable json_dumps : json -> bool -> string.

(** X5.  After [json_dump] has returned, the file at the path holds the text
    of the data and a newline, whether the file was there before or has been
    created; only a file that was there without read permission still
    refuses to be read. *)
Theorem json_dump_read_back (p : Path) (data : json) (sort_keys : bool) (w w' : world) :
  json_dump json_dumps p data sort_keys w = (inr tt, w') ->
  open_read p w' =
  match stat (fs w) p with
  | Some (File false _ _) => inl (OSError PermissionError)
  | _ => inr (json_dumps data sort_keys +++ String "010"%char "")
  end.
Proof.
  unfold json_dump, open_write, open_read. unfold stat at 2.
  destruct (realpath (fs w) p) as [q|] eqn:Hp.
  - destruct (fs_get (fs w) q) as [[r [|] old|es]|] eqn:Hq; try discriminate.
    intros [= <-]. unfold stat. simpl fs.
    rewrite (realpath_same_shape (fs w)) by apply (shape_put_file _ _ _ _ _ _ _ _ Hq).
    rewrite Hp, (fs_get_put_same _ _ _ _ Hq). destruct r; reflexivity.
  - destruct (realpath (fs w) (removelast p)) as [q|] eqn:Hq; [|discriminate].
    destruct (fs_get (fs w) q) as [[r wr old|es]|] eqn:Hes; try discriminate.
    intros [= <-]. simpl fs. rewrite (open_write_creates p _ w q es Hp Hq Hes).
    reflexivity.
Qed.

End Dump.

Lemma json_dump_read_back_witness :
  open_read ["tmp"; "test_registry"; "modules"; "testmod"; "2.0.0.json"]
            (snd (json_dump Json.dumps
                            ["tmp"; "test_registry"; "modules"; "testmod"; "2.0.0.json"]
                            test_source true (test_world test_entries)))
  = inr (Json.dumps test_source true +++ String "010"%char "").
Proof.
  apply (json_dump_read_back Json.dumps
           ["tmp"; "test_registry"; "modules"; "testmod"; "2.0.0.json"]
           test_source true (test_world test_entries)).
  vm_compute. reflexivity.
Defined.

(** ** The client *)

Lemma in_removelast {A : Type} (x : A) (l : list A) : In x (removelast l) -> In x l.
Proof.
  induction l as [|y [|z r] IH]; simpl; [tauto|tauto|].
  intros [H|H]; [left; exact H|right; apply IH; exact H].
Qed.

Lemma resolve_no_parent (p : Path) : ~ In ".." (resolve p).
Proof.
  unfold resolve.
  assert (H : forall acc, ~ In ".." acc ->
            ~ In ".." (fold_left (fun q c => if String.eqb c ".." then removelast q
                                             else q ++ [c]) p acc)).
  { induction p as [|c p IH]; intros acc Hacc; simpl; [exact Hacc|].
    apply IH. destruct (String.eqb c "..") eqn:E.
    - intros Hin. apply Hacc. apply in_removelast. exact Hin.
    - intros Hin. apply in_app_or in Hin. destruct Hin as [Hin|[Hin|[]]]; [tauto|].
      subst c. discriminate. }
  apply H. intros [].
Qed.

(** X6.  The constructor returns a client only for a root that exists and
    holds [bazel_registry.json], and the root it keeps has no [..] left; when
    one of the two is missing it raises [RuntimeError] and nothing else. *)
Theorem new_client_registry (registry_root : string) (w : world) :
  match new_client registry_root w with
  | inr self =>
      ~ In ".." (root self) /\
      path_exists (root self) w = inr true /\
      path_exists (root self ++ ["bazel_registry.json"]) w = inr true /\
      open_read (root self ++ ["bazel_registry.json"]) w <> inl (OSError FileNotFoundError)
  | inl e =>
      exists msg, e = RuntimeError msg /\
        (path_exists (resolve (joinpath (cwd w) registry_root)) w = inr false \/
         path_exists (resolve (joinpath (cwd w) registry_root) ++ ["bazel_registry.json"]) w
         = inr false)
  end.
Proof.
  unfold new_client, path_exists, open_read.
  destruct (joinpath_name (resolve (joinpath (cwd w) registry_root))) as [_ [_ [_ ->]]].
  destruct (stat (fs w) (resolve (joinpath (cwd w) registry_root))) as [n|] eqn:Hr.
  - destruct (stat (fs w) (resolve (joinpath (cwd w) registry_root)
                           ++ ["bazel_registry.json"])) as [k|] eqn:Hk.
    + cbn [root]. rewrite Hr, Hk. repeat split.
      * apply resolve_no_parent.
      * destruct k as [[|] wr d|es]; discriminate.
    + eexists. split; [reflexivity|]. right. reflexivity.
  - eexists. split; [reflexivity|]. left. reflexivity.
Qed.

Section Configuration.

Variable json_loads : bytes -> result json.

(** X7.  When the configuration is an object without [module_base_path],
    the modules directory is [modules] under the root. *)
Theorem get_modules_dir_default (self : client) (w : world) (config : dict) :
  get_registry_config json_loads self w = inr (JObj config) ->
  dict_get "module_base_path" config = None ->
  get_modules_dir json_loads self w = inr (root self ++ ["modules"]).
Proof.
  intros Hc Hk. unfold get_modules_dir, bindR. rewrite Hc.
  unfold lift. rewrite py_get_dict, Hk. reflexivity.
Qed.

End Configuration.

Lemma get_modules_dir_default_witness :
  get_modules_dir Json.loads (Client ["reg"]) plain_world = inr (["reg"] ++ ["modules"]).
Proof.
  apply (get_modules_dir_default Json.loads (Client ["reg"]) plain_world []).
  - vm_compute. reflexivity.
  - reflexivity.
Defined.

(** ** The listings *)

Lemma fs_get_parent (t : node) (q : Path) (n : node) :
  fs_get t q = Some n -> q <> [] ->
  exists es, fs_get t (removelast q) = Some (Dir es).
Proof.
  intros H Hq. rewrite (app_removelast_last "" Hq) in H.
  rewrite fs_get_snoc in H.
  destruct (fs_get t (removelast q)) as [[r wr d|es]|]; try discriminate.
  exists es. reflexivity.
Qed.

Lemma stat_child (t : node) (p : Path) (es : list (string * node)) (c : string) (k : node) :
  stat t p = Some (Dir es) -> assoc c es = Some k -> c <> ".." ->
  stat t (p ++ [c]) = Some k.
Proof.
  unfold stat. intros H Hc Hn. rewrite realpath_snoc.
  destruct (realpath t p) as [q|]; [|discriminate].
  unfold enter. rewrite H. apply String.eqb_neq in Hn. rewrite Hn, Hc.
  rewrite fs_get_snoc, H. exact Hc.
Qed.

Lemma stat_parent (t : node) (p : Path) (es : list (string * node)) :
  stat t p = Some (Dir es) -> exists es', stat t (p ++ [".."]) = Some (Dir es').
Proof.
  unfold stat. intros H. rewrite realpath_snoc.
  destruct (realpath t p) as [q|]; [|discriminate].
  unfold enter. rewrite H. simpl.
  destruct q as [|x q].
  - exists es. exact H.
  - apply (fs_get_parent t (x :: q) (Dir es) H). discriminate.
Qed.

(** Joining a name that holds no separator. *)
Lemma joinpath_entry (p : Path) (c : string) :
  valid_name c = true ->
  joinpath p c = if String.eqb c "." then p else p ++ [c].
Proof.
  intros H. apply valid_name_facts in H. destruct H as [Hne Hns].
  unfold joinpath, path_parts.
  rewrite (prefix_slash_name c Hns), (split_slash_name c Hns). simpl.
  apply String.eqb_neq in Hne. rewrite Hne. simpl.
  destruct (String.eqb c "."); simpl; [apply app_nil_r|reflexivity].
Qed.

Lemma in_assoc {A : Type} (es : list (string * A)) (c : string) (k : A) :
  distinct (map fst es) = true -> In (c, k) es -> assoc c es = Some k.
Proof.
  intros Hd Hin.
  assert (H : exists k', assoc c es = Some k').
  { clear Hd. induction es as [|[c' k'] r IH]; [destruct Hin|]. simpl.
    destruct (String.eqb c c') eqn:E; [eexists; reflexivity|].
    destruct Hin as [[= -> ->]|Hin]; [rewrite String.eqb_refl in E; discriminate|].
    exact (IH Hin). }
  destruct H as [k' Hk']. rewrite Hk'. f_equal.
  apply (distinct_functional es c k' k Hd); [apply assoc_in; exact Hk'|exact Hin].
Qed.

(** An entry of a directory that is itself a directory is found under its
    name. *)
Lemma stat_joinpath_entry (t : node) (p : Path) (es es1 : list (string * node))
      (c : string) :
  wf_node t = true -> stat t p = Some (Dir es) -> In (c, Dir es1) es ->
  exists es2, stat t (joinpath p c) = Some (Dir es2).
Proof.
  intros Hwf Hp Hin.
  pose proof (wf_stat t p _ Hwf Hp) as Hd. apply wf_dir in Hd.
  destruct Hd as [Hdis Hall]. destruct (Hall c _ Hin) as [Hv _].
  rewrite (joinpath_entry p c Hv).
  destruct (String.eqb c ".") eqn:Edot; [exists es; exact Hp|].
  destruct (String.eqb c "..") eqn:Eup.
  - apply String.eqb_eq in Eup. subst c. apply (stat_parent t p es Hp).
  - exists es1. apply (stat_child t p es c); [exact Hp| |apply String.eqb_neq; exact Eup].
    apply in_assoc; assumption.
Qed.

Lemma dir_names_in (es : list (string * node)) (c : string) :
  In c (dir_names es) <-> exists es1, In (c, Dir es1) es.
Proof.
  unfold dir_names. rewrite in_map_iff. split.
  - intros [[c' k] [Hc Hk]]. simpl in Hc. subst c'. apply filter_In in Hk.
    destruct Hk as [Hin Hd]. destruct k as [r wr d|es1]; [discriminate|].
    exists es1. exact Hin.
  - intros [es1 Hin]. exists (c, Dir es1). split; [reflexivity|].
    apply filter_In. split; [exact Hin|reflexivity].
Qed.

Section Listings.

Variable json_loads : bytes -> result json.

(** What the two listings compute, from the directory they list. *)
Lemma listing_spec (p : Path) (w : world) :
  (e <- path_exists p ;;
   if negb e then retR [] else es <- iterdir p ;; retR (dir_names es)) w
  = match stat (fs w) p with
    | None => inr []
    | Some (Dir es) => inr (dir_names es)
    | Some (File _ _ _) => inl (OSError NotADirectoryError)
    end.
Proof.
  unfold bindR, path_exists, iterdir, retR.
  destruct (stat (fs w) p) as [[r wr d|es]|] eqn:Hs;
    cbv beta iota delta [negb]; rewrite ?Hs; reflexivity.
Qed.

Lemma get_all_modules_spec (self : client) (w : world) (mods : Path) :
  get_modules_dir json_loads self w = inr mods ->
  get_all_modules json_loads self w
  = match stat (fs w) mods with
    | None => inr []
    | Some (Dir es) => inr (dir_names es)
    | Some (File _ _ _) => inl (OSError NotADirectoryError)
    end.
Proof.
  intros Hm. unfold get_all_modules. unfold bindR at 1. rewrite Hm.
  apply listing_spec.
Qed.

Lemma get_module_versions_spec (self : client) (m : string) (w : world) (mods : Path) :
  get_modules_dir json_loads self w = inr mods ->
  get_module_versions json_loads self m w
  = match stat (fs w) (joinpath mods m) with
    | None => inr []
    | Some (Dir es) => inr (dir_names es)
    | Some (File _ _ _) => inl (OSError NotADirectoryError)
    end.
Proof.
  intros Hm. unfold get_module_versions. unfold bindR at 1. rewrite Hm.
  apply listing_spec.
Qed.

Lemma get_all_modules_dir (self : client) (w : world) (ms : list string) :
  get_all_modules json_loads self w = inr ms ->
  exists mods, get_modules_dir json_loads self w = inr mods.
Proof.
  unfold get_all_modules. intros H. apply bindR_inr in H.
  destruct H as [mods [Hm _]]. exists mods. exact Hm.
Qed.

Lemma get_module_versions_dir (self : client) (m : string) (w : world) (vs : list string) :
  get_module_versions json_loads self m w = inr vs ->
  exists mods, get_modules_dir json_loads self w = inr mods.
Proof.
  unfold get_module_versions. intros H. apply bindR_inr in H.
  destruct H as [mods [Hm _]]. exists mods. exact Hm.
Qed.

(** A listed version is a directory of the module's directory. *)
Lemma listed_version_dir (self : client) (m v : string) (w : world) (vs : list string)
      (mods : Path) :
  wf_node (fs w) = true ->
  get_modules_dir json_loads self w = inr mods ->
  get_module_versions json_loads self m w = inr vs -> In v vs ->
  (exists es, stat (fs w) (joinpath mods m) = Some (Dir es)) /\
  exists es, stat (fs w) (joinpath (joinpath mods m) v) = Some (Dir es).
Proof.
  intros Hwf Hm Hvs Hin. rewrite (get_module_versions_spec self m w mods Hm) in Hvs.
  destruct (stat (fs w) (joinpath mods m)) as [[r wr d|es]|] eqn:Hs; try discriminate.
  2:{ injection Hvs as <-. destruct Hin. }
  injection Hvs as <-. apply dir_names_in in Hin. destruct Hin as [es1 Hin].
  split; [exists es; reflexivity|].
  apply (stat_joinpath_entry (fs w) _ es es1 v Hwf Hs Hin).
Qed.

Lemma listed_version_found (self : client) (m v : string) (w : world) (vs : list string) :
  wf_node (fs w) = true ->
  get_module_versions json_loads self m w = inr vs -> In v vs ->
  module_exists json_loads self m (Some v) w = inr true.
Proof.
  intros Hwf Hvs Hin. destruct (get_module_versions_dir self m w vs Hvs) as [mods Hm].
  destruct (listed_version_dir self m v w vs mods Hwf Hm Hvs Hin) as [[es Hd] [es' Hv]].
  rewrite (module_exists_spec json_loads self m (Some v) w mods Hm), Hd, Hv.
  reflexivity.
Qed.

(** A listed module is a directory of the modules directory. *)
Lemma listed_module_dir (self : client) (m : string) (w : world) (ms : list string)
      (mods : Path) :
  wf_node (fs w) = true ->
  get_modules_dir json_loads self w = inr mods ->
  get_all_modules json_loads self w = inr ms -> In m ms ->
  exists es, stat (fs w) (joinpath mods m) = Some (Dir es).
Proof.
  intros Hwf Hm Hms Hin. rewrite (get_all_modules_spec self w mods Hm) in Hms.
  destruct (stat (fs w) mods) as [[r wr d|es]|] eqn:Hs; try discriminate.
  2:{ injection Hms as <-. destruct Hin. }
  injection Hms as <-. apply dir_names_in in Hin. destruct Hin as [es1 Hin].
  apply (stat_joinpath_entry (fs w) mods es es1 m Hwf Hs Hin).
Qed.

(** X8.  In a well-formed tree, every module [get_all_modules] lists exists
    for [module_exists], and its versions can be listed. *)
Theorem listed_module_exists (self : client) (m : string) (w : world) (ms : list string) :
  wf_node (fs w) = true ->
  get_all_modules json_loads self w = inr ms -> In m ms ->
  module_exists json_loads self m None w = inr true /\
  exists vs, get_module_versions json_loads self m w = inr vs.
Proof.
  intros Hwf Hms Hin. destruct (get_all_modules_dir self w ms Hms) as [mods Hm].
  destruct (listed_module_dir self m w ms mods Hwf Hm Hms Hin) as [es2 Hd].
  rewrite (module_exists_spec json_loads self m None w mods Hm), Hd.
  split; [reflexivity|].
  rewrite (get_module_versions_spec self m w mods Hm), Hd.
  eexists. reflexivity.
Qed.

(** X9.  In a well-formed tree, every version [get_module_versions] lists
    for a module exists for [module_exists], and so does the module. *)
Theorem listed_version_exists (self : client) (m v : string) (w : world) (vs : list string) :
  wf_node (fs w) = true ->
  get_module_versions json_loads self m w = inr vs -> In v vs ->
  module_exists json_loads self m (Some v) w = inr true /\
  module_exists json_loads self m None w = inr true.
Proof.
  intros Hwf Hvs Hin. split; [apply (listed_version_found self m v w vs Hwf Hvs Hin)|].
  destruct (get_module_versions_dir self m w vs Hvs) as [mods Hm].
  destruct (listed_version_dir self m v w vs mods Hwf Hm Hvs Hin) as [[es Hd] _].
  rewrite (module_exists_spec json_loads self m None w mods Hm), Hd. reflexivity.
Qed.

(** X10.  A module that does not exist for [module_exists] has no versions:
    [get_module_versions] returns the empty list and raises nothing. *)
Theorem missing_module_has_no_versions (self : client) (m : string) (w : world) :
  module_exists json_loads self m None w = inr false ->
  get_module_versions json_loads self m w = inr [].
Proof.
  intros H. unfold module_exists in H.
  destruct (get_modules_dir json_loads self w) as [e|mods] eqn:Hm;
    [unfold bindR in H; rewrite Hm in H; discriminate|].
  rewrite (get_module_versions_spec self m w mods Hm).
  unfold bindR, path_exists, retR in H. rewrite Hm in H.
  destruct (stat (fs w) (joinpath mods m)); [discriminate|reflexivity].
Qed.

End Listings.

Lemma listed_module_exists_witness :
  py_module_exists test_client "testmod" None (test_world test_entries) = inr true /\
  exists vs, get_module_versions Json.loads test_client "testmod" (test_world test_entries)
             = inr vs.
Proof.
  apply (listed_module_exists Json.loads test_client "testmod" (test_world test_entries)
           ["testmod"]).
  - vm_compute. reflexivity.
  - vm_compute. reflexivity.
  - simpl. left. reflexivity.
Defined.

Lemma listed_version_exists_witness :
  py_module_exists test_client "testmod" (Some "1.0.0") (test_world test_entries)
    = inr true /\
  py_module_exists test_client "testmod" None (test_world test_entries) = inr true.
Proof.
  apply (listed_version_exists Json.loads test_client "testmod" "1.0.0"
           (test_world test_entries) ["1.0.0"]).
  - vm_compute. reflexivity.
  - vm_compute. reflexivity.
  - simpl. left. reflexivity.
Defined.

Lemma missing_module_has_no_versions_witness :
  get_module_versions Json.loads test_client "missing" (test_world test_entries) = inr [].
Proof.
  apply (missing_module_has_no_versions Json.loads test_client "missing"
           (test_world test_entries)).
  vm_compute. reflexivity.
Defined.

(** ** More on [update_integrity] *)

Lemma dict_keys_set_present (k : string) (v : json) (d : dict) :
  dict_has k d = true -> dict_keys (dict_set k v d) = dict_keys d.
Proof.
  unfold dict_has. induction d as [|[k' v'] r IH]; simpl; [discriminate|].
  destruct (String.eqb k k') eqn:E; simpl.
  - apply String.eqb_eq in E. subst k'. reflexivity.
  - intros H. rewrite (IH H). reflexivity.
Qed.

Lemma dict_set_twice (k : string) (v x : json) (d : dict) :
  dict_set k v (dict_set k x d) = dict_set k v d.
Proof.
  induction d as [|[k' v'] r IH]; simpl.
  - rewrite String.eqb_refl. reflexivity.
  - destruct (String.eqb k k') eqn:E; simpl.
    + rewrite String.eqb_refl. reflexivity.
    + rewrite E, IH. reflexivity.
Qed.

Lemma dict_pop_set (k : string) (x : json) (d : dict) :
  dict_pop k (dict_set k x d) = dict_pop k d.
Proof.
  unfold dict_pop. induction d as [|[k' v'] r IH]; simpl.
  - rewrite String.eqb_refl. reflexivity.
  - destruct (String.eqb k k') eqn:E; simpl.
    + rewrite String.eqb_refl. reflexivity.
    + rewrite E, IH. reflexivity.
Qed.

Section MoreSteps.

Variable hashlib : string -> bytes -> bytes.
Variable json_loads : bytes -> result json.
Variable json_dumps : json -> bool -> string.

(** X11.  A version that exists but holds no [source.json] makes the run
    fail with the [RuntimeError] of [get_source], and nothing is written. *)
Theorem update_missing_record (self : client) (m v : string) (w : world) (sp : Path) :
  module_exists json_loads self m (Some v) w = inr true ->
  get_source_json_path json_loads self m v w = inr sp ->
  stat (fs w) sp = None ->
  update_integrity hashlib json_loads json_dumps self m v w
  = (inl (RuntimeError ("source.json not found: " +++ path_str sp)), w).
Proof.
  intros He Hp Hs. unfold update_integrity, updated_source.
  unfold bindR at 1. rewrite He. cbv beta iota delta [negb].
  unfold bindR at 1. unfold get_source. unfold bindR at 1. rewrite Hp.
  unfold bindR at 1. unfold path_exists. rewrite Hs. reflexivity.
Qed.

(** X12.  A record that is valid JSON but no object makes the run fail with
    [TypeError] or [AttributeError], and nothing is written. *)
Theorem update_needs_object (self : client) (m v : string) (w : world) (s : json) :
  module_exists json_loads self m (Some v) w = inr true ->
  get_source json_loads self m v w = inr s ->
  (forall d, s <> JObj d) ->
  exists e,
    update_integrity hashlib json_loads json_dumps self m v w = (inl e, w) /\
    (e = TypeError \/ e = AttributeError).
Proof.
  intros He Hs Hobj.
  destruct (get_source_ok _ _ _ _ _ _ Hs) as [sp [wr [text [Hp _]]]].
  destruct (get_source_json_path_ok _ _ _ _ _ _ Hp) as [mods [Hm _]].
  assert (Hpd : get_patches_dir json_loads self m v w
                = inr (joinpath (version_dir mods m v) "patches")).
  { unfold get_patches_dir, bindR. rewrite Hm. reflexivity. }
  assert (Hu : exists e, updated_source hashlib json_loads self m v w = inl e /\
                         (e = TypeError \/ e = AttributeError)).
  { unfold updated_source. unfold bindR at 1. rewrite He.
    cbv beta iota delta [negb]. unfold bindR at 1. rewrite Hs.
    unfold bindR at 1. rewrite Hp.
    assert (Hpatch : forall s0,
              (exists l, s0 = JArr l) \/ (exists t, s0 = JStr t) ->
              exists e, update_patches hashlib (joinpath (version_dir mods m v) "patches")
                                       s0 w = inl e /\
                        (e = TypeError \/ e = AttributeError)).
    { intros s0 Hs0. unfold update_patches, bindR, path_exists, lift.
      destruct (stat (fs w) (joinpath (version_dir mods m v) "patches"));
        destruct Hs0 as [[l ->]|[t ->]]; simpl; eexists; split;
        try reflexivity; tauto. }
    destruct s as [| b | z | f | t | l | d].
    - exists TypeError. split; [reflexivity|tauto].
    - exists TypeError. split; [reflexivity|tauto].
    - exists TypeError. split; [reflexivity|tauto].
    - exists TypeError. split; [reflexivity|tauto].
    - unfold bindR at 1. unfold update_archive, bindR at 1, lift. cbn [py_contains].
      destruct (str_contains "url" t).
      + exists TypeError. split; [reflexivity|tauto].
      + unfold retR at 1. unfold bindR at 1. rewrite Hpd. unfold bindR at 1.
        destruct (Hpatch (JStr t)) as [e [-> He']]; [right; eexists; reflexivity|].
        exists e. split; [reflexivity|exact He'].
    - unfold bindR at 1. unfold update_archive, bindR at 1, lift. cbn [py_contains].
      destruct (existsb (is_str "url") l).
      + exists TypeError. split; [reflexivity|tauto].
      + unfold retR at 1. unfold bindR at 1. rewrite Hpd. unfold bindR at 1.
        destruct (Hpatch (JArr l)) as [e [-> He']]; [left; eexists; reflexivity|].
        exists e. split; [reflexivity|exact He'].
    - exfalso. apply (Hobj d). reflexivity. }
  destruct Hu as [e [Hu He']]. exists e. split; [|exact He'].
  unfold update_integrity. rewrite Hu. reflexivity.
Qed.

Lemma reconcile_field_has (k k' : string) (files : list (string * node)) (d : dict) :
  k <> k' -> dict_has k (reconcile_field hashlib k' files d) = dict_has k d.
Proof.
  intros H. unfold dict_has. rewrite (reconcile_field_get_other hashlib k k' files d H).
  reflexivity.
Qed.

Lemma reconcile_field_keys (k : string) (files : list (string * node)) (d : dict) :
  dict_has k (reconcile_field hashlib k files d) = dict_has k d ->
  dict_keys (reconcile_field hashlib k files d) = dict_keys d.
Proof.
  unfold reconcile_field. destruct files as [|f fs].
  - unfold dict_has at 1. rewrite dict_get_pop_same. intros H.
    rewrite dict_pop_id; [reflexivity|]. unfold dict_has in H.
    destruct (dict_get k d); [discriminate|reflexivity].
  - unfold dict_has at 1. rewrite dict_get_set_same. intros H.
    apply dict_keys_set_present. symmetry. exact H.
Qed.

(** X13.  A run that neither adds nor removes one of the fields
    [integrity], [patches] and [overlay] leaves all the fields of the record
    in their order: a field that is replaced keeps its place. *)
Theorem update_keeps_field_order (self : client) (m v : string) (w : world)
        (sp : Path) (d0 d : dict) :
  get_source json_loads self m v w = inr (JObj d0) ->
  updated_source hashlib json_loads self m v w = inr (sp, JObj d) ->
  same_fields d d0 = true ->
  dict_keys d = dict_keys d0.
Proof.
  intros Hs Hu Hsame.
  assert (Si : dict_has "integrity" d = dict_has "integrity" d0 /\
               dict_has "patches" d = dict_has "patches" d0 /\
               dict_has "overlay" d = dict_has "overlay" d0).
  { unfold same_fields in Hsame. cbn [forallb] in Hsame.
    apply andb_true_iff in Hsame. destruct Hsame as [H1 Hsame].
    apply andb_true_iff in Hsame. destruct Hsame as [H2 Hsame].
    apply andb_true_iff in Hsame. destruct Hsame as [H3 _].
    apply Bool.eqb_prop in H1, H2, H3. auto. }
  destruct Si as [Si [Sp So]].
  destruct (updated_source_ok _ _ _ _ _ _ _ _ Hu)
    as [mods [d0' [d1 [_ [_ [_ [Hs' [Ha Hd]]]]]]]].
  rewrite Hs in Hs'. injection Hs' as <-. injection Hd as Hd.
  set (fp := patch_entries w (joinpath (version_dir mods m v) "patches")) in Hd.
  set (fo := overlay_entries w (joinpath (version_dir mods m v) "overlay")) in Hd.
  set (d2 := reconcile_field hashlib "patches" fp d1) in Hd.
  assert (H1 : dict_keys d1 = dict_keys d0 /\
               dict_has "patches" d1 = dict_has "patches" d0 /\
               dict_has "overlay" d1 = dict_has "overlay" d0).
  { apply update_archive_ok in Ha.
    destruct Ha as [[_ [= ->]]|[url [data [_ [_ [= E]]]]]]; [auto|].
    assert (Hi : dict_has "integrity" d1 = true).
    { rewrite E. unfold dict_has. rewrite dict_get_set_same. reflexivity. }
    assert (Hi0 : dict_has "integrity" d0 = true).
    { rewrite <- Si, Hd. unfold d2.
      rewrite !reconcile_field_has by discriminate. exact Hi. }
    rewrite E. unfold dict_has at 1 3.
    rewrite !dict_get_set_other by discriminate.
    repeat split. apply dict_keys_set_present. exact Hi0. }
  destruct H1 as [K1 [P1 O1]].
  assert (K2 : dict_keys d2 = dict_keys d1).
  { apply reconcile_field_keys. fold d2. rewrite P1, <- Sp, Hd.
    rewrite reconcile_field_has by discriminate. reflexivity. }
  rewrite Hd, <- K1, <- K2. apply reconcile_field_keys.
  rewrite <- Hd, So, <- O1. unfold d2.
  rewrite reconcile_field_has by discriminate. reflexivity.
Qed.

Lemma digest_files_mapping (x y : dict) (files : list (string * node)) :
  forall acc w,
    digest_files hashlib (inr (JObj x)) files acc w
    = digest_files hashlib (inr (JObj y)) files acc w.
Proof.
  induction files as [|[name n] rest IH]; intros acc w; [reflexivity|].
  simpl. unfold bindR, lift. destruct (read_file n w); [reflexivity|].
  destruct (integrity hashlib b "sha256"); [reflexivity|].
  rewrite !notice_dict. apply IH.
Qed.

(** X14.  The mapping a record holds under [patches], or under [overlay],
    before the run has no part in the outcome of the step that rebuilds it:
    two records that differ in that mapping only give the same result, or
    the same failure. *)
Theorem stale_mappings_ignored (dir : Path) (d x y : dict) (w : world) :
  update_patches hashlib dir (JObj (dict_set "patches" (JObj x) d)) w
  = update_patches hashlib dir (JObj (dict_set "patches" (JObj y) d)) w /\
  update_overlay hashlib dir (JObj (dict_set "overlay" (JObj x) d)) w
  = update_overlay hashlib dir (JObj (dict_set "overlay" (JObj y) d)) w.
Proof.
  split.
  - unfold update_patches, bindR, lift. destruct (path_exists dir w) as [e|[|]];
      [reflexivity| |cbn [py_pop]; rewrite !dict_pop_set; reflexivity].
    rewrite !py_get_dict, !dict_get_set_same.
    destruct (iterdir dir w) as [e|es]; [reflexivity|].
    destruct (filter (fun e => is_file (snd e)) es) as [|f fs];
      [cbn [py_pop]; rewrite !dict_pop_set; reflexivity|].
    rewrite (digest_files_mapping x y).
    destruct (digest_files hashlib (inr (JObj y)) (f :: fs) [] w); [reflexivity|].
    cbn [py_setitem]. rewrite !dict_set_twice. reflexivity.
  - unfold update_overlay, bindR, lift. destruct (path_exists dir w) as [e|[|]];
      [reflexivity| |cbn [py_pop]; rewrite !dict_pop_set; reflexivity].
    destruct (rglob_all dir w) as [e|found]; [reflexivity|].
    destruct (map (fun e => (rel_str (fst e), snd e)) (filter overlay_file found))
      as [|f fs]; [cbn [py_pop]; rewrite !dict_pop_set; reflexivity|].
    rewrite !py_get_dict, !dict_get_set_same.
    rewrite (digest_files_mapping x y).
    destruct (digest_files hashlib (inr (JObj y)) (f :: fs) [] w); [reflexivity|].
    cbn [py_setitem]. rewrite !dict_set_twice. reflexivity.
Qed.

(** X15.  A successful run changes the content of one regular file, the
    record: every other regular file is as it was, no file or directory
    appears or disappears, and the working directory stays. *)
Theorem update_touches_one_file (self : client) (m v : string) (w w' : world) :
  update_integrity hashlib json_loads json_dumps self m v w = (inr tt, w') ->
  exists sp s,
    updated_source hashlib json_loads self m v w = inr (sp, s) /\
    shape (fs w') = shape (fs w) /\ cwd w' = cwd w /\
    forall p r wr data,
      realpath (fs w) p <> realpath (fs w) sp ->
      stat (fs w) p = Some (File r wr data) ->
      stat (fs w') p = Some (File r wr data).
Proof.
  intros H. apply update_integrity_ok in H.
  destruct H as [sp [s [q [old [Hu [Hq [Hold ->]]]]]]].
  exists sp, s. split; [exact Hu|]. cbn [fs cwd]. split; [|split; [reflexivity|]].
  - apply (shape_put_file _ _ _ _ _ _ _ _ Hold).
  - intros p r wr data Hp Hs. rewrite Hq in Hp.
    apply (stat_other_file (fs w) sp p q true true true true r wr old _ data Hq Hold Hp Hs).
Qed.

(** After a successful run, [get_source] returns the record of the run, when
    the JSON library reads back what it wrote. *)
Lemma update_then_get_source (self : client) (m v : string) (w w' : world)
      (sp : Path) (s : json) :
  update_integrity hashlib json_loads json_dumps self m v w = (inr tt, w') ->
  updated_source hashlib json_loads self m v w = inr (sp, s) ->
  json_loads (record_text json_dumps s) = inr s ->
  get_source json_loads self m v w' = inr s.
Proof.
  intros H Hu Hl. pose proof (update_integrity_ok _ _ _ _ _ _ _ _ H) as Hok.
  destruct Hok as [sp' [s' [q [old [Hu' [Hq [Hold ->]]]]]]].
  rewrite Hu in Hu'. injection Hu' as <- <-.
  destruct (updated_source_ok _ _ _ _ _ _ _ _ Hu)
    as [mods [d0 [d1 [Hm [_ [Hsp _]]]]]].
  destruct (joinpath_name (version_dir mods m v)) as [Ej _]. rewrite Ej in Hsp.
  subst sp.
  pose proof (after_modules_dir json_loads self m v w mods q old
                (record_text json_dumps s) Hm Hq Hold) as Hm1.
  pose proof (after_source_text m v w mods q old
                (record_text json_dumps s) Hq Hold) as Ht.
  unfold get_source, get_source_json_path. unfold bindR at 1. unfold bindR at 1.
  rewrite Hm1. unfold retR at 1. rewrite Ej. unfold bindR at 1.
  unfold path_exists. unfold open_read in Ht.
  destruct (stat _ (version_dir mods m v ++ ["source.json"])) as [n|] eqn:Hs;
    [|discriminate].
  cbv beta iota delta [negb]. unfold bindR, open_read, lift. rewrite Hs, Ht.
  exact Hl.
Qed.

Lemma update_integrity_failure (self : client) (m v : string) (w w' : world) (e : exn) :
  update_integrity hashlib json_loads json_dumps self m v w = (inl e, w') -> w' = w.
Proof.
  unfold update_integrity, json_dump.
  destruct (updated_source hashlib json_loads self m v w) as [e'|[sp s]].
  - intros [= _ <-]. reflexivity.
  - apply open_write_failure.
Qed.

End MoreSteps.

(** X16.  With the SHA-2 and JSON instances, the record [get_source] loads
    after a successful run is the record the run computed. *)
Theorem py_update_then_get_source (self : client) (m v : string) (w w' : world) :
  py_update_integrity self m v w = (inr tt, w') ->
  exists sp s,
    py_updated_source self m v w = inr (sp, s) /\
    py_get_source self m v w' = inr s.
Proof.
  intros H. pose proof (update_integrity_ok _ _ _ _ _ _ _ _ H) as Hok.
  destruct Hok as [sp [s [_ [_ [Hu _]]]]]. exists sp, s. split; [exact Hu|].
  apply (update_then_get_source Sha2.digest Json.loads Json.dumps self m v w w' sp s H Hu).
  apply loads_dumps. apply (py_updated_source_ok self m v w sp s Hu).
Qed.

Lemma update_missing_record_witness :
  py_update_integrity test_client "testmod" "1.0.0" (test_world [])
  = (inl (RuntimeError
            ("source.json not found: " +++
             path_str ["tmp"; "test_registry"; "modules"; "testmod"; "1.0.0";
                       "source.json"])),
     test_world []).
Proof.
  apply (update_missing_record Sha2.digest Json.loads Json.dumps test_client
           "testmod" "1.0.0" (test_world [])).
  - vm_compute. reflexivity.
  - vm_compute. reflexivity.
  - vm_compute. reflexivity.
Defined.

Lemma update_needs_object_witness :
  exists e,
    py_update_integrity test_client "testmod" "1.0.0"
      (test_world [("source.json", regular "[1, 2]")])
    = (inl e, test_world [("source.json", regular "[1, 2]")]) /\
    (e = TypeError \/ e = AttributeError).
Proof.
  apply (update_needs_object Sha2.digest Json.loads Json.dumps test_client
           "testmod" "1.0.0" (test_world [("source.json", regular "[1, 2]")])
           (JArr [JInt 1; JInt 2])).
  - vm_compute. reflexivity.
  - vm_compute. reflexivity.
  - intros d. discriminate.
Defined.

Lemma update_keeps_field_order_witness :
  dict_keys (record_of (py_updated_source test_client "testmod" "1.0.0"
                          (test_world stale_entries)))
  = dict_keys stale_source.
Proof.
  apply (update_keeps_field_order Sha2.digest Json.loads test_client
           "testmod" "1.0.0" (test_world stale_entries)
           ["tmp"; "test_registry"; "modules"; "testmod"; "1.0.0"; "source.json"]).
  - vm_compute. reflexivity.
  - vm_compute. reflexivity.
  - vm_compute. reflexivity.
Defined.

Lemma update_touches_one_file_witness :
  exists sp s,
    py_updated_source test_client "testmod" "1.0.0" (test_world test_entries)
      = inr (sp, s) /\
    shape (fs updated_world) = shape (fs (test_world test_entries)) /\
    cwd updated_world = cwd (test_world test_entries) /\
    forall p r wr data,
      realpath (fs (test_world test_entries)) p
        <> realpath (fs (test_world test_entries)) sp ->
      stat (fs (test_world test_entries)) p = Some (File r wr data) ->
      stat (fs updated_world) p = Some (File r wr data).
Proof.
  apply (update_touches_one_file Sha2.digest Json.loads Json.dumps test_client
           "testmod" "1.0.0" (test_world test_entries) updated_world).
  vm_compute. reflexivity.
Defined.

Lemma py_update_then_get_source_witness :
  exists sp s,
    py_updated_source test_client "testmod" "1.0.0" (test_world test_entries)
      = inr (sp, s) /\
    py_get_source test_client "testmod" "1.0.0" updated_world = inr s.
Proof.
  apply (py_update_then_get_source test_client "testmod" "1.0.0"
           (test_world test_entries) updated_world).
  vm_compute. reflexivity.
Defined.

(** ** [main] *)

Lemma ascii_compare_refl (a : ascii) : Ascii.compare a a = Eq.
Proof. unfold Ascii.compare. apply N.compare_refl. Qed.

Lemma string_leb_trans (s1 : string) :
  forall s2 s3, String.leb s1 s2 = true -> String.leb s2 s3 = true ->
                String.leb s1 s3 = true.
Proof.
  unfold String.leb.
  induction s1 as [|a s1 IH]; intros [|b s2] [|c s3]; simpl; try congruence.
  destruct (Ascii.compare a b) eqn:Hab; try congruence;
    destruct (Ascii.compare b c) eqn:Hbc; try congruence.
  - apply Ascii.compare_eq_iff in Hab, Hbc. subst. rewrite ascii_compare_refl.
    apply IH.
  - apply Ascii.compare_eq_iff in Hab. subst. rewrite Hbc. reflexivity.
  - apply Ascii.compare_eq_iff in Hbc. subst. rewrite Hab. reflexivity.
  - intros _ _.
    assert (H : Ascii.compare a c = Lt).
    { unfold Ascii.compare in *. rewrite N.compare_lt_iff in *. lia. }
    rewrite H. reflexivity.
Qed.

Lemma string_leb_refl (s : string) : String.leb s s = true.
Proof. destruct (String.leb_total s s); assumption. Qed.

Lemma insort_in (x y : string) (l : list string) :
  In y (insort x l) <-> y = x \/ In y l.
Proof.
  induction l as [|z r IH]; simpl.
  - intuition congruence.
  - destruct (String.leb z x); simpl; rewrite ?IH; intuition congruence.
Qed.

Lemma sorted_in_acc (l : list string) :
  forall acc y, In y (fold_left (fun a x => insort x a) l acc) <-> In y acc \/ In y l.
Proof.
  induction l as [|x r IH]; intros acc y; simpl.
  - tauto.
  - rewrite IH, insort_in. intuition congruence.
Qed.

Lemma sorted_in (l : list string) (y : string) : In y (sorted l) <-> In y l.
Proof. unfold sorted. rewrite sorted_in_acc. simpl. tauto. Qed.

Lemma last_in (l : list string) : l <> [] -> In (last l "") l.
Proof.
  induction l as [|x [|y r] IH]; intros H; [congruence|left; reflexivity|].
  right. apply IH. discriminate.
Qed.

Lemma insort_not_nil (x : string) (l : list string) : insort x l <> [].
Proof. destruct l as [|y r]; simpl; [|destruct (String.leb y x)]; discriminate. Qed.

Lemma insort_greatest (x : string) (l : list string) :
  last_is_greatest l -> last_is_greatest (insort x l).
Proof.
  unfold last_is_greatest. induction l as [|z r IH]; intros H y Hy.
  - simpl in *. destruct Hy as [<-|[]]. apply string_leb_refl.
  - simpl in Hy |- *. destruct (String.leb z x) eqn:Hzx.
    + assert (Hr : forall y0, In y0 r -> String.leb y0 (last r "") = true).
      { intros y0 Hy0. destruct r as [|r0 r']; [destruct Hy0|].
        apply (H y0). right. exact Hy0. }
      specialize (IH Hr).
      assert (Hl : last (z :: insort x r) "" = last (insort x r) "").
      { pose proof (insort_not_nil x r). simpl. destruct (insort x r); congruence. }
      rewrite Hl. destruct Hy as [<-|Hy].
      * apply (string_leb_trans z x); [exact Hzx|].
        apply IH. apply insort_in. left. reflexivity.
      * apply IH. exact Hy.
    + assert (Hxz : String.leb x z = true).
      { destruct (String.leb_total x z) as [E|E]; [exact E|congruence]. }
      change (last (x :: z :: r) "") with (last (z :: r) "").
      destruct Hy as [<-|Hy].
      * apply (string_leb_trans x z); [exact Hxz|]. apply H. left. reflexivity.
      * apply H. exact Hy.
Qed.

Lemma sorted_greatest_acc (l : list string) :
  forall acc, last_is_greatest acc ->
              last_is_greatest (fold_left (fun a x => insort x a) l acc).
Proof.
  induction l as [|x r IH]; intros acc H; simpl; [exact H|].
  apply IH. apply insort_greatest. exact H.
Qed.

(** The last item of the sorted list is an item, and the greatest. *)
Lemma sorted_last (l : list string) :
  l <> [] ->
  In (last (sorted l) "") l /\
  forall y, In y l -> String.leb y (last (sorted l) "") = true.
Proof.
  intros Hl. split.
  - apply sorted_in. apply last_in. intros E.
    destruct l as [|x r]; [congruence|].
    assert (H : In x (sorted (x :: r))) by (apply sorted_in; left; reflexivity).
    rewrite E in H. destruct H.
  - intros y Hy. apply (sorted_greatest_acc l []).
    + intros z [].
    + apply sorted_in. exact Hy.
Qed.

Section CommandFacts.

Variable hashlib : string -> bytes -> bytes.
Variable json_loads : bytes -> result json.
Variable json_dumps : json -> bool -> string.

Lemma select_version_ok (args : arguments) (w : world) (c : client) (v : string) :
  select_version json_loads args w = inr (inr (c, v)) ->
  new_client (arg_registry args) w = inr c /\
  module_exists json_loads c (arg_module args) None w = inr true /\
  module_exists json_loads c (arg_module args) (Some v) w = inr true /\
  exists versions,
    get_module_versions json_loads c (arg_module args) w = inr versions /\
    versions <> [] /\
    v = match arg_version args with
        | Some v' => v'
        | None => last (sorted versions) ""
        end.
Proof.
  intros H. unfold select_version in H.
  apply bindR_inr in H. destruct H as [c0 [Hc H]].
  apply bindR_inr in H. destruct H as [found [Hf H]].
  destruct found; simpl in H.
  2:{ apply bindR_inr in H. destruct H as [av [_ H]]. discriminate. }
  apply bindR_inr in H. destruct H as [versions [Hv H]].
  destruct versions as [|v0 vs]; [discriminate|].
  apply bindR_inr in H. destruct H as [found [Hf2 H]].
  destruct found; simpl in H; [|discriminate].
  unfold retR in H. injection H as <- <-.
  repeat split; try assumption.
  exists (v0 :: vs). repeat split; [assumption|discriminate].
Qed.

(** An exit that [select_version] takes is none of [Done] and [Failed]. *)
Lemma select_version_exit (args : arguments) (w : world) (exit : outcome) :
  select_version json_loads args w = inr (inl exit) ->
  exit_status exit = 1%Z /\ (forall v, exit <> Done v) /\
  forall v available, exit = VersionNotFound v available ->
    exists c versions,
      get_module_versions json_loads c (arg_module args) w = inr versions /\
      versions <> [] /\
      module_exists json_loads c (arg_module args)
        (Some match arg_version args with
              | Some v' => v'
              | None => last (sorted versions) ""
              end) w = inr false.
Proof.
  intros Hs. unfold select_version in Hs.
  apply bindR_inr in Hs. destruct Hs as [c0 [_ Hs]].
  apply bindR_inr in Hs. destruct Hs as [found [_ Hs]].
  destruct found; simpl in Hs.
  - apply bindR_inr in Hs. destruct Hs as [versions [Hvs Hs]].
    destruct versions as [|v0 vs].
    + injection Hs as <-. repeat split; discriminate.
    + apply bindR_inr in Hs. destruct Hs as [found [Hf Hs]].
      destruct found; simpl in Hs; [discriminate|].
      injection Hs as <-. repeat split; try discriminate.
      intros v av _. exists c0, (v0 :: vs).
      repeat split; [exact Hvs|discriminate|exact Hf].
  - apply bindR_inr in Hs. destruct Hs as [av [_ Hs]].
    injection Hs as <-. repeat split; discriminate.
Qed.

(** At "module not found" the module does not exist, and the modules shown
    are those of the listing. *)
Lemma select_version_missing (args : arguments) (w : world) (available : list string) :
  select_version json_loads args w = inr (inl (ModuleNotFound available)) ->
  exists c,
    module_exists json_loads c (arg_module args) None w = inr false /\
    get_all_modules json_loads c w = inr available.
Proof.
  intros Hs. unfold select_version in Hs.
  apply bindR_inr in Hs. destruct Hs as [c0 [_ Hs]].
  apply bindR_inr in Hs. destruct Hs as [found [Hf Hs]].
  destruct found; simpl in Hs.
  - apply bindR_inr in Hs. destruct Hs as [versions [_ Hs]].
    destruct versions as [|v0 vs]; [discriminate|].
    apply bindR_inr in Hs. destruct Hs as [found [_ Hs]].
    destruct found; discriminate.
  - apply bindR_inr in Hs. destruct Hs as [av [Hav Hs]].
    injection Hs as <-. exists c0. split; assumption.
Qed.

(** X17.  [main] changes the world only when it ends well: with exit status
    1 nothing has been written, and with exit status 0 the world is the one
    [update_integrity] left for the module and the version [main] reports. *)
Theorem main_writes_only_when_done (args : arguments) (w w' : world) (o : outcome) :
  main hashlib json_loads json_dumps args w = (o, w') ->
  (exit_status o = 1%Z -> w' = w) /\
  (exit_status o = 0%Z ->
   exists c v,
     o = Done v /\ new_client (arg_registry args) w = inr c /\
     update_integrity hashlib json_loads json_dumps c (arg_module args) v w
     = (inr tt, w')).
Proof.
  unfold main.
  destruct (select_version json_loads args w) as [e|[exit|[c v]]] eqn:Hs.
  - intros [= <- <-]. split; [reflexivity|discriminate].
  - intros [= <- <-]. destruct (select_version_exit args w exit Hs) as [H1 _].
    split; [reflexivity|]. rewrite H1. discriminate.
  - apply select_version_ok in Hs. destruct Hs as [Hc _].
    destruct (update_integrity hashlib json_loads json_dumps c (arg_module args) v w)
      as [[e|[]] w1] eqn:Hu; intros [= <- <-].
    + split; [|discriminate]. intros _.
      apply (update_integrity_failure hashlib json_loads json_dumps _ _ _ _ _ _ Hu).
    + split; [discriminate|]. intros _. exists c, v. repeat split; assumption.
Qed.

Lemma main_done (args : arguments) (w w' : world) (v : string) :
  main hashlib json_loads json_dumps args w = (Done v, w') ->
  exists c, select_version json_loads args w = inr (inr (c, v)).
Proof.
  unfold main.
  destruct (select_version json_loads args w) as [e|[exit|[c v0]]] eqn:Hs.
  - discriminate.
  - intros [= -> <-]. destruct (select_version_exit args w _ Hs) as [_ [H _]].
    destruct (H v eq_refl).
  - destruct (update_integrity hashlib json_loads json_dumps c (arg_module args) v0 w)
      as [[e|u] w1]; [discriminate|].
    intros [= <- <-]. exists c. reflexivity.
Qed.

(** X18.  Without [--version], the version [main] updates is one of the
    listed versions of the module and the greatest of them in the order of
    [str], which compares character by character. *)
Theorem main_latest_version (args : arguments) (w w' : world) (v : string) :
  arg_version args = None ->
  main hashlib json_loads json_dumps args w = (Done v, w') ->
  exists c vs,
    new_client (arg_registry args) w = inr c /\
    get_module_versions json_loads c (arg_module args) w = inr vs /\
    In v vs /\
    forall v', In v' vs -> String.leb v' v = true.
Proof.
  intros Hnone Hmain. apply main_done in Hmain. destruct Hmain as [c Hs].
  apply select_version_ok in Hs.
  destruct Hs as [Hc [_ [_ [vs [Hvs [Hne Hv]]]]]].
  rewrite Hnone in Hv. subst v. exists c, vs.
  destruct (sorted_last vs Hne) as [Hin Hmax].
  repeat split; assumption.
Qed.

(** X19.  Without [--version], on a well-formed tree, [main] never ends at
    "version not found": the version it picks from the listing is one that
    exists. *)
Theorem main_default_version_found (args : arguments) (w w' : world) (o : outcome) :
  wf_node (fs w) = true ->
  arg_version args = None ->
  main hashlib json_loads json_dumps args w = (o, w') ->
  is_version_not_found o = false.
Proof.
  intros Hwf Hnone Hmain. destruct o as [v1|av1| |v av|e1]; try reflexivity.
  exfalso. unfold main in Hmain.
  destruct (select_version json_loads args w) as [e|[exit|[c v0]]] eqn:Hs.
  - discriminate.
  - injection Hmain as -> _.
    destruct (select_version_exit args w _ Hs) as [_ [_ H]].
    destruct (H v av eq_refl) as [c [vs [Hvs [Hne Hf]]]].
    rewrite Hnone in Hf. destruct (sorted_last vs Hne) as [Hin _].
    rewrite (listed_version_found json_loads c (arg_module args) _ w vs Hwf Hvs Hin)
      in Hf.
    discriminate.
  - destruct (update_integrity hashlib json_loads json_dumps c (arg_module args) v0 w)
      as [[e|u] w1]; discriminate.
Qed.

(** X21.  On a well-formed tree, the module [main] reports as not found is
    none of the available modules it shows with the report. *)
Theorem main_missing_module_not_listed (args : arguments) (w w' : world)
        (available : list string) :
  wf_node (fs w) = true ->
  main hashlib json_loads json_dumps args w = (ModuleNotFound available, w') ->
  existsb (String.eqb (arg_module args)) available = false.
Proof.
  intros Hwf Hmain. unfold main in Hmain.
  destruct (select_version json_loads args w) as [e|[exit|[c v0]]] eqn:Hs.
  - discriminate.
  - injection Hmain as -> _.
    destruct (select_version_missing args w available Hs) as [c [Hf Hav]].
    destruct (existsb (String.eqb (arg_module args)) available) eqn:E; [|reflexivity].
    apply existsb_exists in E. destruct E as [m [Hin Hm]].
    apply String.eqb_eq in Hm. subst m.
    destruct (get_all_modules_dir json_loads c w available Hav) as [mods Hmods].
    destruct (listed_module_dir json_loads c _ w available mods Hwf Hmods Hav Hin)
      as [es Hd].
    rewrite (module_exists_spec json_loads c (arg_module args) None w mods Hmods), Hd
      in Hf.
    discriminate.
  - destruct (update_integrity hashlib json_loads json_dumps c (arg_module args) v0 w)
      as [[e|u] w1]; discriminate.
Qed.

(** X20.  When a regular file stands where the module's directory should
    be, [main] ends in the failure of the listing, [NotADirectoryError], and
    not at "module not found"; nothing is written. *)
Theorem main_module_is_file (args : arguments) (w : world) (c : client) (mods : Path)
        (r wr : bool) (data : bytes) :
  new_client (arg_registry args) w = inr c ->
  get_modules_dir json_loads c w = inr mods ->
  stat (fs w) (joinpath mods (arg_module args)) = Some (File r wr data) ->
  main hashlib json_loads json_dumps args w = (Failed (OSError NotADirectoryError), w).
Proof.
  intros Hc Hm Hs. unfold main, select_version. unfold bindR at 1. rewrite Hc.
  unfold bindR at 1.
  rewrite (module_exists_spec json_loads c (arg_module args) None w mods Hm), Hs.
  cbv beta iota delta [negb]. unfold bindR at 1.
  rewrite (get_module_versions_spec json_loads c (arg_module args) w mods Hm), Hs.
  reflexivity.
Qed.

End CommandFacts.

Lemma main_writes_only_when_done_witness :
  (exit_status (Done "1.0.0") = 1%Z -> updated_world = test_world test_entries) /\
  (exit_status (Done "1.0.0") = 0%Z ->
   exists c v,
     Done "1.0.0" = Done v /\
     new_client "/tmp/test_registry" (test_world test_entries) = inr c /\
     py_update_integrity c "testmod" v (test_world test_entries) = (inr tt, updated_world)).
Proof.
  apply (main_writes_only_when_done Sha2.digest Json.loads Json.dumps test_args
           (test_world test_entries) updated_world (Done "1.0.0")).
  vm_compute. reflexivity.
Defined.

Lemma main_latest_version_witness :
  exists c vs,
    new_client "/reg" plain_world = inr c /\
    get_module_versions Json.loads c "lib" plain_world = inr vs /\
    In "1.9.0" vs /\
    forall v', In v' vs -> String.leb v' "1.9.0" = true.
Proof.
  apply (main_latest_version Sha2.digest Json.loads Json.dumps plain_args
           plain_world (snd (py_main plain_args plain_world))).
  - reflexivity.
  - vm_compute. reflexivity.
Defined.

Lemma main_default_version_found_witness :
  is_version_not_found (fst (py_main plain_args plain_world)) = false.
Proof.
  apply (main_default_version_found Sha2.digest Json.loads Json.dumps plain_args
           plain_world (snd (py_main plain_args plain_world))).
  - vm_compute. reflexivity.
  - reflexivity.
  - vm_compute. reflexivity.
Defined.

Lemma main_missing_module_not_listed_witness :
  existsb (String.eqb "missing") ["testmod"] = false.
Proof.
  apply (main_missing_module_not_listed Sha2.digest Json.loads Json.dumps
           (Args "missing" None "/tmp/test_registry") (test_world test_entries)
           (test_world test_entries) ["testmod"]).
  - vm_compute. reflexivity.
  - vm_compute. reflexivity.
Defined.

Lemma main_module_is_file_witness :
  py_main (Args "README.md" None "/tmp/test_registry") (test_world test_entries)
  = (Failed (OSError NotADirectoryError), test_world test_entries).
Proof.
  apply (main_module_is_file Sha2.digest Json.loads Json.dumps
           (Args "README.md" None "/tmp/test_registry") (test_world test_entries)
           test_client test_modules true true "notes").
  - vm_compute. reflexivity.
  - vm_compute. reflexivity.
  - vm_compute. reflexivity.
Defined.

(** The order of [str] is not the order of versions: of [1.10.0], [1.9.0]
    and [1.2.0], [main] takes [1.9.0]. *)
Example main_picks_by_characters :
  fst (py_main plain_args plain_world) = Done "1.9.0".
Proof. vm_compute. reflexivity. Qed.
